(** * The validation cache and the generic reconciler of the
      deployment-validation-operator (package [controller])

    A shallow embedding of [pkg/controller/validationscache.go] and of the
    reconciler that drives it.  The two caches of the reconciler are finite
    maps, the reconciler itself is a state passed from call to call, and the
    calls that leave the process (the cluster API, the validation engine, the
    metrics sink) are answered by a [World] and written to a log of effects. *)

From Stdlib Require Import ZArith String List.
From stdpp Require Import base option list strings gmap fin_maps.

Open Scope string_scope.

(** ** Object identities and cache entries *)

Record validationKey := mkValidationKey {
  group : string;
  version : string;
  kind : string;
  namespace : string;
  name : string
}.

#[global] Instance validationKey_eq_dec : EqDecision validationKey.
Proof. solve_decision. Defined.

#[global] Instance validationKey_countable : Countable validationKey.
Proof.
  refine (inj_countable'
    (fun k => (group k, version k, kind k, namespace k, name k))
    (fun t => match t with (g, v, k, ns, n) => mkValidationKey g v k ns n end) _).
  by intros [].
Defined.

Definition resourceVersion := string.

Definition newResourceversionVal (str : string) : resourceVersion := str.

(** [validations.ValidationOutcome] is a string type: the reconciler stores
    the empty outcome in its set of current objects. *)
Definition ValidationOutcome := string.

Record validationResource := mkValidationResource {
  rversion : resourceVersion;
  uid : string;
  outcome : ValidationOutcome
}.

#[global] Instance validationResource_eq_dec : EqDecision validationResource.
Proof. solve_decision. Defined.

Definition newValidationResource (rscVer : resourceVersion) (u : string)
    (o : ValidationOutcome) : validationResource :=
  {| uid := u; rversion := rscVer; outcome := o |}.

(** ** Objects as the cluster API serves them

    An unstructured object is a tree of JSON values; the accessors of
    [client.Object] that the controller reads are fields of the record. *)

#[local] Unset Elimination Schemes.

Inductive value :=
| VNil
| VString (s : string)
| VNumber (n : Z)
| VBool (b : bool)
| VList (l : list value)
| VMap (m : list (string * value)).

(** Go errors.  [ErrWrap msg cause] is [fmt.Errorf] with a wrapped cause,
    [ErrMulti] the aggregate of go.uber.org/multierr. *)
Inductive error :=
| ErrExternal (msg : string)
| ErrWrap (msg : string) (cause : error)
| ErrMulti (errs : list error).

#[local] Set Elimination Schemes.

(** A Go pair (value, error) of which exactly one is meaningful. *)
Inductive result (A : Type) :=
| Ok (a : A)
| Err (err : error).
Arguments Ok {A} a.
Arguments Err {A} err.

Record GroupVersionKind := mkGVK {
  Group : string;
  Version : string;
  Kind : string
}.

#[global] Instance GroupVersionKind_eq_dec : EqDecision GroupVersionKind.
Proof. solve_decision. Defined.

Record Unstructured := mkUnstructured {
  GetGroupVersionKind : GroupVersionKind;
  GetNamespace : string;
  GetName : string;
  GetResourceVersion : string;
  GetUID : string;
  Object : value
}.

(** newValidationKey returns a unique identifier for the given object. *)
Definition newValidationKey (obj : Unstructured) : validationKey :=
  let gvk := GetGroupVersionKind obj in
  {| group := Group gvk;
     version := Version gvk;
     kind := Kind gvk;
     namespace := GetNamespace obj;
     name := GetName obj |}.

(** ** validationCache *)

Abbreviation validationCache := (gmap validationKey validationResource).

Definition newValidationCache : validationCache := ∅.

Definition has (vc : validationCache) (key : validationKey) : bool :=
  bool_decide (is_Some (vc !! key)).

Definition store (obj : Unstructured) (o : ValidationOutcome)
    (vc : validationCache) : validationCache :=
  let key := newValidationKey obj in
  <[key := newValidationResource
             (newResourceversionVal (GetResourceVersion obj)) (GetUID obj) o]> vc.

Definition drain (vc : validationCache) : validationCache := ∅.

Definition removeKey (key : validationKey) (vc : validationCache) : validationCache :=
  delete key vc.

Definition remove (obj : Unstructured) (vc : validationCache) : validationCache :=
  let key := newValidationKey obj in
  removeKey key vc.

(** The pair (value, exists) of the source is an option. *)
Definition retrieve (obj : Unstructured) (vc : validationCache)
    : option validationResource :=
  let key := newValidationKey obj in
  vc !! key.

(** objectAlreadyValidated returns the answer together with the cache it
    leaves behind: a stale entry is removed by the check itself. *)
Definition objectAlreadyValidated (obj : Unstructured) (vc : validationCache)
    : bool * validationCache :=
  match retrieve obj vc with
  | None => (false, vc)
  | Some validationOutcome =>
      let storedResourceVersion := rversion validationOutcome in
      let currentResourceVersion := GetResourceVersion obj in
      if negb (String.eqb storedResourceVersion currentResourceVersion)
      then (false, remove obj vc)
      else (true, vc)
  end.

(** ** Errors of multierr *)

Definition errorsOf (e : error) : list error :=
  match e with
  | ErrMulti errs => errs
  | _ => [e]
  end.

(** multierr.Append: nil is neutral, two errors are flattened into one
    aggregate. *)
Definition multierr_Append (left right : option error) : option error :=
  match left, right with
  | None, _ => right
  | _, None => left
  | Some l, Some r => Some (ErrMulti (errorsOf l ++ errorsOf r))
  end.

(** The errors an optional (nil-able) error stands for. *)
Definition multierr_Errors (e : option error) : list error :=
  match e with
  | None => []
  | Some e => errorsOf e
  end.

(** ** Reading the app label of an unstructured object *)

Fixpoint assoc (field : string) (m : list (string * value)) : option value :=
  match m with
  | [] => None
  | (k, v) :: rest => if String.eqb k field then Some v else assoc field rest
  end.

(** unstructured.NestedFieldNoCopy: walk the maps along [fields]; a missing
    field or a nil on the way is not found, anything that is not a map on the
    way is an error. *)
Fixpoint NestedFieldNoCopy (val : value) (fields : list string) : result (option value) :=
  match fields with
  | [] => Ok (Some val)
  | field :: rest =>
      match val with
      | VNil => Ok None
      | VMap m =>
          match assoc field m with
          | Some v => NestedFieldNoCopy v rest
          | None => Ok None
          end
      | _ => Err (ErrExternal "accessor error: value is not a map")
      end
  end.

(** unstructured.NestedString, with its three results (value, found, err). *)
Definition NestedString (obj : value) (fields : list string)
    : string * bool * option error :=
  match NestedFieldNoCopy obj fields with
  | Err err => ("", false, Some err)
  | Ok None => ("", false, None)
  | Ok (Some (VString s)) => (s, true, None)
  | Ok (Some _) => ("", false, Some (ErrExternal "accessor error: expected string"))
  end.

(** getAppLabel tries to read the app label from the provided object. *)
Definition getAppLabel (object : Unstructured) : result string :=
  let '(appLabel, found, err) :=
    NestedString (Object object) ["metadata"; "labels"; "app"] in
  let tail (appLabel : string) (err : option error) : result string :=
    match err with
    | Some err => Err err
    | None => Ok appLabel
    end in
  if negb found then
    let '(appLabel, found, err) :=
      NestedString (Object object) ["spec"; "selector"; "matchLabels"; "app"] in
    match err with
    | Some err => Err err
    | None =>
        if negb found then
          Err (ErrExternal ("can't find any 'app' label for " ++ GetName object
                            ++ " resource from " ++ GetNamespace object ++ " namespace"))
        else tail appLabel err
    end
  else tail appLabel err.

(** ** The collaborators of the reconciler *)

Module Request.
(** Modelled from the spec: [validations.Request] is declared in the
    validations package; it carries the coordinates of an object, its
    owner identifier and the identifier of its namespace. *)
Record t := mk {
  Kind : string;
  Name : string;
  Namespace : string;
  NamespaceUID : string;
  UID : string
}.
End Request.

(** Modelled from the spec: [validations.NewRequestFromObject] is declared in
    the validations package; the request carries the coordinates of the
    object, the namespace identifier is filled in by the caller. *)
Definition NewRequestFromObject (obj : Unstructured) : Request.t :=
  {| Request.Kind := Kind (GetGroupVersionKind obj);
     Request.Name := GetName obj;
     Request.Namespace := GetNamespace obj;
     Request.NamespaceUID := "";
     Request.UID := GetUID obj |}.

Definition setNamespaceUID (namespaceUID : string) (request : Request.t) : Request.t :=
  {| Request.Kind := Request.Kind request;
     Request.Name := Request.Name request;
     Request.Namespace := Request.Namespace request;
     Request.NamespaceUID := namespaceUID;
     Request.UID := Request.UID request |}.

(** metav1.APIResource, as far as the reconciler reads it. *)
Record APIResource := mkAPIResource {
  resGroup : string;
  resVersion : string;
  resKind : string;
  Namespaced : bool
}.

(** Modelled from the spec: [gvkFromMetav1APIResource] is declared in another
    file of the package; a discovered kind is its group, version and kind. *)
Definition gvkFromMetav1APIResource (resource : APIResource) : GroupVersionKind :=
  {| Group := resGroup resource; Version := resVersion resource; Kind := resKind resource |}.

(** schema.GroupVersionKind.String *)
Definition gvkString (gvk : GroupVersionKind) : string :=
  Group gvk ++ "/" ++ Version gvk ++ ", Kind=" ++ Kind gvk.

(** Modelled from the spec: the watched namespaces are declared in another
    file of the package; a watched namespace is a name and a stable
    identifier. *)
Record watchedNamespace := mkNamespace {
  nsName : string;
  nsUID : string
}.

Record ListOptions := mkListOptions {
  Limit : Z;
  Namespace : string;
  Continue : string
}.

Definition setContinue (listContinue : string) (listOptions : ListOptions) : ListOptions :=
  {| Limit := Limit listOptions;
     Namespace := Namespace listOptions;
     Continue := listContinue |}.

(** What the API server answers to a series of list requests that starts
    without a continuation token: an error, a page whose token is empty, or a
    page with a token and the answer to the request that carries the token. *)
Inductive listing :=
| ListError (err : error)
| LastPage (items : list Unstructured)
| MorePage (items : list Unstructured) (listContinue : string) (next : listing).

(** The calls that leave the process, in the order they are made.  The
    deletion of metrics is called with the labels of a request, and is
    recorded with the request. *)
Inductive effect :=
| ListCall (gvk : GroupVersionKind) (listOptions : ListOptions)
| RunValidationsCall (request : Request.t) (obj : Unstructured)
| RunValidationsForObjectsCall (objs : list Unstructured) (namespaceUID : string)
| DeleteMetricsCall (req : Request.t).

(** The answers of the world outside the reconciler during one pass:
    - [reconcileResourceList]: the kinds that discovery and the scheme give
      (the function is declared in another file of the package);
    - [queryNamespaces]: the query behind the watched namespaces;
    - [clientList gvk listOptions]: the answers of [client.List] to the
      series of requests for a kind that begins with [listOptions];
    - [schemeNew]: the error of [Scheme().New] for a kind, if any;
    - [FromUnstructured]: the error of the conversion of an object, if any;
    - [RunValidations], [RunValidationsForObjects]: the validation engine;
    - [rangeOrder]: the order in which a [range] over a Go map visits its
      entries; the language leaves it open, but every entry is visited
      once. *)
Record World := mkWorld {
  reconcileResourceList : result (list APIResource);
  queryNamespaces : result (list watchedNamespace);
  clientList : GroupVersionKind -> ListOptions -> listing;
  schemeNew : GroupVersionKind -> option error;
  FromUnstructured : Unstructured -> option error;
  RunValidations : Request.t -> Unstructured -> result ValidationOutcome;
  RunValidationsForObjects : list Unstructured -> string -> result ValidationOutcome;
  rangeOrder : forall A : Type, list A -> list A;
  rangeOrder_perm : forall (A : Type) (l : list A), rangeOrder A l ≡ₚ l
}.

(** ** GenericReconciler *)

Record GenericReconciler := mkGenericReconciler {
  listLimit : Z;
  watchNamespaces : option (list watchedNamespace);
  objectValidationCache : validationCache;
  currentObjects : validationCache;
  effects : list effect
}.

Definition NewGenericReconciler (limit : Z) : GenericReconciler :=
  {| listLimit := limit;
     watchNamespaces := None;
     objectValidationCache := newValidationCache;
     currentObjects := newValidationCache;
     effects := [] |}.

(** Methods of the reconciler are state transformers. *)
Definition M (A : Type) : Type := GenericReconciler -> A * GenericReconciler.

Definition ret {A} (a : A) : M A := fun gr => (a, gr).

Definition bind {A B} (m : M A) (f : A -> M B) : M B :=
  fun gr => let '(a, gr') := m gr in f a gr'.

Notation "x <- m ;; k" := (bind m (fun x => k))
  (at level 100, m at next level, right associativity).
Notation "m ;;; k" := (bind m (fun _ => k))
  (at level 100, right associativity).

Definition gets {A} (f : GenericReconciler -> A) : M A := fun gr => (f gr, gr).

(** Assignments to the fields of the reconciler. *)
Definition setWatchNamespacesOf (namespaces : option (list watchedNamespace))
    (gr : GenericReconciler) : GenericReconciler :=
  {| listLimit := listLimit gr;
     watchNamespaces := namespaces;
     objectValidationCache := objectValidationCache gr;
     currentObjects := currentObjects gr;
     effects := effects gr |}.

Definition setObjectValidationCache (vc : validationCache)
    (gr : GenericReconciler) : GenericReconciler :=
  {| listLimit := listLimit gr;
     watchNamespaces := watchNamespaces gr;
     objectValidationCache := vc;
     currentObjects := currentObjects gr;
     effects := effects gr |}.

Definition setCurrentObjects (vc : validationCache)
    (gr : GenericReconciler) : GenericReconciler :=
  {| listLimit := listLimit gr;
     watchNamespaces := watchNamespaces gr;
     objectValidationCache := objectValidationCache gr;
     currentObjects := vc;
     effects := effects gr |}.

Definition addEffect (e : effect) (gr : GenericReconciler) : GenericReconciler :=
  {| listLimit := listLimit gr;
     watchNamespaces := watchNamespaces gr;
     objectValidationCache := objectValidationCache gr;
     currentObjects := currentObjects gr;
     effects := effects gr ++ [e] |}.

(** A call that leaves the process is written to the log. *)
Definition call (e : effect) : M unit :=
  fun gr => (tt, addEffect e gr).

Definition withObjectValidationCache {A} (f : validationCache -> A * validationCache) : M A :=
  fun gr => let '(a, vc) := f (objectValidationCache gr) in
            (a, setObjectValidationCache vc gr).

Definition withCurrentObjects {A} (f : validationCache -> A * validationCache) : M A :=
  fun gr => let '(a, vc) := f (currentObjects gr) in
            (a, setCurrentObjects vc gr).

Definition setWatchNamespaces (namespaces : option (list watchedNamespace)) : M unit :=
  fun gr => (tt, setWatchNamespacesOf namespaces gr).

Section Reconciler.

Variable w : World.

(** *** The watched namespaces *)

(** Modelled from the spec: [watchNamespacesCache] is declared in another
    file of the package.  resetCache forgets the namespaces, so that the
    next pass resolves them afresh. *)
Definition resetCache : M unit := setWatchNamespaces None.

(** Modelled from the spec: getWatchNamespaces gives the ordered watched
    namespaces, and fails if the underlying query fails; the answer is kept
    until the next reset. *)
Definition getWatchNamespaces : M (result (list watchedNamespace)) :=
  cached <- gets watchNamespaces ;;
  match cached with
  | Some namespaces => ret (Ok namespaces)
  | None =>
      match queryNamespaces w with
      | Err err => ret (Err err)
      | Ok namespaces => setWatchNamespaces (Some namespaces) ;;; ret (Ok namespaces)
      end
  end.

Fixpoint lookupNamespaceUID (namespaces : list watchedNamespace) (namespace : string) : string :=
  match namespaces with
  | [] => ""
  | ns :: rest =>
      if String.eqb (nsName ns) namespace then nsUID ns
      else lookupNamespaceUID rest namespace
  end.

(** Modelled from the spec: getNamespaceUID resolves a namespace name to
    its identifier, or to the empty string. *)
Definition getNamespaceUID (namespace : string) : M string :=
  cached <- gets watchNamespaces ;;
  match cached with
  | Some namespaces => ret (lookupNamespaceUID namespaces namespace)
  | None => ret ""
  end.

(** *** From untyped to typed objects

    A typed object carries the data of the object it was converted from,
    and is represented by it. *)

Definition lookUpType (obj : Unstructured) : result unit :=
  let gvk := GetGroupVersionKind obj in
  match schemeNew w gvk with
  | Some err => Err (ErrWrap ("creating new object of type " ++ gvkString gvk) err)
  | None => Ok tt
  end.

Definition unstructuredToTyped (obj : Unstructured) : result Unstructured :=
  match lookUpType obj with
  | Err err => Err (ErrWrap "looking up object type" err)
  | Ok _ =>
      match FromUnstructured w obj with
      | Some err => Err (ErrWrap "converting unstructured to typed object" err)
      | None => Ok obj
      end
  end.

(** *** Reconciling one object *)

Definition reconcile (obj : Unstructured) : M (option error) :=
  withCurrentObjects (fun vc => (tt, store obj "" vc)) ;;;
  validated <- withObjectValidationCache (objectAlreadyValidated obj) ;;
  if validated then ret None
  else
    let request := NewRequestFromObject obj in
    request <- (if (0 <? String.length (Request.Namespace request))%nat
                then namespaceUID <- getNamespaceUID (Request.Namespace request) ;;
                     ret (setNamespaceUID namespaceUID request)
                else ret request) ;;
    match unstructuredToTyped obj with
    | Err err => ret (Some (ErrWrap "instantiating typed object" err))
    | Ok typedClientObject =>
        call (RunValidationsCall request typedClientObject) ;;;
        match RunValidations w request typedClientObject with
        | Err err => ret (Some (ErrWrap "running validations" err))
        | Ok outcome =>
            withObjectValidationCache (fun vc => (tt, store obj outcome vc)) ;;;
            ret None
        end
    end.

(** *** Reconciling the objects of one app label *)

(** The first loop of reconcileGroupOfObjects. *)
Fixpoint collectNonValidated (objs nonValidatedObj : list Unstructured)
    : M (list Unstructured) :=
  match objs with
  | [] => ret nonValidatedObj
  | o :: rest =>
      withCurrentObjects (fun vc => (tt, store o "" vc)) ;;;
      validated <- withObjectValidationCache (objectAlreadyValidated o) ;;
      if validated then collectNonValidated rest nonValidatedObj
      else collectNonValidated rest (nonValidatedObj ++ [o])
  end.

(** The second loop of reconcileGroupOfObjects. *)
Fixpoint convertObjects (nonValidatedObj cliObjects : list Unstructured)
    : result (list Unstructured) :=
  match nonValidatedObj with
  | [] => Ok cliObjects
  | o :: rest =>
      match unstructuredToTyped o with
      | Err err => Err (ErrWrap "instantiating typed object" err)
      | Ok typedClientObject => convertObjects rest (cliObjects ++ [typedClientObject])
      end
  end.

(** The third loop of reconcileGroupOfObjects. *)
Fixpoint storeOutcomes (nonValidatedObj : list Unstructured) (outcome : ValidationOutcome)
    : M unit :=
  match nonValidatedObj with
  | [] => ret tt
  | o :: rest =>
      withObjectValidationCache (fun vc => (tt, store o outcome vc)) ;;;
      storeOutcomes rest outcome
  end.

Definition reconcileGroupOfObjects (objs : list Unstructured) (namespace : string)
    : M (option error) :=
  nonValidatedObj <- collectNonValidated objs [] ;;
  namespaceUID <- getNamespaceUID namespace ;;
  match convertObjects nonValidatedObj [] with
  | Err err => ret (Some err)
  | Ok cliObjects =>
      call (RunValidationsForObjectsCall cliObjects namespaceUID) ;;;
      match RunValidationsForObjects w cliObjects namespaceUID with
      | Err err => ret (Some (ErrWrap "running validations" err))
      | Ok outcome => storeOutcomes nonValidatedObj outcome ;;; ret None
      end
  end.

(** *** Listing page by page *)

(** The loop over the items of one page. *)
Fixpoint reconcileItems (items : list Unstructured) : M (option error) :=
  match items with
  | [] => ret None
  | obj :: rest =>
      err <- reconcile obj ;;
      match err with
      | Some err =>
          ret (Some (ErrWrap ("reconciling object '" ++ GetNamespace obj ++ "/"
                              ++ GetName obj ++ "'") err))
      | None => reconcileItems rest
      end
  end.

(** The loop over the pages: one list request per page, the next one with
    the token of the page before, until a page comes without a token. *)
Fixpoint paginatedListLoop (gvk : GroupVersionKind) (listOptions : ListOptions)
    (pages : listing) : M (option error) :=
  call (ListCall gvk listOptions) ;;;
  match pages with
  | ListError err => ret (Some (ErrWrap ("listing " ++ gvkString gvk) err))
  | LastPage items => reconcileItems items
  | MorePage items listContinue next =>
      err <- reconcileItems items ;;
      match err with
      | Some err => ret (Some err)
      | None =>
          if String.eqb listContinue "" then ret None
          else paginatedListLoop gvk (setContinue listContinue listOptions) next
      end
  end.

Definition paginatedList (gvk : GroupVersionKind) (namespace : string) : M (option error) :=
  limit <- gets listLimit ;;
  let listOptions := {| Limit := limit; Namespace := namespace; Continue := "" |} in
  paginatedListLoop gvk listOptions (clientList w gvk listOptions).

(** wait.ExponentialBackoffWithContext runs the condition until it is done
    or fails; the condition here is done after its first run, so the list
    is processed once.  The context is taken to be live during a pass. *)
Definition processObjectInstances (gvk : GroupVersionKind) (namespace : string)
    : M (option error) :=
  let gvk := {| Group := Group gvk; Version := Version gvk; Kind := Kind gvk ++ "List" |} in
  err <- paginatedList gvk namespace ;;
  match err with
  | Some err => ret (Some (ErrWrap "processing list" err))
  | None => ret None
  end.

Definition processClusterscopedResources (gvk : GroupVersionKind) : M (option error) :=
  processObjectInstances gvk "".

(** *** Grouping the objects of a namespace by app label *)

Abbreviation appGroups := (gmap string (list Unstructured)).

(** The loop over the items of one page: an object without an app label is
    skipped. *)
Fixpoint groupItems (items : list Unstructured) (relatedObjects : appGroups) : appGroups :=
  match items with
  | [] => relatedObjects
  | obj :: rest =>
      match getAppLabel obj with
      | Err _ => groupItems rest relatedObjects
      | Ok appLabel =>
          groupItems rest
            (<[appLabel := ((relatedObjects !!! appLabel) ++ [obj])%list]> relatedObjects)
      end
  end.

(** The loop over the pages of one kind. *)
Fixpoint groupPages (gvk : GroupVersionKind) (listOptions : ListOptions)
    (pages : listing) (relatedObjects : appGroups) : M (result appGroups) :=
  call (ListCall gvk listOptions) ;;;
  match pages with
  | ListError err => ret (Err (ErrWrap ("listing " ++ gvkString gvk) err))
  | LastPage items => ret (Ok (groupItems items relatedObjects))
  | MorePage items listContinue next =>
      let relatedObjects := groupItems items relatedObjects in
      if String.eqb listContinue "" then ret (Ok relatedObjects)
      else groupPages gvk (setContinue listContinue listOptions) next relatedObjects
  end.

(** The loop over the kinds. *)
Fixpoint groupKinds (namespace : string) (gvks : list GroupVersionKind)
    (relatedObjects : appGroups) : M (result appGroups) :=
  match gvks with
  | [] => ret (Ok relatedObjects)
  | gvk :: rest =>
      limit <- gets listLimit ;;
      let listOptions := {| Limit := limit; Namespace := namespace; Continue := "" |} in
      r <- groupPages gvk listOptions (clientList w gvk listOptions) relatedObjects ;;
      match r with
      | Err err => ret (Err err)
      | Ok relatedObjects => groupKinds namespace rest relatedObjects
      end
  end.

Definition groupAppObjects (namespace : string) (gvks : list GroupVersionKind)
    : M (result appGroups) :=
  groupKinds namespace gvks ∅.

(** *** The namespaced kinds *)

(** The loop over the groups of one namespace. *)
Fixpoint reconcileGroups (groups : list (string * list Unstructured)) (namespace : string)
    : M (option error) :=
  match groups with
  | [] => ret None
  | (label, objects) :: rest =>
      err <- reconcileGroupOfObjects objects namespace ;;
      match err with
      | Some err =>
          ret (Some (ErrWrap ("reconciling related objects with 'app' label value '"
                              ++ label ++ "'") err))
      | None => reconcileGroups rest namespace
      end
  end.

(** The loop over the watched namespaces. *)
Fixpoint reconcileNamespaces (namespaces : list watchedNamespace)
    (gvks : list GroupVersionKind) : M (option error) :=
  match namespaces with
  | [] => ret None
  | ns :: rest =>
      r <- groupAppObjects (nsName ns) gvks ;;
      match r with
      | Err err => ret (Some err)
      | Ok relatedObjects =>
          err <- reconcileGroups (rangeOrder w _ (map_to_list relatedObjects)) (nsName ns) ;;
          match err with
          | Some err => ret (Some err)
          | None => reconcileNamespaces rest gvks
          end
      end
  end.

Definition processNamespacedResources (gvks : list GroupVersionKind) : M (option error) :=
  r <- getWatchNamespaces ;;
  match r with
  | Err err => ret (Some (ErrWrap "getting watched namespaces" err))
  | Ok namespaces => reconcileNamespaces namespaces gvks
  end.

(** *** All kinds *)

(** The loop of processAllResources, with the variables it carries. *)
Fixpoint processResources (resources : list APIResource) (finalErr : option error)
    (namespacedResources : list GroupVersionKind)
    : M (option error * list GroupVersionKind) :=
  match resources with
  | [] => ret (finalErr, namespacedResources)
  | resource :: rest =>
      let gvk := gvkFromMetav1APIResource resource in
      if Namespaced resource then
        processResources rest finalErr (namespacedResources ++ [gvk])
      else
        err <- processClusterscopedResources gvk ;;
        match err with
        | Some err =>
            processResources rest
              (multierr_Append finalErr
                 (Some (ErrWrap ("processing cluster scoped resources of type "
                                 ++ gvkString gvk) err)))
              namespacedResources
        | None => processResources rest finalErr namespacedResources
        end
  end.

Definition processAllResources (resources : list APIResource) : M (option error) :=
  r <- processResources resources None [] ;;
  let '(finalErr, namespacedResources) := r in
  err <- processNamespacedResources namespacedResources ;;
  match err with
  | Some err =>
      ret (multierr_Append finalErr
             (Some (ErrWrap "processing namespace scoped resources" err)))
  | None => ret finalErr
  end.

(** *** Reclaiming the entries of deleted objects *)

(** The body of the loop of handleResourceDeletions. *)
Definition deleteIfGone (entry : validationKey * validationResource) : M unit :=
  let '(k, v) := entry in
  live <- gets (fun gr => has (currentObjects gr) k) ;;
  if live then ret tt
  else
    namespaceUID <- getNamespaceUID (namespace k) ;;
    let req := {| Request.Kind := kind k;
                  Request.Name := name k;
                  Request.Namespace := namespace k;
                  Request.NamespaceUID := namespaceUID;
                  Request.UID := uid v |} in
    call (DeleteMetricsCall req) ;;;
    withObjectValidationCache (fun vc => (tt, removeKey k vc)).

Fixpoint forEachEntry (entries : list (validationKey * validationResource)) : M unit :=
  match entries with
  | [] => ret tt
  | entry :: rest => deleteIfGone entry ;;; forEachEntry rest
  end.

(** The loop ranges over the cache and removes nothing but the entry it is
    at, so it visits every entry the cache had when the loop began. *)
Definition handleResourceDeletions : M unit :=
  entries <- gets (fun gr => rangeOrder w _ (map_to_list (objectValidationCache gr))) ;;
  forEachEntry entries ;;;
  withCurrentObjects (fun vc => (tt, drain vc)).

(** *** One pass *)

Definition reconcileEverything : M (option error) :=
  match reconcileResourceList w with
  | Err err => ret (Some (ErrWrap "retrieving resources to reconcile" err))
  | Ok apiResources =>
      resetCache ;;;
      err <- processAllResources apiResources ;;
      match err with
      | Some err => ret (Some (ErrWrap "processing all resources" err))
      | None => handleResourceDeletions ;;; ret None
      end
  end.

End Reconciler.

(** Start makes one pass after the other until its context is done; the
    error of a pass is logged and the next pass begins.  [passes] are the
    worlds of the passes made before the context is done. *)
Fixpoint Start (passes : list World) : M unit :=
  match passes with
  | [] => ret tt
  | w :: rest => reconcileEverything w ;;; Start rest
  end.

(** * Notions the properties are stated in *)

(** The namespace identifier the reconciler resolves in a given state. *)
Definition resolveNamespaceUID (gr : GenericReconciler) (namespace : string) : string :=
  match watchNamespaces gr with
  | Some namespaces => lookupNamespaceUID namespaces namespace
  | None => ""
  end.

(** The deletion signal for a cache entry: the coordinates of the identity,
    the cached owner identifier and the namespace identifier as resolved when
    the signal is sent. *)
Definition deletionSignal (gr : GenericReconciler)
    (entry : validationKey * validationResource) : effect :=
  DeleteMetricsCall
    {| Request.Kind := kind entry.1;
       Request.Name := name entry.1;
       Request.Namespace := namespace entry.1;
       Request.NamespaceUID := resolveNamespaceUID gr (namespace entry.1);
       Request.UID := uid entry.2 |}.

(** An identity is gone when the set of current objects does not have it. *)
Definition gone (live : validationCache) (entry : validationKey * validationResource) : Prop :=
  live !! entry.1 = None.

#[global] Instance gone_dec live entry : Decision (gone live entry).
Proof. unfold gone. apply _. Defined.

(** The request the reconciler builds for an object in a given state. *)
Definition requestFor (gr : GenericReconciler) (obj : Unstructured) : Request.t :=
  let request := NewRequestFromObject obj in
  if (0 <? String.length (Request.Namespace request))%nat
  then setNamespaceUID (resolveNamespaceUID gr (Request.Namespace request)) request
  else request.

(** Storing one outcome for each object of a list. *)
Definition storeAll (objs : list Unstructured) (o : ValidationOutcome)
    (vc : validationCache) : validationCache :=
  fold_left (fun vc obj => store obj o vc) objs vc.

(** The already-validated check run over a list: the objects that need
    validation, and the cache the checks leave. *)
Fixpoint pending (objs : list Unstructured) (vc : validationCache)
    : list Unstructured * validationCache :=
  match objs with
  | [] => ([], vc)
  | obj :: rest =>
      let '(validated, vc) := objectAlreadyValidated obj vc in
      let '(nonValidated, vc) := pending rest vc in
      (if validated then nonValidated else obj :: nonValidated, vc)
  end.

(** The objects on all the pages of a listing. *)
Fixpoint itemsOf (pages : listing) : list Unstructured :=
  match pages with
  | ListError _ => []
  | LastPage items => items
  | MorePage items _ next => items ++ itemsOf next
  end.

(** The pages of a listing that is served without an error, up to the first
    page whose continuation token is empty. *)
Fixpoint pagesOf (pages : listing) : option (list (list Unstructured)) :=
  match pages with
  | ListError _ => None
  | LastPage items => Some [items]
  | MorePage items listContinue next =>
      if String.eqb listContinue "" then Some [items]
      else rest ← pagesOf next; Some (items :: rest)
  end.

Definition isListCall (e : effect) : bool :=
  match e with
  | ListCall _ _ => true
  | _ => false
  end.


(** What a run leaves behind, the list requests apart. *)
Definition outcomeOf (gr : GenericReconciler)
    : Z * option (list watchedNamespace) * validationCache * validationCache * list effect :=
  (listLimit gr, watchNamespaces gr, objectValidationCache gr, currentObjects gr,
   List.filter (fun e => negb (isListCall e)) (effects gr)).

(** An effect that hands an object of identity [k] to the validation engine. *)
Definition evaluates (k : validationKey) (e : effect) : bool :=
  match e with
  | RunValidationsCall _ obj => bool_decide (newValidationKey obj = k)
  | RunValidationsForObjectsCall objs _ =>
      bool_decide (Exists (fun obj => newValidationKey obj = k) objs)
  | _ => false
  end.

(** How often the validation engine was handed an object of identity [k]. *)
Definition evaluations (k : validationKey) (effs : list effect) : nat :=
  length (List.filter (evaluates k) effs).

(** Whether the app label of an object can be read. *)
Definition labelled (obj : Unstructured) : Prop :=
  exists appLabel, getAppLabel obj = Ok appLabel.

(** An effect that hands the object [obj] to the validation engine. *)
Definition evaluatesObject (obj : Unstructured) (e : effect) : Prop :=
  match e with
  | RunValidationsCall _ o => o = obj
  | RunValidationsForObjectsCall objs _ => obj ∈ objs
  | _ => False
  end.

(** The kind under which the objects of a cluster-scoped kind are listed. *)
Definition listKindOf (gvk : GroupVersionKind) : GroupVersionKind :=
  {| Group := Group gvk; Version := Version gvk; Kind := Kind gvk ++ "List" |}.

(** The errors of the cluster-scoped kinds of a pass, one for each kind whose
    processing returns an error, in the order of the kinds. *)
Fixpoint clusterScopedFailures (w : World) (resources : list APIResource)
    (gr : GenericReconciler) : list error :=
  match resources with
  | [] => []
  | resource :: rest =>
      let gvk := gvkFromMetav1APIResource resource in
      if Namespaced resource then clusterScopedFailures w rest gr
      else
        let run := processClusterscopedResources w gvk gr in
        (match run.1 with
         | Some err =>
             [ErrWrap ("processing cluster scoped resources of type " ++ gvkString gvk) err]
         | None => []
         end ++ clusterScopedFailures w rest run.2)%list
  end.

(** An object that some list request of world [w] is answered with. *)
Definition servedBy (w : World) (obj : Unstructured) : Prop :=
  exists gvk listOptions, obj ∈ itemsOf (clientList w gvk listOptions).

(** During the pass of world [w] every object served with identity [k] is at
    revision [rv]. *)
Definition servedAt (w : World) (k : validationKey) (rv : string) : Prop :=
  forall gvk listOptions obj,
    obj ∈ itemsOf (clientList w gvk listOptions) ->
    newValidationKey obj = k -> GetResourceVersion obj = rv.

(** The validation engine of world [w] returns no error for an object of
    identity [k]. *)
Definition validates (w : World) (k : validationKey) : Prop :=
  (forall request obj, newValidationKey obj = k ->
     exists outcome, RunValidations w request obj = Ok outcome) /\
  (forall objs namespaceUID, Exists (fun obj => newValidationKey obj = k) objs ->
     exists outcome, RunValidationsForObjects w objs namespaceUID = Ok outcome).

(** The world [w] with the objects without an app label taken off every
    page. *)
Definition hasAppLabel (obj : Unstructured) : bool :=
  match getAppLabel obj with
  | Ok _ => true
  | Err _ => false
  end.

Fixpoint labelledOnly (pages : listing) : listing :=
  match pages with
  | ListError err => ListError err
  | LastPage items => LastPage (List.filter hasAppLabel items)
  | MorePage items listContinue next =>
      MorePage (List.filter hasAppLabel items) listContinue (labelledOnly next)
  end.

Definition withoutUnlabelled (w : World) : World :=
  {| reconcileResourceList := reconcileResourceList w;
     queryNamespaces := queryNamespaces w;
     clientList := fun gvk listOptions => labelledOnly (clientList w gvk listOptions);
     schemeNew := schemeNew w;
     FromUnstructured := FromUnstructured w;
     RunValidations := RunValidations w;
     RunValidationsForObjects := RunValidationsForObjects w;
     rangeOrder := rangeOrder w;
     rangeOrder_perm := rangeOrder_perm w |}.

(** ** Relations between the states before and after a run *)

(** [respects R m]: a run of [m] takes every state to one related by [R]. *)
Definition respects {A} (R : relation GenericReconciler) (m : M A) : Prop :=
  forall gr, R gr (m gr).2.

(** [keepsCurrent gr gr']: every identity in the set of current objects of
    [gr] is in that of [gr']. *)
Definition keepsCurrent (gr gr' : GenericReconciler) : Prop :=
  forall k, is_Some (currentObjects gr !! k) -> is_Some (currentObjects gr' !! k).

(** [extends gr gr']: from [gr] to [gr'] the log of effects has grown at its
    end and the page size is the same. *)
Definition extends (gr gr' : GenericReconciler) : Prop :=
  listLimit gr' = listLimit gr /\ exists new, effects gr' = (effects gr ++ new)%list.

(** [keepsEntry k entry gr gr']: if the cache of [gr] has [entry] for [k], so
    has the cache of [gr']. *)
Definition keepsEntry (k : validationKey) (entry : validationResource)
    (gr gr' : GenericReconciler) : Prop :=
  objectValidationCache gr !! k = Some entry -> objectValidationCache gr' !! k = Some entry.

(** [sameRequests gr gr']: from [gr] to [gr'] no list request was made. *)
Definition sameRequests (gr gr' : GenericReconciler) : Prop :=
  List.filter isListCall (effects gr') = List.filter isListCall (effects gr).

(** An object that, if its identity is [k], is at revision [rv]. *)
Definition atRevision (k : validationKey) (rv : string) (obj : Unstructured) : Prop :=
  newValidationKey obj = k -> GetResourceVersion obj = rv.

(** [leavesOut w obj gr gr']: from [gr] to [gr'] the object [obj] was not
    handed to the validation engine, and every identity that entered the set
    of current objects is the identity of a served object with an app
    label. *)
Definition leavesOut (w : World) (obj : Unstructured) (gr gr' : GenericReconciler) : Prop :=
  (exists new, effects gr' = (effects gr ++ new)%list /\
               Forall (fun e => ~ evaluatesObject obj e) new) /\
  (forall k, is_Some (currentObjects gr' !! k) ->
             is_Some (currentObjects gr !! k) \/
             exists o, servedBy w o /\ labelled o /\ newValidationKey o = k).

(** Groups that hold only objects with the property [P] and an app label. *)
Definition groupsServed (P : Unstructured -> Prop)
    (relatedObjects : gmap string (list Unstructured)) : Prop :=
  map_Forall (fun _ objs => Forall (fun obj => P obj /\ labelled obj) objs) relatedObjects.

Definition resultServed (P : Unstructured -> Prop)
    (r : result (gmap string (list Unstructured))) : Prop :=
  match r with
  | Ok relatedObjects => groupsServed P relatedObjects
  | Err _ => True
  end.

(** The identity [k] has been validated [n] times, or once more and then
    the cache has its entry at the revision [rv] (and, when [strict], the set
    of current objects has the identity). *)
Definition validatedOnce (k : validationKey) (rv : string) (strict : bool) (n : nat)
    (gr : GenericReconciler) : Prop :=
  evaluations k (effects gr) = n \/
  (evaluations k (effects gr) = S n /\
   (exists entry, objectValidationCache gr !! k = Some entry /\ rversion entry = rv) /\
   (strict = true -> is_Some (currentObjects gr !! k))).

Definition keepsValidatedOnce (k : validationKey) (rv : string) (strict : bool) (n : nat)
    (gr gr' : GenericReconciler) : Prop :=
  validatedOnce k rv strict n gr -> validatedOnce k rv strict n gr'.

(** ** A small cluster to run the reconciler on *)

Module Example.

Definition nodeGVK : GroupVersionKind := mkGVK "" "v1" "Node".
Definition podGVK : GroupVersionKind := mkGVK "" "v1" "Pod".

Definition node (n rv : string) : Unstructured :=
  mkUnstructured nodeGVK "" n rv ("uid-" ++ n) (VMap []).

Definition withLabel (l : string) : value :=
  VMap [("metadata", VMap [("labels", VMap [("app", VString l)])])].

Definition withSelector (l : string) : value :=
  VMap [("metadata", VMap []);
        ("spec", VMap [("selector", VMap [("matchLabels", VMap [("app", VString l)])])])].

Definition pod (n rv : string) (content : value) : Unstructured :=
  mkUnstructured podGVK "ns1" n rv ("uid-" ++ n) content.

Definition inOrder (A : Type) (l : list A) : list A := l.

Definition nodes : APIResource := mkAPIResource "" "v1" "Node" false.
Definition namespacedPods : APIResource := mkAPIResource "" "v1" "Pod" true.
Definition volumes : APIResource := mkAPIResource "" "v1" "Volume" false.

Definition kinds : list APIResource := [nodes; namespacedPods; volumes].

(** A cluster with the cluster-scoped kinds Node and Volume and the
    namespaced kind Pod, each with its listing; [known] tells which kinds
    the scheme has and [valid] which objects the validation engine
    accepts. *)
Definition clusterOf (namespaces : list watchedNamespace)
    (nodeList volumeList podList : listing)
    (known : GroupVersionKind -> bool) (valid : Unstructured -> bool) : World :=
  {| reconcileResourceList := Ok kinds;
     queryNamespaces := Ok namespaces;
     clientList := fun gvk _ =>
       if String.eqb (Kind gvk) "NodeList" then nodeList
       else if String.eqb (Kind gvk) "VolumeList" then volumeList
       else if String.eqb (Kind gvk) "Pod" then podList
       else LastPage [];
     schemeNew := fun gvk =>
       if known gvk then None else Some (ErrExternal "no kind is registered");
     FromUnstructured := fun _ => None;
     RunValidations := fun _ obj =>
       if valid obj then Ok "valid" else Err (ErrExternal "validation engine failed");
     RunValidationsForObjects := fun objs _ =>
       if forallb valid objs then Ok "valid" else Err (ErrExternal "validation engine failed");
     rangeOrder := inOrder;
     rangeOrder_perm := fun A l => Permutation_refl l |}.

Definition cluster : listing -> listing -> listing -> (GroupVersionKind -> bool) ->
                     (Unstructured -> bool) -> World :=
  clusterOf [mkNamespace "ns1" "nsuid1"].

Definition start : GenericReconciler := NewGenericReconciler 2.

Definition always {A : Type} (_ : A) : bool := true.

(** The reconciler once the watched namespaces are resolved. *)
Definition watching : GenericReconciler :=
  setWatchNamespacesOf (Some [mkNamespace "ns1" "nsuid1"]) start.

(** The pods of the app [a]. *)
Definition appA : list Unstructured :=
  [pod "p1" "1" (withLabel "a"); pod "p3" "7" (withSelector "a")].

(** One node, two pods of the app [a] and a pod without an app label. *)
Definition pods : listing :=
  MorePage [pod "p1" "1" (withLabel "a"); pod "p2" "1" (VMap [])] "2"
    (LastPage [pod "p3" "7" (withSelector "a")]).

Definition healthy : World :=
  cluster (LastPage [node "n1" "1"]) (LastPage []) pods always always.



(** The same cluster when the scheme has no kind registered. *)
Definition unregistered : World :=
  cluster (LastPage [node "n1" "1"; node "n2" "1"]) (LastPage []) pods
    (fun _ => false) always.

Definition isNode (obj : Unstructured) : bool :=
  String.eqb (Kind (GetGroupVersionKind obj)) "Node".


(** A validation engine that fails on nodes. *)
Definition invalidNodes : World :=
  cluster (LastPage [node "n1" "1"]) (LastPage []) pods always
    (fun obj => negb (isNode obj)).

(** The same cluster when listing the volumes fails. *)
Definition volumesDown : World :=
  cluster (LastPage [node "n1" "1"])
    (ListError (ErrExternal "the server could not find the requested resource"))
    pods always always.

End Example.

(** * The page size of the list requests *)

Section ListLimit.

(** The name of the environment variable and the default page size are
    constants declared in another file of the package; [Atoi] is
    [strconv.Atoi]. *)
Variable EnvResorucesPerListQuery : string.
Variable defaultListLimit : Z.
Variable Atoi : string -> result Z.

(** The environment of the process, as [os.LookupEnv] reads it. *)
Abbreviation environment := (gmap string string).

Definition intFromEnv (env : environment) (envName : string) : Z * bool * option error :=
  match env !! envName with
  | None => (0%Z, false, None)
  | Some strVal =>
      if String.eqb strVal "" then (0%Z, false, None)
      else
        match Atoi strVal with
        | Err err => (0%Z, false, Some err)
        | Ok intVal => (intVal, true, None)
        end
  end.

Definition defaultOrEnv (env : environment) (envName : string) (defaultIntVal : Z)
    : result Z :=
  let '(envVal, ok, err) := intFromEnv env envName in
  match err with
  | Some err => Err err
  | None => if ok then Ok envVal else Ok defaultIntVal
  end.

Definition getListLimit (env : environment) : result Z :=
  defaultOrEnv env EnvResorucesPerListQuery defaultListLimit.

(** NewGenericReconciler of the source, with the environment it reads. *)
Definition NewGenericReconcilerIn (env : environment) : result GenericReconciler :=
  match getListLimit env with
  | Err err => Err err
  | Ok limit => Ok (NewGenericReconciler limit)
  end.

End ListLimit.

(** * Further notions *)

(** The string at a path of an object, if there is one. *)
Definition stringAt (fields : list string) (obj : Unstructured) : option string :=
  match NestedString (Object obj) fields with
  | (s, true, None) => Some s
  | _ => None
  end.

Definition labelPath : list string := ["metadata"; "labels"; "app"].
Definition selectorPath : list string := ["spec"; "selector"; "matchLabels"; "app"].

(** Whether the app label of an object is [appLabel]. *)
Definition hasLabel (appLabel : string) (obj : Unstructured) : bool :=
  match getAppLabel obj with
  | Ok l => String.eqb l appLabel
  | Err _ => false
  end.

(** The objects of all the kinds, as one namespace lists them, when every
    list is served to its end. *)
Fixpoint listedIn (w : World) (limit : Z) (namespace : string)
    (gvks : list GroupVersionKind) : option (list Unstructured) :=
  match gvks with
  | [] => Some []
  | gvk :: rest =>
      served ← pagesOf (clientList w gvk
                          {| Limit := limit; Namespace := namespace; Continue := "" |});
      items ← listedIn w limit namespace rest;
      Some (concat served ++ items)%list
  end.

(** The kinds of a discovery answer that are cluster-scoped, and those that
    are namespaced. *)
Definition clusterScoped (resources : list APIResource) : list APIResource :=
  List.filter (fun resource => negb (Namespaced resource)) resources.

Definition namespaced (resources : list APIResource) : list APIResource :=
  List.filter Namespaced resources.

(** [touchesObserved gr gr']: from [gr] to [gr'] the set of current objects
    has only grown, and the cache is as it was at every identity that the
    set of current objects of [gr'] does not have. *)
Definition touchesObserved (gr gr' : GenericReconciler) : Prop :=
  keepsCurrent gr gr' /\
  forall k, currentObjects gr' !! k = None ->
            objectValidationCache gr' !! k = objectValidationCache gr !! k.

(** Every identity in the set of current objects is the identity of an
    object that world [w] serves, and its cache entry, if it has one, is at
    the revision of such an object. *)
Definition observedAsServed (w : World) (gr : GenericReconciler) : Prop :=
  forall k, is_Some (currentObjects gr !! k) ->
    (exists obj, servedBy w obj /\ newValidationKey obj = k) /\
    forall entry, objectValidationCache gr !! k = Some entry ->
      exists obj, servedBy w obj /\ newValidationKey obj = k /\
                  rversion entry = GetResourceVersion obj.

Definition keepsObservedAsServed (w : World) (gr gr' : GenericReconciler) : Prop :=
  observedAsServed w gr -> observedAsServed w gr'.

(** The kinds that the discovery of world [w] answers with, and the names
    of the namespaces that its query for the watched namespaces answers
    with; none when the discovery or the query fails. *)
Definition discovered (w : World) : list APIResource :=
  match reconcileResourceList w with
  | Ok resources => resources
  | Err _ => []
  end.

Definition queried (w : World) : list string :=
  match queryNamespaces w with
  | Ok namespaces => nsName <$> namespaces
  | Err _ => []
  end.

(** A list request within the scope of a pass: with the page size [limit],
    and either for the list kind of a cluster-scoped kind and no namespace,
    or for a namespaced kind and one of the namespaces [names].  The effects
    that are not list requests are left open. *)
Definition inScope (limit : Z) (resources : list APIResource) (names : list string)
    (e : effect) : Prop :=
  match e with
  | ListCall gvk listOptions =>
      Limit listOptions = limit /\
      ((Namespace listOptions = "" /\
        exists resource, resource ∈ resources /\ Namespaced resource = false /\
                         gvk = listKindOf (gvkFromMetav1APIResource resource)) \/
       (Namespace listOptions ∈ names /\
        exists resource, resource ∈ resources /\ Namespaced resource = true /\
                         gvk = gvkFromMetav1APIResource resource))
  | _ => True
  end.

(** [staysInScope limit ok gr gr']: from a state with the page size [limit],
    the page size is kept and the effects added satisfy [ok]. *)
Definition staysInScope (limit : Z) (ok : effect -> Prop) (gr gr' : GenericReconciler) : Prop :=
  listLimit gr = limit ->
  listLimit gr' = limit /\
  exists new, effects gr' = (effects gr ++ new)%list /\ Forall ok new.

(** Every list request for [gvk] in [namespace] with the page size [limit]
    satisfies [ok], whatever its continuation token. *)
Definition listsOk (limit : Z) (ok : effect -> Prop) (gvk : GroupVersionKind)
    (namespace : string) : Prop :=
  forall listOptions, Limit listOptions = limit -> Namespace listOptions = namespace ->
                      ok (ListCall gvk listOptions).

(** [sameNamespaces gr gr']: the watched namespaces are as they were. *)
Definition sameNamespaces (gr gr' : GenericReconciler) : Prop :=
  watchNamespaces gr' = watchNamespaces gr.

(** No object that world [w] serves has the identity [k]. *)
Definition notServed (w : World) (k : validationKey) : Prop :=
  forall obj, servedBy w obj -> newValidationKey obj <> k.

(** ** A pass that fails *)

Definition isDeleteMetricsCall (e : effect) : bool :=
  match e with
  | DeleteMetricsCall _ => true
  | _ => false
  end.

(** [sendsNoDeletion gr gr']: from [gr] to [gr'] the log of effects has grown
    at its end, and by no deletion signal. *)
Definition sendsNoDeletion (gr gr' : GenericReconciler) : Prop :=
  exists new, effects gr' = (effects gr ++ new)%list /\
              Forall (fun e => isDeleteMetricsCall e = false) new.

(** The state in which a pass of world [w] that began in [gr] is when the
    processing of the kinds and the namespaces has returned, before the
    deletion-reclaim phase: [gr] itself when the discovery fails. *)
Definition processed (w : World) (gr : GenericReconciler) : GenericReconciler :=
  match reconcileResourceList w with
  | Err _ => gr
  | Ok apiResources => (processAllResources w apiResources (setWatchNamespacesOf None gr)).2
  end.

(** ** A validation that fails *)

(** The validation engine of world [w] returns an error for every object of
    identity [k], and for every list of objects that has one. *)
Definition rejects (w : World) (k : validationKey) : Prop :=
  (forall request obj, newValidationKey obj = k ->
     exists err, RunValidations w request obj = Err err) /\
  (forall objs namespaceUID, Exists (fun obj => newValidationKey obj = k) objs ->
     exists err, RunValidationsForObjects w objs namespaceUID = Err err).

(** [storesNothingAt k gr gr']: the entry that the cache of [gr'] has for
    [k], if it has one, is the entry that the cache of [gr] had. *)
Definition storesNothingAt (k : validationKey) (gr gr' : GenericReconciler) : Prop :=
  forall entry, objectValidationCache gr' !! k = Some entry ->
                objectValidationCache gr !! k = Some entry.

(** An object that converts to its typed form in world [w]. *)
Definition converts (w : World) (obj : Unstructured) : Prop :=
  exists typedClientObject, unstructuredToTyped w obj = Ok typedClientObject.

Open Scope list_scope.

#[local] Arguments store : simpl never.
#[local] Arguments objectAlreadyValidated : simpl never.
#[local] Arguments newValidationKey : simpl never.
#[local] Arguments unstructuredToTyped : simpl never.
#[local] Arguments getAppLabel : simpl never.
#[local] Arguments gvkString : simpl never.
#[local] Arguments Nat.ltb : simpl never.
#[local] Arguments String.length : simpl never.
#[local] Arguments String.append : simpl never.

(** * Reasoning about state transformers *)

Lemma bind_unfold {A B} (m : M A) (f : A -> M B) (gr : GenericReconciler) :
  bind m f gr = f (m gr).1 (m gr).2.
Proof. unfold bind. by destruct (m gr). Qed.

Section Respects.

Context (R : relation GenericReconciler) `{!PreOrder R}.

Lemma respects_ret {A} (a : A) : respects R (ret a).
Proof. intros gr. reflexivity. Qed.

Lemma respects_gets {A} (f : GenericReconciler -> A) : respects R (gets f).
Proof. intros gr. reflexivity. Qed.

Lemma respects_bind {A B} (m : M A) (f : A -> M B) :
  respects R m -> (forall a, respects R (f a)) -> respects R (bind m f).
Proof.
  intros Hm Hf gr. rewrite bind_unfold.
  etransitivity; [apply Hm | apply Hf].
Qed.

End Respects.

Ltac unfold_ops :=
  unfold bind, ret, gets, call, withCurrentObjects, withObjectValidationCache,
    setWatchNamespaces; cbn [fst snd].

(** * The already-validated check *)

(** C1. The already-validated check: without an entry for the identity of the
    object it answers false and leaves the cache as it is; with an entry whose
    stored revision differs from the revision of the object it removes that
    entry and answers false; with an entry of equal revision it answers true
    and leaves the cache as it is. *)
Theorem objectAlreadyValidated_cases (vc : validationCache) (obj : Unstructured) :
  (vc !! newValidationKey obj = None ->
     objectAlreadyValidated obj vc = (false, vc)) /\
  (forall entry, vc !! newValidationKey obj = Some entry ->
     rversion entry <> GetResourceVersion obj ->
     objectAlreadyValidated obj vc = (false, delete (newValidationKey obj) vc)) /\
  (forall entry, vc !! newValidationKey obj = Some entry ->
     rversion entry = GetResourceVersion obj ->
     objectAlreadyValidated obj vc = (true, vc)).
Proof.
  unfold objectAlreadyValidated, retrieve, remove, removeKey.
  repeat split.
  - intros ->. reflexivity.
  - intros entry -> Hne.
    apply String.eqb_neq in Hne. cbn. by rewrite Hne.
  - intros entry -> Heq.
    apply String.eqb_eq in Heq. cbn. by rewrite Heq.
Qed.

Lemma objectAlreadyValidated_cases_witness :
  objectAlreadyValidated (Example.node "n1" "2") ∅ = (false, ∅) /\
  objectAlreadyValidated (Example.node "n1" "2") (store (Example.node "n1" "1") "valid" ∅)
    = (false, delete (newValidationKey (Example.node "n1" "2"))
                (store (Example.node "n1" "1") "valid" ∅)) /\
  objectAlreadyValidated (Example.node "n1" "2") (store (Example.node "n1" "2") "valid" ∅)
    = (true, store (Example.node "n1" "2") "valid" ∅).
Proof.
  split; [| split].
  - apply (proj1 (objectAlreadyValidated_cases ∅ (Example.node "n1" "2"))).
    reflexivity.
  - eapply (proj1 (proj2 (objectAlreadyValidated_cases
              (store (Example.node "n1" "1") "valid" ∅) (Example.node "n1" "2")))).
    + vm_compute. reflexivity.
    + cbn. discriminate.
  - eapply (proj2 (proj2 (objectAlreadyValidated_cases
              (store (Example.node "n1" "2") "valid" ∅) (Example.node "n1" "2")))).
    + vm_compute. reflexivity.
    + reflexivity.
Defined.

(** * Reclaiming the entries of deleted objects *)

Lemma has_false (vc : validationCache) (k : validationKey) :
  has vc k = false <-> vc !! k = None.
Proof.
  unfold has. rewrite bool_decide_eq_false, <- eq_None_not_Some. done.
Qed.

Lemma has_true (vc : validationCache) (k : validationKey) :
  has vc k = true <-> is_Some (vc !! k).
Proof. unfold has. by rewrite bool_decide_eq_true. Qed.

Lemma deletionSignal_ext (gr gr' : GenericReconciler) entry :
  watchNamespaces gr' = watchNamespaces gr ->
  deletionSignal gr' entry = deletionSignal gr entry.
Proof. unfold deletionSignal, resolveNamespaceUID. by intros ->. Qed.

Lemma getNamespaceUID_run (namespace : string) (gr : GenericReconciler) :
  getNamespaceUID namespace gr = (resolveNamespaceUID gr namespace, gr).
Proof.
  unfold getNamespaceUID, resolveNamespaceUID, bind, gets, ret.
  by destruct (watchNamespaces gr).
Qed.

Lemma deleteIfGone_run k v gr :
  deleteIfGone (k, v) gr =
  (tt, if has (currentObjects gr) k then gr
       else setObjectValidationCache (delete k (objectValidationCache gr))
              (addEffect (deletionSignal gr (k, v)) gr)).
Proof.
  unfold deleteIfGone. rewrite bind_unfold. unfold gets. cbn [fst snd].
  destruct (has (currentObjects gr) k); [done |].
  by rewrite bind_unfold, getNamespaceUID_run.
Qed.

(** The loop over the entries: the signals it sends and the cache it leaves. *)
Lemma forEachEntry_spec entries gr :
  let gr' := (forEachEntry entries gr).2 in
  listLimit gr' = listLimit gr /\
  watchNamespaces gr' = watchNamespaces gr /\
  currentObjects gr' = currentObjects gr /\
  effects gr' = effects gr ++ (deletionSignal gr <$> filter (gone (currentObjects gr)) entries) /\
  forall k, objectValidationCache gr' !! k =
            if decide (k ∈ (filter (gone (currentObjects gr)) entries).*1) then None
            else objectValidationCache gr !! k.
Proof.
  revert gr. induction entries as [|[k v] entries IH]; intros gr; cbv zeta; cbn [forEachEntry].
  - rewrite filter_nil. cbn. rewrite app_nil_r. repeat split.
  - rewrite filter_cons, bind_unfold, deleteIfGone_run. cbn [fst snd].
    destruct (decide (gone (currentObjects gr) (k, v))) as [Hlive|Hlive]; unfold gone in Hlive;
      cbn [fst] in Hlive.
    + rewrite (proj2 (has_false _ _) Hlive).
      match goal with |- context [forEachEntry entries ?g] =>
        specialize (IH g); set (gr1 := g) in * end.
      cbv zeta in IH. destruct IH as (IH1 & IH2 & IH3 & IH4 & IH5).
      rewrite IH1, IH2, IH3, IH4. subst gr1. cbn in IH5 |- *. repeat split.
      * by rewrite <- app_assoc.
      * intros k'. rewrite IH5. cbn.
        destruct (decide (k' = k)) as [->|Hne].
        -- rewrite lookup_delete_eq.
           rewrite (decide_True (P := k ∈ _ :: _)) by apply list_elem_of_here.
           by case_decide.
        -- rewrite lookup_delete_ne by done.
           apply decide_ext. rewrite elem_of_cons. tauto.
    + rewrite (proj2 (has_true _ _)) by (by apply not_eq_None_Some).
      apply IH.
Qed.

(** The phase as a whole, with the entries in the order the loop visits
    them. *)
Lemma handleResourceDeletions_run (w : World) (gr : GenericReconciler) :
  let gr' := (handleResourceDeletions w gr).2 in
  let entries := rangeOrder w _ (map_to_list (objectValidationCache gr)) in
  listLimit gr' = listLimit gr /\
  watchNamespaces gr' = watchNamespaces gr /\
  currentObjects gr' = ∅ /\
  effects gr' = effects gr ++ (deletionSignal gr <$> filter (gone (currentObjects gr)) entries) /\
  objectValidationCache gr' =
    filter (fun entry => is_Some (currentObjects gr !! entry.1)) (objectValidationCache gr).
Proof.
  cbv zeta. unfold handleResourceDeletions.
  rewrite !bind_unfold. unfold gets, withCurrentObjects.
  cbn [fst snd effects objectValidationCache].
  set (entries := rangeOrder w _ (map_to_list (objectValidationCache gr))).
  assert (Hperm : entries ≡ₚ map_to_list (objectValidationCache gr))
    by apply rangeOrder_perm.
  destruct (forEachEntry_spec entries gr) as (Hlim & Hns & _ & Heff & Hcache).
  cbv zeta in Hlim, Hns, Heff, Hcache. cbn. repeat split; try done.
  apply map_eq. intros k. rewrite Hcache, map_lookup_filter.
  case_decide as Hin.
  - apply list_elem_of_fmap in Hin as ([k' v] & -> & Hin).
    apply list_elem_of_filter in Hin as [Hgone Hin]. unfold gone in Hgone. cbn in *.
    destruct (objectValidationCache gr !! k'); [| done]. cbn.
    rewrite option_guard_False; [done |]. rewrite Hgone. by intros [? ?].
  - destruct (objectValidationCache gr !! k) as [v|] eqn:Hk; [| done]. cbn.
    rewrite option_guard_True; [done |]. cbn.
    destruct (currentObjects gr !! k) eqn:Hlive; [done |].
    exfalso. apply Hin. apply list_elem_of_fmap. exists (k, v). split; [done |].
    apply list_elem_of_filter. split; [done |].
    rewrite Hperm. by apply elem_of_map_to_list.
Qed.

(** C3. The deletion-reclaim phase: the signals it sends are those of the
    cache entries whose identity the set of current objects lacks, one for
    each of them, with the cached owner identifier and the namespace
    identifier resolved at that moment; these identities leave the cache, the
    entries of the identities in the set of current objects stay as they
    are. *)
Theorem handleResourceDeletions_reclaims (w : World) (gr : GenericReconciler) :
  let gr' := (handleResourceDeletions w gr).2 in
  (exists stale,
      stale ≡ₚ map_to_list (filter (gone (currentObjects gr)) (objectValidationCache gr)) /\
      effects gr' = effects gr ++ (deletionSignal gr <$> stale)) /\
  objectValidationCache gr' =
    filter (fun entry => is_Some (currentObjects gr !! entry.1)) (objectValidationCache gr).
Proof.
  cbv zeta.
  destruct (handleResourceDeletions_run w gr) as (_ & _ & _ & Heff & Hcache).
  cbv zeta in Heff, Hcache. split; [| done].
  eexists. split; [| exact Heff].
  rewrite (rangeOrder_perm w). apply NoDup_Permutation.
  - apply NoDup_filter, NoDup_map_to_list.
  - apply NoDup_map_to_list.
  - intros [k v]. rewrite list_elem_of_filter, !elem_of_map_to_list.
    rewrite map_lookup_filter_Some. tauto.
Qed.

Lemma objectAlreadyValidated_run obj (vc : validationCache) :
  (vc !! newValidationKey obj = None -> objectAlreadyValidated obj vc = (false, vc)) /\
  (forall entry, vc !! newValidationKey obj = Some entry ->
     objectAlreadyValidated obj vc
     = if String.eqb (rversion entry) (GetResourceVersion obj) then (true, vc)
       else (false, delete (newValidationKey obj) vc)).
Proof.
  unfold objectAlreadyValidated, retrieve, remove, removeKey. split.
  - by intros ->.
  - intros entry ->. by destruct (String.eqb _ _).
Qed.

(** * The two reconcile paths in direct style *)

Lemma reconcile_run (w : World) (obj : Unstructured) (gr : GenericReconciler) :
  reconcile w obj gr =
  let live := store obj "" (currentObjects gr) in
  let '(validated, vc) := objectAlreadyValidated obj (objectValidationCache gr) in
  let gr1 := mkGenericReconciler (listLimit gr) (watchNamespaces gr) vc live (effects gr) in
  if validated then (None, gr1)
  else
    match unstructuredToTyped w obj with
    | Err err => (Some (ErrWrap "instantiating typed object" err), gr1)
    | Ok typedClientObject =>
        let gr2 := addEffect (RunValidationsCall (requestFor gr obj) typedClientObject) gr1 in
        match RunValidations w (requestFor gr obj) typedClientObject with
        | Err err => (Some (ErrWrap "running validations" err), gr2)
        | Ok outcome => (None, setObjectValidationCache (store obj outcome vc) gr2)
        end
    end.
Proof.
  destruct gr as [lim ns cache live effs].
  unfold reconcile, requestFor, resolveNamespaceUID. unfold_ops. cbn.
  destruct (objectAlreadyValidated obj cache) as [[] vc]; cbn; [done |].
  destruct (0 <? String.length (GetNamespace obj))%nat; cbn.
  - destruct ns; cbn;
      (destruct (unstructuredToTyped w obj); [| done]);
      by destruct (RunValidations w _ _).
  - destruct (unstructuredToTyped w obj); [| done].
    by destruct (RunValidations w _ _).
Qed.

Lemma collectNonValidated_run (objs nonValidatedObj : list Unstructured)
    (gr : GenericReconciler) :
  collectNonValidated objs nonValidatedObj gr =
  (nonValidatedObj ++ (pending objs (objectValidationCache gr)).1,
   mkGenericReconciler (listLimit gr) (watchNamespaces gr)
     (pending objs (objectValidationCache gr)).2
     (storeAll objs "" (currentObjects gr)) (effects gr)).
Proof.
  revert nonValidatedObj gr. induction objs as [|o objs IH]; intros acc gr; cbn.
  - rewrite app_nil_r. by destruct gr.
  - unfold_ops. cbn.
    destruct (objectAlreadyValidated o (objectValidationCache gr)) as [[] vc]; cbn;
      rewrite IH; cbn;
      destruct (pending objs vc) as [l vc']; cbn; [done |].
    by rewrite <- app_assoc.
Qed.

Lemma storeOutcomes_run (objs : list Unstructured) (o : ValidationOutcome)
    (gr : GenericReconciler) :
  storeOutcomes objs o gr =
  (tt, setObjectValidationCache (storeAll objs o (objectValidationCache gr)) gr).
Proof.
  revert gr. induction objs as [|obj objs IH]; intros gr; cbn.
  - by destruct gr.
  - unfold_ops. cbn. by rewrite IH.
Qed.

Lemma reconcileGroupOfObjects_run (w : World) (objs : list Unstructured)
    (namespace : string) (gr : GenericReconciler) :
  reconcileGroupOfObjects w objs namespace gr =
  let '(nonValidatedObj, vc) := pending objs (objectValidationCache gr) in
  let gr1 := mkGenericReconciler (listLimit gr) (watchNamespaces gr) vc
               (storeAll objs "" (currentObjects gr)) (effects gr) in
  match convertObjects w nonValidatedObj [] with
  | Err err => (Some err, gr1)
  | Ok cliObjects =>
      let namespaceUID := resolveNamespaceUID gr namespace in
      let gr2 := addEffect (RunValidationsForObjectsCall cliObjects namespaceUID) gr1 in
      match RunValidationsForObjects w cliObjects namespaceUID with
      | Err err => (Some (ErrWrap "running validations" err), gr2)
      | Ok outcome => (None, setObjectValidationCache (storeAll nonValidatedObj outcome vc) gr2)
      end
  end.
Proof.
  unfold reconcileGroupOfObjects.
  rewrite bind_unfold, collectNonValidated_run. cbn [fst snd app].
  rewrite bind_unfold, getNamespaceUID_run. cbn [fst snd].
  destruct (pending objs (objectValidationCache gr)) as [l vc]. cbn [fst snd].
  unfold resolveNamespaceUID at 1. cbn [watchNamespaces].
  destruct (convertObjects w l []) as [cli|err]; [| done].
  unfold_ops. cbn.
  fold (resolveNamespaceUID gr namespace).
  destruct (RunValidationsForObjects w cli _); [| done].
  by rewrite storeOutcomes_run.
Qed.

(** * From the two reconcile paths to the whole pass

    A relation between states that every run of the two reconcile paths
    respects is respected by the loops over pages, kinds and namespaces. *)

Section Lifting.

Context (w : World) (R : relation GenericReconciler) `{!PreOrder R}.
Context (P : Unstructured -> Prop).

Hypothesis served : forall gvk listOptions, Forall P (itemsOf (clientList w gvk listOptions)).
Hypothesis R_reconcile : forall obj, P obj -> respects R (reconcile w obj).
Hypothesis R_group : forall objs namespace,
  Forall (fun obj => P obj /\ labelled obj) objs ->
  respects R (reconcileGroupOfObjects w objs namespace).
Hypothesis R_list : forall gvk listOptions, respects R (call (ListCall gvk listOptions)).
Hypothesis R_namespaces : forall namespaces, respects R (setWatchNamespaces namespaces).

Lemma respects_reconcileItems items :
  Forall P items -> respects R (reconcileItems w items).
Proof.
  induction 1 as [|obj items Hobj _ IH]; cbn [reconcileItems].
  - by apply respects_ret.
  - apply respects_bind; [done | by apply R_reconcile |].
    intros [err|]; [by apply respects_ret | done].
Qed.

Lemma respects_paginatedListLoop gvk listOptions pages :
  Forall P (itemsOf pages) -> respects R (paginatedListLoop w gvk listOptions pages).
Proof.
  revert listOptions.
  induction pages as [err|items|items listContinue next IH]; intros listOptions Hitems;
    cbn [paginatedListLoop itemsOf] in *;
    (apply respects_bind; [done | apply R_list | intros _]).
  - by apply respects_ret.
  - by apply respects_reconcileItems.
  - apply Forall_app in Hitems as [Hitems Hnext].
    apply respects_bind; [done | by apply respects_reconcileItems |].
    intros [err|]; [by apply respects_ret |].
    destruct (String.eqb listContinue ""); [by apply respects_ret | by apply IH].
Qed.

Lemma respects_paginatedList gvk namespace : respects R (paginatedList w gvk namespace).
Proof.
  unfold paginatedList. apply respects_bind; [done | by apply respects_gets |].
  intros limit. apply respects_paginatedListLoop, served.
Qed.

Lemma respects_processClusterscopedResources gvk :
  respects R (processClusterscopedResources w gvk).
Proof.
  unfold processClusterscopedResources, processObjectInstances.
  apply respects_bind; [done | apply respects_paginatedList |].
  intros [err|]; by apply respects_ret.
Qed.

Lemma groupItems_served items relatedObjects :
  Forall P items -> groupsServed P relatedObjects ->
  groupsServed P (groupItems items relatedObjects).
Proof.
  intros Hitems. revert relatedObjects.
  induction Hitems as [|obj items Hobj _ IH]; intros relatedObjects Hgroups;
    cbn [groupItems]; [done |].
  destruct (getAppLabel obj) as [appLabel|] eqn:Hlabel; [| by apply IH].
  apply IH. apply map_Forall_insert_2; [| done].
  apply Forall_app. split.
  - unfold lookup_total, map_lookup_total.
    destruct (relatedObjects !! appLabel) as [objs|] eqn:Hobjs; cbn; [| done].
    by apply (Hgroups appLabel).
  - apply Forall_singleton. split; [done | by exists appLabel].
Qed.

Lemma groupPages_spec gvk listOptions pages relatedObjects gr :
  Forall P (itemsOf pages) -> groupsServed P relatedObjects ->
  R gr (groupPages gvk listOptions pages relatedObjects gr).2 /\
  resultServed P (groupPages gvk listOptions pages relatedObjects gr).1.
Proof.
  revert listOptions relatedObjects gr.
  induction pages as [err|items|items listContinue next IH];
    intros listOptions relatedObjects gr Hitems Hgroups;
    cbn [groupPages itemsOf] in *; rewrite bind_unfold; cbn [fst snd].
  - split; [apply R_list | done].
  - split; [apply R_list | by apply groupItems_served].
  - apply Forall_app in Hitems as [Hitems Hnext].
    destruct (String.eqb listContinue "").
    + split; [apply R_list | by apply groupItems_served].
    + edestruct (IH (setContinue listContinue listOptions)
                    (groupItems items relatedObjects)) as [HR Hres];
        [done | by apply groupItems_served |].
      split; [| exact Hres].
      etransitivity; [apply R_list | exact HR].
Qed.

Lemma groupKinds_spec namespace gvks relatedObjects gr :
  groupsServed P relatedObjects ->
  R gr (groupKinds w namespace gvks relatedObjects gr).2 /\
  resultServed P (groupKinds w namespace gvks relatedObjects gr).1.
Proof.
  revert relatedObjects gr.
  induction gvks as [|gvk gvks IH]; intros relatedObjects gr Hgroups; cbn [groupKinds].
  - split; [reflexivity | done].
  - rewrite bind_unfold. unfold gets. cbn [fst snd]. rewrite bind_unfold.
    match goal with |- context [groupPages gvk ?o ?p relatedObjects gr] =>
      destruct (groupPages_spec gvk o p relatedObjects gr) as [HR Hres];
        [apply served | done |];
      destruct (groupPages gvk o p relatedObjects gr) as [[related1|err] gr1]
    end; cbn [fst snd] in *.
    + destruct (IH related1 gr1 Hres) as [HR' Hres'].
      split; [by etransitivity | done].
    + done.
Qed.

Lemma groupAppObjects_spec namespace gvks gr :
  R gr (groupAppObjects w namespace gvks gr).2 /\
  resultServed P (groupAppObjects w namespace gvks gr).1.
Proof. apply groupKinds_spec. apply map_Forall_empty. Qed.

Lemma respects_reconcileGroups groups namespace :
  Forall (fun g => Forall (fun obj => P obj /\ labelled obj) g.2) groups ->
  respects R (reconcileGroups w groups namespace).
Proof.
  induction 1 as [|[label objs] groups Hobjs _ IH]; cbn [reconcileGroups].
  - by apply respects_ret.
  - apply respects_bind; [done | by apply R_group |].
    intros [err|]; [by apply respects_ret | done].
Qed.

Lemma respects_reconcileNamespaces namespaces gvks :
  respects R (reconcileNamespaces w namespaces gvks).
Proof.
  induction namespaces as [|ns namespaces IH]; cbn [reconcileNamespaces].
  - by apply respects_ret.
  - intros gr. rewrite bind_unfold.
    destruct (groupAppObjects_spec (nsName ns) gvks gr) as [HR Hres].
    destruct (groupAppObjects w (nsName ns) gvks gr) as [[relatedObjects|err] gr1];
      cbn [fst snd] in *; [| done].
    etransitivity; [exact HR |].
    apply respects_bind; [done | |].
    + apply respects_reconcileGroups.
      rewrite (rangeOrder_perm w). apply Forall_forall. intros [label objs] Hin.
      apply elem_of_map_to_list in Hin. by apply (Hres label).
    + intros [err|]; [by apply respects_ret | done].
Qed.

Lemma respects_getWatchNamespaces : respects R (getWatchNamespaces w).
Proof.
  unfold getWatchNamespaces. apply respects_bind; [done | by apply respects_gets |].
  intros [namespaces|]; [by apply respects_ret |].
  destruct (queryNamespaces w); [| by apply respects_ret].
  apply respects_bind; [done | apply R_namespaces | intros _; by apply respects_ret].
Qed.

Lemma respects_processNamespacedResources gvks :
  respects R (processNamespacedResources w gvks).
Proof.
  unfold processNamespacedResources.
  apply respects_bind; [done | apply respects_getWatchNamespaces |].
  intros [namespaces|err]; [apply respects_reconcileNamespaces | by apply respects_ret].
Qed.

Lemma respects_processResources resources finalErr namespacedResources :
  respects R (processResources w resources finalErr namespacedResources).
Proof.
  revert finalErr namespacedResources.
  induction resources as [|resource resources IH]; intros finalErr namespacedResources;
    cbn [processResources].
  - by apply respects_ret.
  - destruct (Namespaced resource); [apply IH |].
    apply respects_bind; [done | apply respects_processClusterscopedResources |].
    intros [err|]; apply IH.
Qed.

Lemma respects_processAllResources resources :
  respects R (processAllResources w resources).
Proof.
  unfold processAllResources.
  apply respects_bind; [done | apply respects_processResources |].
  intros [finalErr namespacedResources].
  apply respects_bind; [done | apply respects_processNamespacedResources |].
  intros [err|]; by apply respects_ret.
Qed.

End Lifting.

(** * The set of current objects during a pass *)

Lemma storeAll_snoc objs obj o vc :
  storeAll (objs ++ [obj]) o vc = store obj o (storeAll objs o vc).
Proof. unfold storeAll. by rewrite fold_left_app. Qed.

Lemma storeAll_lookup_other objs o vc k :
  k ∉ newValidationKey <$> objs -> storeAll objs o vc !! k = vc !! k.
Proof.
  induction objs as [|obj objs IH] using rev_ind; intros Hk; [done |].
  rewrite fmap_app in Hk. apply not_elem_of_app in Hk as [Hk Hobj].
  rewrite storeAll_snoc. unfold store.
  rewrite lookup_insert_ne; [by apply IH |].
  intros Heq. apply Hobj. rewrite <- Heq. apply list_elem_of_here.
Qed.

Lemma storeAll_lookup_is_Some objs o vc k :
  is_Some (vc !! k) \/ k ∈ newValidationKey <$> objs -> is_Some (storeAll objs o vc !! k).
Proof.
  induction objs as [|obj objs IH] using rev_ind; intros Hk.
  - destruct Hk as [Hk|Hk]; [done | by apply elem_of_nil in Hk].
  - rewrite storeAll_snoc. unfold store.
    destruct (decide (newValidationKey obj = k)) as [<-|Hne].
    + rewrite lookup_insert_eq. eauto.
    + rewrite lookup_insert_ne by done. apply IH.
      destruct Hk as [Hk|Hk]; [by left | right].
      rewrite fmap_app in Hk. apply elem_of_app in Hk as [Hk|Hk]; [done |].
      apply list_elem_of_singleton in Hk. congruence.
Qed.

#[local] Instance keepsCurrent_preorder : PreOrder keepsCurrent.
Proof. split; [by intros gr k | intros gr1 gr2 gr3 H12 H23 k Hk; auto]. Qed.

Lemma currentObjects_reconcile (w : World) obj gr :
  currentObjects (reconcile w obj gr).2 = store obj "" (currentObjects gr).
Proof.
  rewrite reconcile_run. cbv zeta.
  destruct (objectAlreadyValidated obj _) as [[] vc]; [done |].
  destruct (unstructuredToTyped w obj); [| done].
  by destruct (RunValidations w _ _).
Qed.

Lemma currentObjects_reconcileGroupOfObjects (w : World) objs namespace gr :
  currentObjects (reconcileGroupOfObjects w objs namespace gr).2
  = storeAll objs "" (currentObjects gr).
Proof.
  rewrite reconcileGroupOfObjects_run. cbv zeta.
  destruct (pending objs _) as [l vc].
  destruct (convertObjects w l []); [| done].
  by destruct (RunValidationsForObjects w _ _).
Qed.

Lemma keepsCurrent_processAllResources (w : World) resources :
  respects keepsCurrent (processAllResources w resources).
Proof.
  apply (respects_processAllResources w keepsCurrent (fun _ => True)).
  - intros gvk listOptions. by apply Forall_true.
  - intros obj _ gr k Hk. rewrite currentObjects_reconcile. unfold store.
    destruct (decide (newValidationKey obj = k)) as [<-|Hne].
    + rewrite lookup_insert_eq. eauto.
    + by rewrite lookup_insert_ne.
  - intros objs namespace _ gr k Hk. rewrite currentObjects_reconcileGroupOfObjects.
    apply storeAll_lookup_is_Some. by left.
  - by intros gvk listOptions gr k Hk.
  - by intros namespaces gr k Hk.
Qed.

(** C10. Both reconcile paths record every object they are given in the set
    of current objects, whatever the check, the conversion and the validation
    of the object come to, errors included; an identity recorded stays
    recorded while the kinds and namespaces of the pass are processed; and
    the deletion-reclaim phase neither removes the cache entry of a recorded
    identity nor sends a deletion signal for it. *)
Theorem observed_objects_are_not_reclaimed (w : World) (gr : GenericReconciler) :
  (forall obj,
     currentObjects (reconcile w obj gr).2 !! newValidationKey obj
     = Some (newValidationResource (GetResourceVersion obj) (GetUID obj) "")) /\
  (forall objs namespace,
     Forall (fun obj => is_Some (currentObjects (reconcileGroupOfObjects w objs namespace gr).2
                                 !! newValidationKey obj)) objs) /\
  (forall resources k,
     is_Some (currentObjects gr !! k) ->
     is_Some (currentObjects (processAllResources w resources gr).2 !! k)) /\
  (forall k,
     is_Some (currentObjects gr !! k) ->
     objectValidationCache (handleResourceDeletions w gr).2 !! k
     = objectValidationCache gr !! k /\
     exists stale,
       effects (handleResourceDeletions w gr).2 = effects gr ++ (deletionSignal gr <$> stale) /\
       k ∉ stale.*1).
Proof.
  split; [| split; [| split]].
  - intros obj. rewrite currentObjects_reconcile. unfold store.
    by rewrite lookup_insert_eq.
  - intros objs namespace. apply Forall_forall. intros obj Hobj.
    rewrite currentObjects_reconcileGroupOfObjects.
    apply storeAll_lookup_is_Some. right. by apply list_elem_of_fmap_2.
  - intros resources k. apply keepsCurrent_processAllResources.
  - intros k [entry Hlive].
    destruct (handleResourceDeletions_run w gr) as (_ & _ & _ & Heff & ->).
    cbv zeta in Heff. split.
    + rewrite map_lookup_filter. destruct (objectValidationCache gr !! k); [| done].
      cbn. rewrite option_guard_True; [done |]. cbn. by rewrite Hlive.
    + eexists. split; [exact Heff |].
      intros Hin. apply list_elem_of_fmap in Hin as ([k' v] & -> & Hin).
      apply list_elem_of_filter in Hin as [Hgone _]. unfold gone in Hgone.
      cbn in *. congruence.
Qed.

Lemma observed_objects_are_not_reclaimed_witness :
  is_Some (reconcile Example.unregistered (Example.node "n1" "1") Example.start).1 /\
  currentObjects (reconcile Example.unregistered (Example.node "n1" "1") Example.start).2
    !! newValidationKey (Example.node "n1" "1")
  = Some (newValidationResource "1" "uid-n1" "") /\
  objectValidationCache
    (handleResourceDeletions Example.unregistered
       (reconcile Example.unregistered (Example.node "n1" "1")
          (setObjectValidationCache (store (Example.node "n1" "0") "valid" ∅)
             Example.start)).2).2
    !! newValidationKey (Example.node "n1" "1")
  = objectValidationCache
      (reconcile Example.unregistered (Example.node "n1" "1")
         (setObjectValidationCache (store (Example.node "n1" "0") "valid" ∅)
            Example.start)).2
      !! newValidationKey (Example.node "n1" "1").
Proof.
  split; [vm_compute; eauto |]. split.
  - apply (proj1 (observed_objects_are_not_reclaimed Example.unregistered Example.start)).
  - apply (proj2 (proj2 (proj2 (observed_objects_are_not_reclaimed Example.unregistered
             (reconcile Example.unregistered (Example.node "n1" "1")
                (setObjectValidationCache (store (Example.node "n1" "0") "valid" ∅)
                   Example.start)).2)))).
    vm_compute. eauto.
Defined.

(** * One pass *)

Lemma reconcileEverything_run (w : World) (gr : GenericReconciler) :
  reconcileEverything w gr =
  match reconcileResourceList w with
  | Err err => (Some (ErrWrap "retrieving resources to reconcile" err), gr)
  | Ok apiResources =>
      let r := processAllResources w apiResources (setWatchNamespacesOf None gr) in
      match r.1 with
      | Some err => (Some (ErrWrap "processing all resources" err), r.2)
      | None => (None, (handleResourceDeletions w r.2).2)
      end
  end.
Proof.
  unfold reconcileEverything. destruct (reconcileResourceList w) as [apiResources|err]; [| done].
  rewrite bind_unfold. unfold resetCache, setWatchNamespaces at 1. cbn [fst snd].
  rewrite bind_unfold. cbv zeta.
  destruct (processAllResources w apiResources _) as [[err|] gr1]; cbn [fst snd]; [done |].
  rewrite bind_unfold. by destruct (handleResourceDeletions w gr1) as [[] gr2].
Qed.

(** C2 as the specification states it does not hold: when listing the volumes
    fails, the pass returns an error and the node it has seen is still in the
    set of current objects at its end. *)
Lemma failed_pass_leaves_current_objects :
  is_Some (reconcileEverything Example.volumesDown Example.start).1 /\
  currentObjects (reconcileEverything Example.volumesDown Example.start).2
    !! newValidationKey (Example.node "n1" "1")
  = Some (newValidationResource "1" "uid-n1" "").
Proof. split; [vm_compute; eauto | vm_compute; reflexivity]. Qed.

(** * A group of objects that have no cache entry *)

Lemma unstructuredToTyped_Ok (w : World) obj typedClientObject :
  unstructuredToTyped w obj = Ok typedClientObject -> typedClientObject = obj.
Proof.
  unfold unstructuredToTyped. destruct (lookUpType w obj); [| done].
  destruct (FromUnstructured w obj); [done |]. congruence.
Qed.

Lemma pending_uncached objs (vc : validationCache) :
  Forall (fun obj => vc !! newValidationKey obj = None) objs ->
  pending objs vc = (objs, vc).
Proof.
  induction 1 as [|obj objs Hobj _ IH]; cbn [pending]; [done |].
  rewrite (proj1 (objectAlreadyValidated_run obj vc)) by done.
  by rewrite IH.
Qed.

Lemma convertObjects_all (w : World) objs cliObjects :
  Forall (fun obj => exists typedClientObject, unstructuredToTyped w obj = Ok typedClientObject)
    objs ->
  convertObjects w objs cliObjects = Ok (cliObjects ++ objs).
Proof.
  intros Hobjs. revert cliObjects.
  induction Hobjs as [|obj objs [typed Hobj] _ IH]; intros cliObjects; cbn [convertObjects].
  - by rewrite app_nil_r.
  - rewrite Hobj, IH, <- app_assoc. by rewrite (unstructuredToTyped_Ok _ _ _ Hobj).
Qed.

Lemma storeAll_lookup_own objs o vc obj :
  NoDup (newValidationKey <$> objs) -> obj ∈ objs ->
  storeAll objs o vc !! newValidationKey obj
  = Some (newValidationResource (GetResourceVersion obj) (GetUID obj) o).
Proof.
  induction objs as [|obj' objs IH] using rev_ind; intros Hnodup Hin.
  - by apply elem_of_nil in Hin.
  - rewrite fmap_app in Hnodup. apply NoDup_app in Hnodup as (Hnodup & Hfresh & _).
    rewrite storeAll_snoc. unfold store.
    apply elem_of_app in Hin as [Hin|Hin].
    + rewrite lookup_insert_ne; [by apply IH |].
      intros Heq. apply (Hfresh (newValidationKey obj)).
      * by apply list_elem_of_fmap_2.
      * rewrite <- Heq. apply list_elem_of_here.
    + apply list_elem_of_singleton in Hin as ->. by rewrite lookup_insert_eq.
Qed.

Lemma storeAll_size objs o (vc : validationCache) :
  NoDup (newValidationKey <$> objs) ->
  Forall (fun obj => vc !! newValidationKey obj = None) objs ->
  size (storeAll objs o vc) = size vc + length objs.
Proof.
  induction objs as [|obj objs IH] using rev_ind; intros Hnodup Hnew.
  - cbn. lia.
  - rewrite fmap_app in Hnodup. apply NoDup_app in Hnodup as (Hnodup & Hfresh & _).
    apply Forall_app in Hnew as [Hnew Hobj]. rewrite Forall_singleton in Hobj.
    rewrite storeAll_snoc. unfold store.
    rewrite map_size_insert_None.
    + rewrite IH by done. rewrite length_app. cbn. lia.
    + rewrite storeAll_lookup_other; [done |].
      intros Hin. apply (Hfresh _ Hin), list_elem_of_here.
Qed.

Lemma convertObjects_fails (w : World) pre obj post err cliObjects :
  Forall (fun o => exists typedClientObject, unstructuredToTyped w o = Ok typedClientObject)
    pre ->
  unstructuredToTyped w obj = Err err ->
  convertObjects w (pre ++ obj :: post) cliObjects
  = Err (ErrWrap "instantiating typed object" err).
Proof.
  intros Hpre Hobj. revert cliObjects.
  induction Hpre as [|o pre [typed Ho] _ IH]; intros cliObjects; cbn [convertObjects app].
  - by rewrite Hobj.
  - by rewrite Ho, IH.
Qed.

(** C5, amended to what the code does. For a group of k objects of pairwise
    distinct identities, none of which has a cache entry: when all of them
    convert to their typed form, reconciling the group makes exactly one call
    of the batch validation, with the k objects and the identifier the
    namespace resolves to; and when that call returns an outcome, the group
    reconcile returns no error and the cache has k entries more, one for each
    object under its own identity, with its own revision and owner identifier
    and the one outcome, and is otherwise as before.  When the type lookup or
    the conversion of an object of the group fails, whichever object of
    whichever such group it is, the group reconcile returns the error of the
    first object that fails, wrapped, the batch validation is not called, no
    other external call is made either, and nothing is stored in the cache;
    the objects of the group are in the set of current objects all the
    same. *)
Theorem group_of_uncached_objects_is_validated_once (w : World)
    (objs : list Unstructured) (namespace : string) (gr : GenericReconciler) :
  NoDup (newValidationKey <$> objs) ->
  Forall (fun obj => objectValidationCache gr !! newValidationKey obj = None) objs ->
  let run := reconcileGroupOfObjects w objs namespace gr in
  let namespaceUID := resolveNamespaceUID gr namespace in
  (Forall (fun obj => exists typedClientObject, unstructuredToTyped w obj = Ok typedClientObject)
     objs ->
   effects run.2 = effects gr ++ [RunValidationsForObjectsCall objs namespaceUID] /\
   forall outcome,
     RunValidationsForObjects w objs namespaceUID = Ok outcome ->
     run.1 = None /\
     size (objectValidationCache run.2) = size (objectValidationCache gr) + length objs /\
     Forall (fun obj =>
               objectValidationCache run.2 !! newValidationKey obj
               = Some (newValidationResource (GetResourceVersion obj) (GetUID obj) outcome))
       objs /\
     forall k, k ∉ newValidationKey <$> objs ->
               objectValidationCache run.2 !! k = objectValidationCache gr !! k) /\
  (forall pre obj post err,
     objs = pre ++ obj :: post ->
     Forall (fun o => exists typedClientObject, unstructuredToTyped w o = Ok typedClientObject)
       pre ->
     unstructuredToTyped w obj = Err err ->
     run.1 = Some (ErrWrap "instantiating typed object" err) /\
     effects run.2 = effects gr /\
     objectValidationCache run.2 = objectValidationCache gr /\
     currentObjects run.2 = storeAll objs "" (currentObjects gr)).
Proof.
  intros Hnodup Hnew. cbv zeta.
  rewrite reconcileGroupOfObjects_run, pending_uncached by done. cbv zeta. split.
  - intros Htyped. rewrite convertObjects_all by done. cbn [app].
    destruct (RunValidationsForObjects w objs (resolveNamespaceUID gr namespace))
      as [outcome|err]; cbn [fst snd]; (split; [done |]); intros outcome' Hrun; [| done].
    injection Hrun as <-. cbn. repeat split.
    + by apply storeAll_size.
    + apply Forall_forall. intros obj Hobj. by apply storeAll_lookup_own.
    + intros k Hk. by apply storeAll_lookup_other.
  - intros pre obj post err -> Hpre Hobj.
    by rewrite (convertObjects_fails w pre obj post err [] Hpre Hobj).
Qed.

Lemma group_of_uncached_objects_is_validated_once_witness :
  (effects (reconcileGroupOfObjects Example.healthy Example.appA "ns1" Example.watching).2
   = [RunValidationsForObjectsCall Example.appA "nsuid1"] /\
   (reconcileGroupOfObjects Example.healthy Example.appA "ns1" Example.watching).1 = None /\
   size (objectValidationCache
           (reconcileGroupOfObjects Example.healthy Example.appA "ns1" Example.watching).2)
   = 2) /\
  is_Some (reconcileGroupOfObjects Example.unregistered Example.appA "ns1"
             Example.watching).1 /\
  effects (reconcileGroupOfObjects Example.unregistered Example.appA "ns1"
             Example.watching).2 = [] /\
  objectValidationCache
    (reconcileGroupOfObjects Example.unregistered Example.appA "ns1" Example.watching).2 = ∅.
Proof.
  split.
  - destruct (group_of_uncached_objects_is_validated_once
                Example.healthy Example.appA "ns1" Example.watching) as [Hconverted _].
    + apply (bool_decide_unpack _). vm_compute. exact I.
    + repeat apply Forall_cons_2; try apply Forall_nil_2; reflexivity.
    + destruct Hconverted as [Hcall Hstored].
      { repeat apply Forall_cons_2; try apply Forall_nil_2; eexists; vm_compute;
          reflexivity. }
      destruct (Hstored "valid"%string) as (Hnone & Hsize & _); [reflexivity |].
      split; [exact Hcall | split; [exact Hnone | exact Hsize]].
  - destruct (group_of_uncached_objects_is_validated_once
                Example.unregistered Example.appA "ns1" Example.watching) as [_ Hfails].
    + apply (bool_decide_unpack _). vm_compute. exact I.
    + repeat apply Forall_cons_2; try apply Forall_nil_2; reflexivity.
    + destruct (Hfails [] (Example.pod "p1" "1" (Example.withLabel "a"))
                  [Example.pod "p3" "7" (Example.withSelector "a")]
                  (ErrWrap "looking up object type"
                     (ErrWrap ("creating new object of type "
                               ++ gvkString Example.podGVK)%string
                        (ErrExternal "no kind is registered"))))
        as (Hresult & Heffects & Hcache & _).
      * reflexivity.
      * apply Forall_nil_2.
      * vm_compute. reflexivity.
      * split; [rewrite Hresult; eauto | split; [exact Heffects | exact Hcache]].
Defined.

(** C5 as the specification states it does not hold: a pod without a cache
    entry whose kind the scheme does not have makes the group reconcile return
    an error before the batch validation is called at all. *)
Lemma group_with_unconvertible_object_is_not_validated :
  objectValidationCache Example.watching
    !! newValidationKey (Example.pod "p1" "1" (Example.withLabel "a")) = None /\
  is_Some (reconcileGroupOfObjects Example.unregistered
             [Example.pod "p1" "1" (Example.withLabel "a")] "ns1" Example.watching).1 /\
  effects (reconcileGroupOfObjects Example.unregistered
             [Example.pod "p1" "1" (Example.withLabel "a")] "ns1" Example.watching).2 = [].
Proof. split; [reflexivity | split; [vm_compute; eauto | vm_compute; reflexivity]]. Qed.

(** * Listing page by page *)

Lemma outcomeOf_eq (gr1 gr2 : GenericReconciler) :
  outcomeOf gr1 = outcomeOf gr2 <->
  listLimit gr1 = listLimit gr2 /\
  watchNamespaces gr1 = watchNamespaces gr2 /\
  objectValidationCache gr1 = objectValidationCache gr2 /\
  currentObjects gr1 = currentObjects gr2 /\
  List.filter (fun e => negb (isListCall e)) (effects gr1)
  = List.filter (fun e => negb (isListCall e)) (effects gr2).
Proof.
  unfold outcomeOf. split.
  - intros H. by injection H.
  - by intros (-> & -> & -> & -> & ->).
Qed.

Lemma outcomeOf_list_call gvk listOptions gr :
  outcomeOf (call (ListCall gvk listOptions) gr).2 = outcomeOf gr.
Proof.
  apply outcomeOf_eq. cbn. repeat split.
  rewrite List.filter_app. cbn. by rewrite app_nil_r.
Qed.






#[local] Instance sameRequests_preorder : PreOrder sameRequests.
Proof.
  split; [by intros gr | intros gr1 gr2 gr3 H12 H23; unfold sameRequests in *; congruence].
Qed.






(** * The watched namespaces, one after the other *)

Lemma reconcileNamespaces_app (w : World) pre post gvks gr :
  reconcileNamespaces w (pre ++ post) gvks gr =
  match (reconcileNamespaces w pre gvks gr).1 with
  | Some err => reconcileNamespaces w pre gvks gr
  | None => reconcileNamespaces w post gvks (reconcileNamespaces w pre gvks gr).2
  end.
Proof.
  revert gr. induction pre as [|ns pre IH]; intros gr; cbn [reconcileNamespaces app]; [done |].
  rewrite !bind_unfold.
  destruct (groupAppObjects w (nsName ns) gvks gr) as [[relatedObjects|err] gr1];
    cbn [fst snd]; [| done].
  rewrite !bind_unfold.
  destruct (reconcileGroups w _ (nsName ns) gr1) as [[err|] gr2]; cbn [fst snd]; [done |].
  apply IH.
Qed.



(** * Objects without an app label *)

Lemma groupItems_labelledOnly items (relatedObjects : gmap string (list Unstructured)) :
  groupItems (List.filter hasAppLabel items) relatedObjects
  = groupItems items relatedObjects.
Proof.
  revert relatedObjects. induction items as [|obj items IH]; intros relatedObjects;
    cbn [groupItems List.filter]; [done |].
  unfold hasAppLabel at 1.
  destruct (getAppLabel obj) as [appLabel|err] eqn:Hlabel; cbn [groupItems]; [| by apply IH].
  by rewrite Hlabel, IH.
Qed.

Lemma groupPages_labelledOnly gvk listOptions pages relatedObjects gr :
  groupPages gvk listOptions (labelledOnly pages) relatedObjects gr
  = groupPages gvk listOptions pages relatedObjects gr.
Proof.
  revert listOptions relatedObjects gr.
  induction pages as [err|items|items listContinue next IH];
    intros listOptions relatedObjects gr; cbn [groupPages labelledOnly]; [done | |];
    rewrite !bind_unfold, groupItems_labelledOnly; [done |].
  destruct (String.eqb listContinue ""); [done | apply IH].
Qed.

Lemma groupKinds_withoutUnlabelled (w : World) namespace gvks relatedObjects gr :
  groupKinds (withoutUnlabelled w) namespace gvks relatedObjects gr
  = groupKinds w namespace gvks relatedObjects gr.
Proof.
  revert relatedObjects gr. induction gvks as [|gvk gvks IH]; intros relatedObjects gr;
    cbn [groupKinds]; [done |].
  rewrite !bind_unfold. unfold gets. cbn [fst snd clientList withoutUnlabelled].
  rewrite ?bind_unfold, groupPages_labelledOnly.
  destruct (groupPages _ _ _ _ _) as [[related|err] gr1]; cbn [fst snd]; [apply IH | done].
Qed.

Lemma reconcileGroups_withoutUnlabelled (w : World) groups namespace gr :
  reconcileGroups (withoutUnlabelled w) groups namespace gr
  = reconcileGroups w groups namespace gr.
Proof.
  revert gr. induction groups as [|[label objs] groups IH]; intros gr;
    cbn [reconcileGroups]; [done |].
  rewrite !bind_unfold.
  change (reconcileGroupOfObjects (withoutUnlabelled w) objs namespace gr)
    with (reconcileGroupOfObjects w objs namespace gr).
  destruct (reconcileGroupOfObjects w objs namespace gr) as [[err|] gr1]; cbn [fst snd];
    [done | apply IH].
Qed.

Lemma reconcileNamespaces_withoutUnlabelled (w : World) namespaces gvks gr :
  reconcileNamespaces (withoutUnlabelled w) namespaces gvks gr
  = reconcileNamespaces w namespaces gvks gr.
Proof.
  revert gr. induction namespaces as [|ns namespaces IH]; intros gr;
    cbn [reconcileNamespaces]; [done |].
  rewrite !bind_unfold. unfold groupAppObjects. rewrite groupKinds_withoutUnlabelled.
  destruct (groupKinds w (nsName ns) gvks ∅ gr) as [[related|err] gr1]; cbn [fst snd]; [| done].
  rewrite ?bind_unfold. cbn [rangeOrder withoutUnlabelled].
  rewrite reconcileGroups_withoutUnlabelled.
  destruct (reconcileGroups w _ (nsName ns) gr1) as [[err|] gr2]; cbn [fst snd];
    [done | apply IH].
Qed.

#[local] Instance leavesOut_preorder w obj : PreOrder (leavesOut w obj).
Proof.
  split.
  - intros gr. split; [| by left]. exists []. by rewrite app_nil_r.
  - intros gr1 gr2 gr3 [(new1 & Heff1 & Hnew1) Hlive1] [(new2 & Heff2 & Hnew2) Hlive2]. split.
    + exists (new1 ++ new2). rewrite Heff2, Heff1, app_assoc. split; [done |].
      by apply Forall_app.
    + intros k Hk. destruct (Hlive2 k Hk) as [Hk2|Hk2]; [by apply Hlive1 | by right].
Qed.

Lemma pending_subseteq objs (vc : validationCache) : (pending objs vc).1 ⊆ objs.
Proof.
  revert vc. induction objs as [|obj objs IH]; intros vc; cbn [pending]; [done |].
  destruct (objectAlreadyValidated obj vc) as [validated vc1].
  specialize (IH vc1). destruct (pending objs vc1) as [l vc2]. cbn [fst] in *.
  destruct validated; intros x Hx.
  - apply list_elem_of_further. by apply IH.
  - apply elem_of_cons in Hx as [->|Hx]; [apply list_elem_of_here |].
    apply list_elem_of_further. by apply IH.
Qed.

Lemma convertObjects_Ok (w : World) objs cliObjects converted :
  convertObjects w objs cliObjects = Ok converted -> converted = cliObjects ++ objs.
Proof.
  revert cliObjects. induction objs as [|obj objs IH]; intros cliObjects; cbn [convertObjects].
  - intros [= <-]. by rewrite app_nil_r.
  - destruct (unstructuredToTyped w obj) as [typed|] eqn:Hobj; [| done].
    apply unstructuredToTyped_Ok in Hobj as ->.
    intros ->%IH. by rewrite <- app_assoc.
Qed.

Lemma storeAll_lookup_inv objs o (vc : validationCache) k :
  is_Some (storeAll objs o vc !! k) ->
  is_Some (vc !! k) \/ k ∈ newValidationKey <$> objs.
Proof.
  intros Hk. destruct (decide (k ∈ newValidationKey <$> objs)) as [|Hnotin]; [by right | left].
  by rewrite storeAll_lookup_other in Hk.
Qed.

Lemma leavesOut_reconcileGroupOfObjects (w : World) obj objs namespace :
  ~ labelled obj ->
  Forall (fun o => servedBy w o /\ labelled o) objs ->
  respects (leavesOut w obj) (reconcileGroupOfObjects w objs namespace).
Proof.
  intros Hobj Hobjs gr. split.
  - rewrite reconcileGroupOfObjects_run.
    pose proof (pending_subseteq objs (objectValidationCache gr)) as Hsub.
    destruct (pending objs _) as [l vc]. cbn [fst] in Hsub. cbv zeta.
    destruct (convertObjects w l []) as [cli|err] eqn:Hcli.
    2:{ exists []. by rewrite app_nil_r. }
    apply convertObjects_Ok in Hcli as ->. cbn [app].
    exists [RunValidationsForObjectsCall l (resolveNamespaceUID gr namespace)]. split.
    + by destruct (RunValidationsForObjects w l _).
    + apply Forall_singleton. cbn. intros Hin. apply Hobj.
      rewrite Forall_forall in Hobjs. by apply (Hobjs obj), Hsub.
  - intros k Hk. rewrite currentObjects_reconcileGroupOfObjects in Hk.
    apply storeAll_lookup_inv in Hk as [Hk|Hk]; [by left | right].
    apply list_elem_of_fmap in Hk as (o & -> & Ho).
    rewrite Forall_forall in Hobjs. destruct (Hobjs o Ho) as [Hserved Hlabelled].
    by exists o.
Qed.

Lemma leavesOut_processNamespacedResources (w : World) obj gvks :
  ~ labelled obj ->
  respects (leavesOut w obj) (processNamespacedResources w gvks).
Proof.
  intros Hobj.
  apply (respects_processNamespacedResources w (leavesOut w obj) (servedBy w)).
  - intros gvk listOptions. apply Forall_forall. intros o Ho. by exists gvk, listOptions.
  - intros objs namespace Hobjs. by apply leavesOut_reconcileGroupOfObjects.
  - intros gvk listOptions gr. split; [| by left].
    exists [ListCall gvk listOptions]. split; [done |]. apply Forall_singleton. by intros [].
  - intros namespaces gr. split; [| by left]. exists []. by rewrite app_nil_r.
Qed.

(** C9. An object whose app label is read neither from its metadata labels
    nor from its selector takes no part in the processing of the namespaced
    kinds: the processing returns the same error or none, and leaves the same
    state, as if the object had not been served; the object is never handed
    to the validation engine; and an identity enters the set of current
    objects only as the identity of a served object that has an app label. *)
Theorem unlabelled_object_is_left_out (w : World) (gvks : list GroupVersionKind)
    (gr : GenericReconciler) (obj : Unstructured) :
  ~ labelled obj ->
  let run := processNamespacedResources w gvks gr in
  run = processNamespacedResources (withoutUnlabelled w) gvks gr /\
  (exists new, effects run.2 = effects gr ++ new /\
               Forall (fun e => ~ evaluatesObject obj e) new) /\
  (forall k, is_Some (currentObjects run.2 !! k) ->
             is_Some (currentObjects gr !! k) \/
             exists o, servedBy w o /\ labelled o /\ newValidationKey o = k).
Proof.
  intros Hobj. cbv zeta. split.
  - unfold processNamespacedResources. rewrite !bind_unfold.
    change (getWatchNamespaces (withoutUnlabelled w) gr) with (getWatchNamespaces w gr).
    destruct (getWatchNamespaces w gr) as [[namespaces|err] gr1]; cbn [fst snd]; [| done].
    by rewrite reconcileNamespaces_withoutUnlabelled.
  - by apply leavesOut_processNamespacedResources.
Qed.

Lemma unlabelled_object_is_left_out_witness :
  processNamespacedResources Example.healthy [Example.podGVK] Example.start
  = processNamespacedResources (withoutUnlabelled Example.healthy) [Example.podGVK]
      Example.start /\
  exists new,
    effects (processNamespacedResources Example.healthy [Example.podGVK] Example.start).2
    = effects Example.start ++ new /\
    Forall (fun e => ~ evaluatesObject (Example.pod "p2" "1" (VMap [])) e) new.
Proof.
  destruct (unlabelled_object_is_left_out Example.healthy [Example.podGVK] Example.start
              (Example.pod "p2" "1" (VMap []))) as (Hsame & Hnew & _).
  - intros [appLabel Hlabel]. vm_compute in Hlabel. discriminate Hlabel.
  - split; [exact Hsame | exact Hnew].
Defined.

(** * The cluster-scoped kinds, one after the other *)

#[local] Instance extends_preorder : PreOrder extends.
Proof.
  split.
  - intros gr. split; [done |]. exists []. by rewrite app_nil_r.
  - intros gr1 gr2 gr3 [Hlim1 [new1 Heff1]] [Hlim2 [new2 Heff2]]. split; [congruence |].
    exists (new1 ++ new2). by rewrite Heff2, Heff1, app_assoc.
Qed.

Lemma extends_reconcile (w : World) obj : respects extends (reconcile w obj).
Proof.
  intros gr. rewrite reconcile_run. cbv zeta.
  destruct (objectAlreadyValidated obj _) as [[] vc].
  { split; [done |]. exists []. by rewrite app_nil_r. }
  destruct (unstructuredToTyped w obj) as [typed|err].
  2:{ split; [done |]. exists []. by rewrite app_nil_r. }
  destruct (RunValidations w _ _); (split; [done |]); by eexists.
Qed.

Lemma extends_reconcileGroupOfObjects (w : World) objs namespace :
  respects extends (reconcileGroupOfObjects w objs namespace).
Proof.
  intros gr. rewrite reconcileGroupOfObjects_run.
  destruct (pending objs _) as [l vc]. cbv zeta.
  destruct (convertObjects w l []) as [cli|err].
  2:{ split; [done |]. exists []. by rewrite app_nil_r. }
  destruct (RunValidationsForObjects w _ _); (split; [done |]); by eexists.
Qed.

Lemma extends_call e : respects extends (call e).
Proof. intros gr. split; [done |]. by eexists. Qed.

Lemma extends_setWatchNamespaces namespaces : respects extends (setWatchNamespaces namespaces).
Proof. intros gr. split; [done |]. exists []. by rewrite app_nil_r. Qed.

(** Every paginated list begins with the request for the first page. *)
Lemma paginatedList_first_call (w : World) gvk namespace gr :
  listLimit (paginatedList w gvk namespace gr).2 = listLimit gr /\
  exists rest,
    effects (paginatedList w gvk namespace gr).2
    = effects gr ++ ListCall gvk {| Limit := listLimit gr; Namespace := namespace;
                                    Continue := "" |} :: rest.
Proof.
  unfold paginatedList. rewrite bind_unfold. unfold gets. cbn [fst snd].
  set (listOptions := {| Limit := listLimit gr; Namespace := namespace; Continue := "" |}).
  assert (Hrest : forall (m : M (option error)) gr0, respects extends m ->
            listLimit (m (call (ListCall gvk listOptions) gr0).2).2 = listLimit gr0 /\
            exists rest, effects (m (call (ListCall gvk listOptions) gr0).2).2
                         = effects gr0 ++ ListCall gvk listOptions :: rest).
  { intros m gr0 Hm. destruct (Hm (call (ListCall gvk listOptions) gr0).2) as [Hlim [new Heff]].
    split; [by rewrite Hlim |]. exists new. rewrite Heff. cbn. by rewrite <- app_assoc. }
  assert (Hitems : forall items, respects extends (reconcileItems w items)).
  { intros items. apply (respects_reconcileItems w extends (fun _ => True));
      [intros; apply extends_reconcile | by apply Forall_true]. }
  destruct (clientList w gvk listOptions) as [err|items|items listContinue next];
    cbn [paginatedListLoop]; rewrite bind_unfold; apply Hrest.
  - apply respects_ret, _.
  - apply Hitems.
  - apply respects_bind; [apply _ | apply Hitems |].
    intros [err|]; [apply respects_ret, _ |].
    destruct (String.eqb listContinue ""); [apply respects_ret, _ |].
    apply (respects_paginatedListLoop w extends (fun _ => True));
      [intros; apply extends_reconcile | intros; apply extends_call | by apply Forall_true].
Qed.

Lemma processClusterscopedResources_first_call (w : World) gvk gr :
  listLimit (processClusterscopedResources w gvk gr).2 = listLimit gr /\
  exists rest,
    effects (processClusterscopedResources w gvk gr).2
    = effects gr ++ ListCall (listKindOf gvk) {| Limit := listLimit gr; Namespace := "";
                                                 Continue := "" |} :: rest.
Proof.
  unfold processClusterscopedResources, processObjectInstances. rewrite bind_unfold.
  fold (listKindOf gvk).
  destruct (paginatedList_first_call w (listKindOf gvk) "" gr) as [Hlim Heff].
  by destruct (paginatedList w (listKindOf gvk) "" gr) as [[err|] gr1].
Qed.

Lemma processResources_attempts (w : World) resources finalErr namespacedResources gr :
  listLimit (processResources w resources finalErr namespacedResources gr).2 = listLimit gr /\
  exists new,
    effects (processResources w resources finalErr namespacedResources gr).2
    = effects gr ++ new /\
    forall resource, resource ∈ resources -> Namespaced resource = false ->
      ListCall (listKindOf (gvkFromMetav1APIResource resource))
        {| Limit := listLimit gr; Namespace := ""; Continue := "" |} ∈ new.
Proof.
  revert finalErr namespacedResources gr.
  induction resources as [|resource resources IH]; intros finalErr namespacedResources gr;
    cbn [processResources].
  - split; [done |]. exists []. rewrite app_nil_r. split; [done |].
    intros resource Hin. by apply elem_of_nil in Hin.
  - destruct (Namespaced resource) eqn:Hscope.
    + destruct (IH finalErr (namespacedResources ++ [gvkFromMetav1APIResource resource]) gr)
        as [Hlim (new & Heff & Hnew)].
      split; [done |]. exists new. split; [done |].
      intros resource' [->|Hin]%elem_of_cons Hscope'; [congruence | by apply Hnew].
    + rewrite bind_unfold.
      destruct (processClusterscopedResources_first_call w
                  (gvkFromMetav1APIResource resource) gr) as [Hlim1 [rest Heff1]].
      destruct (processClusterscopedResources w _ gr) as [err gr1]. cbn [fst snd] in *.
      assert (Hnext : forall fe,
        listLimit (processResources w resources fe namespacedResources gr1).2 = listLimit gr /\
        exists new,
          effects (processResources w resources fe namespacedResources gr1).2
          = effects gr ++ new /\
          forall resource', resource' ∈ resource :: resources -> Namespaced resource' = false ->
            ListCall (listKindOf (gvkFromMetav1APIResource resource'))
              {| Limit := listLimit gr; Namespace := ""; Continue := "" |} ∈ new).
      { intros fe. destruct (IH fe namespacedResources gr1) as [Hlim (new & Heff & Hnew)].
        split; [congruence |].
        exists ((ListCall (listKindOf (gvkFromMetav1APIResource resource))
                   {| Limit := listLimit gr; Namespace := ""; Continue := "" |} :: rest)
                ++ new).
        split; [by rewrite Heff, Heff1, app_assoc |].
        intros resource' [->|Hin]%elem_of_cons Hscope'; apply elem_of_app.
        - left. apply list_elem_of_here.
        - right. rewrite <- Hlim1. by apply Hnew. }
      destruct err; apply Hnext.
Qed.

Lemma multierr_Errors_append finalErr msg err :
  multierr_Errors (multierr_Append finalErr (Some (ErrWrap msg err)))
  = multierr_Errors finalErr ++ [ErrWrap msg err].
Proof. by destruct finalErr. Qed.

Lemma processResources_errors (w : World) resources finalErr namespacedResources gr :
  multierr_Errors (processResources w resources finalErr namespacedResources gr).1.1
  = multierr_Errors finalErr ++ clusterScopedFailures w resources gr.
Proof.
  revert finalErr namespacedResources gr.
  induction resources as [|resource resources IH]; intros finalErr namespacedResources gr;
    cbn [processResources clusterScopedFailures].
  - by rewrite app_nil_r.
  - destruct (Namespaced resource); [apply IH |].
    rewrite bind_unfold.
    destruct (processClusterscopedResources w _ gr) as [[err|] gr1]; cbn [fst snd].
    + by rewrite IH, multierr_Errors_append, <- app_assoc.
    + apply IH.
Qed.

Lemma processResources_app (w : World) pre post finalErr namespacedResources gr :
  processResources w (pre ++ post) finalErr namespacedResources gr =
  processResources w post
    (processResources w pre finalErr namespacedResources gr).1.1
    (processResources w pre finalErr namespacedResources gr).1.2
    (processResources w pre finalErr namespacedResources gr).2.
Proof.
  revert finalErr namespacedResources gr.
  induction pre as [|resource pre IH]; intros finalErr namespacedResources gr;
    cbn [processResources app]; [done |].
  destruct (Namespaced resource); [apply IH |].
  rewrite !bind_unfold.
  destruct (processClusterscopedResources w _ gr) as [[err|] gr1]; cbn [fst snd]; apply IH.
Qed.

(** ** Cache entries at the revision that is served *)

Lemma objectAlreadyValidated_other obj (vc : validationCache) k :
  k <> newValidationKey obj -> (objectAlreadyValidated obj vc).2 !! k = vc !! k.
Proof.
  intros Hk. unfold objectAlreadyValidated, retrieve, remove, removeKey.
  destruct (vc !! newValidationKey obj) as [entry|]; [| done].
  destruct (negb _); [| done]. cbn. by rewrite lookup_delete_ne.
Qed.

Lemma objectAlreadyValidated_valid obj (vc : validationCache) entry :
  vc !! newValidationKey obj = Some entry -> rversion entry = GetResourceVersion obj ->
  objectAlreadyValidated obj vc = (true, vc).
Proof.
  intros Hentry Hrv. rewrite (proj2 (objectAlreadyValidated_run obj vc) entry Hentry).
  apply String.eqb_eq in Hrv. by rewrite Hrv.
Qed.

#[local] Instance keepsEntry_preorder k entry : PreOrder (keepsEntry k entry).
Proof.
  split; [by intros gr Hk | intros gr1 gr2 gr3 H12 H23 Hk; by apply H23, H12].
Qed.

Lemma keepsEntry_reconcile (w : World) k entry obj :
  atRevision k (rversion entry) obj -> respects (keepsEntry k entry) (reconcile w obj).
Proof.
  intros Hobj gr Hk. rewrite reconcile_run. cbv zeta.
  destruct (decide (newValidationKey obj = k)) as [Heq|Hne].
  - subst k. by rewrite (objectAlreadyValidated_valid obj _ entry Hk) by (symmetry; auto).
  - pose proof (objectAlreadyValidated_other obj (objectValidationCache gr) k) as Hother.
    destruct (objectAlreadyValidated obj _) as [[] vc]; cbn [snd] in Hother.
    { cbn. rewrite Hother; [done | congruence]. }
    destruct (unstructuredToTyped w obj) as [typed|err].
    2:{ cbn. rewrite Hother; [done | congruence]. }
    destruct (RunValidations w _ _); cbn; unfold store;
      rewrite ?lookup_insert_ne by done; (rewrite Hother; [done | congruence]).
Qed.

Lemma pending_keepsEntry objs (vc : validationCache) k entry :
  vc !! k = Some entry -> Forall (atRevision k (rversion entry)) objs ->
  (pending objs vc).2 !! k = Some entry /\ k ∉ newValidationKey <$> (pending objs vc).1.
Proof.
  intros Hk Hobjs. revert vc Hk.
  induction Hobjs as [|obj objs Hobj _ IH]; intros vc Hk; cbn [pending].
  - split; [done |]. apply not_elem_of_nil.
  - destruct (decide (newValidationKey obj = k)) as [Heq|Hne].
    + subst k. rewrite (objectAlreadyValidated_valid obj _ entry Hk) by (symmetry; auto).
      specialize (IH vc Hk). by destruct (pending objs vc).
    + pose proof (objectAlreadyValidated_other obj vc k) as Hother.
      destruct (objectAlreadyValidated obj vc) as [validated vc1]. cbn [snd] in Hother.
      specialize (IH vc1). rewrite Hother in IH by congruence. specialize (IH Hk).
      destruct (pending objs vc1) as [l vc2]. cbn [fst snd] in *.
      destruct IH as [IH1 IH2]. split; [done |].
      destruct validated; [done |]. cbn. apply not_elem_of_cons. split; [congruence | done].
Qed.

Lemma keepsEntry_reconcileGroupOfObjects (w : World) k entry objs namespace :
  Forall (atRevision k (rversion entry)) objs ->
  respects (keepsEntry k entry) (reconcileGroupOfObjects w objs namespace).
Proof.
  intros Hobjs gr Hk. rewrite reconcileGroupOfObjects_run.
  destruct (pending_keepsEntry objs _ k entry Hk Hobjs) as [Hvc Hl].
  destruct (pending objs _) as [l vc]. cbn [fst snd] in *. cbv zeta.
  destruct (convertObjects w l []) as [cli|err]; [| done].
  destruct (RunValidationsForObjects w _ _); [| done].
  cbn. by rewrite storeAll_lookup_other.
Qed.

Section ServedAt.

Context (w : World) (k : validationKey) (entry : validationResource).
Hypothesis served : servedAt w k (rversion entry).

Lemma served_atRevisionOf gvk listOptions :
  Forall (atRevision k (rversion entry)) (itemsOf (clientList w gvk listOptions)).
Proof. apply Forall_forall. intros obj Hobj Hkey. by apply (served gvk listOptions). Qed.

Lemma keepsEntry_processResources resources finalErr namespacedResources :
  respects (keepsEntry k entry) (processResources w resources finalErr namespacedResources).
Proof.
  apply (respects_processResources w (keepsEntry k entry) (atRevision k (rversion entry))).
  - apply served_atRevisionOf.
  - intros obj Hobj. by apply keepsEntry_reconcile.
  - by intros gvk listOptions gr Hk.
Qed.

Lemma keepsEntry_processNamespacedResources gvks :
  respects (keepsEntry k entry) (processNamespacedResources w gvks).
Proof.
  apply (respects_processNamespacedResources w (keepsEntry k entry)
           (atRevision k (rversion entry))).
  - apply served_atRevisionOf.
  - intros objs namespace Hobjs. apply keepsEntry_reconcileGroupOfObjects.
    eapply Forall_impl; [exact Hobjs | by intros obj [Hobj _]].
  - by intros gvk listOptions gr Hk.
  - by intros namespaces gr Hk.
Qed.

End ServedAt.

(** C6. Every cluster-scoped kind of a pass is attempted, whatever the other
    kinds come to: the first page of each is requested.  The error the
    processing returns is the aggregate of the errors of the kinds that
    failed, in the order of the kinds, followed by the error of the
    namespaced processing if it failed.  A cache entry that is there once
    some of the kinds are processed is still there, unchanged, when the
    processing returns, whatever errors the kinds after them return, as long
    as its object is served at the revision of the entry.  And when the
    processing returns an error, the pass returns it, wrapped, with the cache
    as the processing left it. *)
Theorem cluster_scoped_kinds_fail_separately (w : World) (resources : list APIResource)
    (gr : GenericReconciler) :
  let run := processAllResources w resources gr in
  let kinds := processResources w resources None [] gr in
  (exists new,
      effects run.2 = effects gr ++ new /\
      forall resource, resource ∈ resources -> Namespaced resource = false ->
        ListCall (listKindOf (gvkFromMetav1APIResource resource))
          {| Limit := listLimit gr; Namespace := ""; Continue := "" |} ∈ new) /\
  multierr_Errors run.1
  = clusterScopedFailures w resources gr
    ++ match (processNamespacedResources w kinds.1.2 kinds.2).1 with
       | Some err => [ErrWrap "processing namespace scoped resources" err]
       | None => []
       end /\
  (forall pre post k entry,
      resources = pre ++ post ->
      servedAt w k (rversion entry) ->
      objectValidationCache (processResources w pre None [] gr).2 !! k = Some entry ->
      objectValidationCache run.2 !! k = Some entry) /\
  (forall gr0 err,
      reconcileResourceList w = Ok resources ->
      gr = setWatchNamespacesOf None gr0 ->
      run.1 = Some err ->
      reconcileEverything w gr0 = (Some (ErrWrap "processing all resources" err), run.2)).
Proof.
  cbv zeta. split; [| split; [| split]]; cycle 3.
  { intros gr0 err Hkinds -> Herr. rewrite reconcileEverything_run, Hkinds. cbv zeta.
    by rewrite Herr. }
  all: unfold processAllResources; rewrite bind_unfold.
  - destruct (processResources_attempts w resources None [] gr) as [_ (new & Heff & Hnew)].
    destruct (processResources w resources None [] gr) as [[finalErr namespaced] gr1].
    cbn [fst snd] in *. rewrite bind_unfold.
    assert (Hext : extends gr1 (processNamespacedResources w namespaced gr1).2).
    { apply (respects_processNamespacedResources w extends (fun _ => True)).
      - intros. by apply Forall_true.
      - intros. apply extends_reconcileGroupOfObjects.
      - intros. apply extends_call.
      - intros. apply extends_setWatchNamespaces. }
    destruct Hext as [_ [new' Heff']].
    exists (new ++ new'). split.
    + destruct (processNamespacedResources w namespaced gr1) as [[err|] gr2];
        unfold ret; cbn [fst snd] in *; by rewrite Heff', Heff, app_assoc.
    + intros resource Hin Hscope. apply elem_of_app. left. by apply Hnew.
  - pose proof (processResources_errors w resources None [] gr) as Herrs.
    destruct (processResources w resources None [] gr) as [[finalErr namespaced] gr1].
    cbn [fst snd] in *. rewrite bind_unfold.
    destruct (processNamespacedResources w namespaced gr1) as [[err|] gr2];
      unfold ret; cbn [fst snd].
    + by rewrite multierr_Errors_append, Herrs.
    + by rewrite app_nil_r.
  - intros pre post k entry -> Hserved Hentry.
    rewrite processResources_app.
    pose proof (keepsEntry_processResources w k entry Hserved post
                  (processResources w pre None [] gr).1.1
                  (processResources w pre None [] gr).1.2
                  (processResources w pre None [] gr).2 Hentry) as Hpost.
    destruct (processResources w post _ _ _) as [[finalErr namespaced] gr1].
    cbn [fst snd] in *. rewrite bind_unfold.
    pose proof (keepsEntry_processNamespacedResources w k entry Hserved namespaced gr1 Hpost)
      as Hns.
    by destruct (processNamespacedResources w namespaced gr1) as [[err|] gr2].
Qed.

(** In the example cluster the node [n1] is served at revision 1 only. *)
Lemma example_node_servedAt namespaces volumeList known valid :
  itemsOf volumeList = [] ->
  servedAt (Example.clusterOf namespaces (LastPage [Example.node "n1" "1"]) volumeList
              Example.pods known valid)
    (newValidationKey (Example.node "n1" "1")) "1".
Proof.
  intros Hvolumes gvk listOptions obj Hin Hkey. cbn [clientList Example.clusterOf] in Hin.
  destruct (String.eqb (Kind gvk) "NodeList").
  { cbn in Hin. by apply list_elem_of_singleton in Hin as ->. }
  destruct (String.eqb (Kind gvk) "VolumeList").
  { rewrite Hvolumes in Hin. by apply elem_of_nil in Hin. }
  destruct (String.eqb (Kind gvk) "Pod").
  - cbn in Hin. repeat (apply elem_of_cons in Hin as [->|Hin]); try discriminate Hkey.
    by apply elem_of_nil in Hin.
  - cbn in Hin. by apply elem_of_nil in Hin.
Qed.

Lemma cluster_scoped_kinds_fail_separately_witness :
  is_Some (processAllResources Example.volumesDown Example.kinds Example.start).1 /\
  objectValidationCache (processAllResources Example.volumesDown Example.kinds Example.start).2
    !! newValidationKey (Example.node "n1" "1")
  = Some (newValidationResource "1" "uid-n1" "valid").
Proof.
  destruct (cluster_scoped_kinds_fail_separately Example.volumesDown Example.kinds
              Example.start) as (_ & _ & Hkept & _).
  split; [vm_compute; eauto |].
  apply (Hkept [Example.nodes] [Example.namespacedPods; Example.volumes]).
  - reflexivity.
  - by apply example_node_servedAt.
  - vm_compute. reflexivity.
Defined.

(** * One validation for each revision *)

Lemma evaluations_app k effs effs' :
  evaluations k (effs ++ effs') = evaluations k effs + evaluations k effs'.
Proof. unfold evaluations. by rewrite List.filter_app, length_app. Qed.

Lemma evaluations_snoc k effs e :
  evaluations k (effs ++ [e]) = evaluations k effs + (if evaluates k e then 1 else 0).
Proof. rewrite evaluations_app. unfold evaluations. cbn. by destruct (evaluates k e). Qed.

#[local] Arguments evaluations : simpl never.

Lemma evaluates_batch_false k objs namespaceUID :
  k ∉ newValidationKey <$> objs ->
  evaluates k (RunValidationsForObjectsCall objs namespaceUID) = false.
Proof.
  intros Hk. cbn. apply bool_decide_eq_false. intros (obj & Hobj & Hkey)%Exists_exists.
  apply Hk. rewrite <- Hkey. by apply list_elem_of_fmap_2.
Qed.

Lemma evaluates_batch_true k objs namespaceUID :
  k ∈ newValidationKey <$> objs ->
  evaluates k (RunValidationsForObjectsCall objs namespaceUID) = true.
Proof.
  intros (obj & -> & Hobj)%list_elem_of_fmap. cbn. apply bool_decide_eq_true.
  apply Exists_exists. by exists obj.
Qed.

Lemma storeAll_lookup_last objs o (vc : validationCache) k :
  k ∈ newValidationKey <$> objs ->
  exists obj, obj ∈ objs /\ newValidationKey obj = k /\
    storeAll objs o vc !! k
    = Some (newValidationResource (GetResourceVersion obj) (GetUID obj) o).
Proof.
  induction objs as [|obj objs IH] using rev_ind; intros Hk.
  - by apply elem_of_nil in Hk.
  - rewrite storeAll_snoc. unfold store.
    destruct (decide (newValidationKey obj = k)) as [Heq|Hne].
    + exists obj. rewrite <- Heq, lookup_insert_eq. split; [| done].
      apply elem_of_app. right. apply list_elem_of_here.
    + rewrite lookup_insert_ne by done.
      rewrite fmap_app in Hk. apply elem_of_app in Hk as [Hk|Hk].
      * destruct (IH Hk) as (o' & Ho' & Hkey & Hlookup). exists o'.
        split; [apply elem_of_app; by left | done].
      * apply list_elem_of_singleton in Hk. congruence.
Qed.

Section OncePerRevision.

Context (w : World) (k : validationKey) (rv : string).
Hypothesis served : servedAt w k rv.
Hypothesis valid : validates w k.

#[local] Instance keepsValidatedOnce_preorder strict n :
  PreOrder (keepsValidatedOnce k rv strict n).
Proof.
  split; [by intros gr H | intros gr1 gr2 gr3 H12 H23 H; by apply H23, H12].
Qed.

Lemma served_atRevision gvk listOptions :
  Forall (atRevision k rv) (itemsOf (clientList w gvk listOptions)).
Proof. apply Forall_forall. intros obj Hobj Hkey. by apply (served gvk listOptions). Qed.

Lemma keepsValidatedOnce_reconcile strict n obj :
  atRevision k rv obj -> respects (keepsValidatedOnce k rv strict n) (reconcile w obj).
Proof.
  intros Hobj gr Hgr. rewrite reconcile_run. cbv zeta.
  destruct (decide (newValidationKey obj = k)) as [Heq|Hne].
  - (* the object has the identity [k] *)
    specialize (Hobj Heq).
    destruct Hgr as [Hn|(Hn & (entry & Hentry & Hrv) & Hlive)].
    + destruct (objectAlreadyValidated obj _) as [[] vc]; [by left |].
      destruct (unstructuredToTyped w obj) as [typed|err] eqn:Htyped; [| by left].
      apply unstructuredToTyped_Ok in Htyped as ->.
      destruct (proj1 valid (requestFor gr obj) obj Heq) as [outcome ->].
      right. cbn. rewrite evaluations_snoc, Hn. cbn.
      rewrite bool_decide_eq_true_2 by done. split; [lia |]. split.
      * eexists. unfold store. rewrite <- Heq, lookup_insert_eq. by split.
      * intros _. unfold store. rewrite <- Heq, lookup_insert_eq. eauto.
    + pose proof Hentry as Hentry'. rewrite <- Heq in Hentry'.
      rewrite (objectAlreadyValidated_valid obj _ entry Hentry') by congruence.
      right. cbn. split; [done |]. split; [by exists entry |].
      intros _. unfold store. rewrite <- Heq, lookup_insert_eq. eauto.
  - (* the object has another identity *)
    pose proof (objectAlreadyValidated_other obj (objectValidationCache gr) k) as Hother.
    assert (Hkeep : forall effs' vc',
      evaluations k effs' = evaluations k (effects gr) ->
      vc' !! k = objectValidationCache gr !! k ->
      validatedOnce k rv strict n
        (mkGenericReconciler (listLimit gr) (watchNamespaces gr) vc'
           (store obj "" (currentObjects gr)) effs')).
    { intros effs' vc' Heffs Hvc.
      destruct Hgr as [Hn|(Hn & Hentry & Hlive)]; [left; cbn; congruence | right].
      cbn. rewrite Heffs, Hvc. split; [done |]. split; [done |].
      intros Hstrict. unfold store. rewrite lookup_insert_ne by done. auto. }
    destruct (objectAlreadyValidated obj _) as [[] vc]; cbn [snd] in Hother.
    { apply Hkeep; [done | apply Hother; congruence]. }
    destruct (unstructuredToTyped w obj) as [typed|err] eqn:Htyped.
    2:{ apply Hkeep; [done | apply Hother; congruence]. }
    apply unstructuredToTyped_Ok in Htyped as ->.
    assert (Hcount : evaluations k (effects gr ++ [RunValidationsCall (requestFor gr obj) obj])
                     = evaluations k (effects gr)).
    { rewrite evaluations_snoc. cbn. rewrite bool_decide_eq_false_2 by done. lia. }
    destruct (RunValidations w _ _); cbn; apply Hkeep; try done.
    * unfold store. rewrite lookup_insert_ne by done. apply Hother. congruence.
    * apply Hother. congruence.
Qed.

Lemma atRevision_atRevisionOf entry objs :
  rversion entry = rv -> Forall (atRevision k rv) objs ->
  Forall (atRevision k (rversion entry)) objs.
Proof.
  intros Hrv Hobjs. eapply Forall_impl; [exact Hobjs |].
  intros obj Hobj Hkey. rewrite Hrv. by apply Hobj.
Qed.

Lemma pending_uncached_key objs (vc : validationCache) :
  Forall (atRevision k rv) objs ->
  k ∈ newValidationKey <$> (pending objs vc).1 ->
  ~ exists entry, vc !! k = Some entry /\ rversion entry = rv.
Proof.
  intros Hobjs Hk (entry & Hentry & Hrv).
  by destruct (pending_keepsEntry objs vc k entry Hentry
                 (atRevision_atRevisionOf entry objs Hrv Hobjs)) as [_ Hnot].
Qed.

Lemma keepsValidatedOnce_reconcileGroupOfObjects strict n objs namespace :
  Forall (atRevision k rv) objs ->
  respects (keepsValidatedOnce k rv strict n) (reconcileGroupOfObjects w objs namespace).
Proof.
  intros Hobjs gr Hgr. rewrite reconcileGroupOfObjects_run.
  pose proof (pending_uncached_key objs (objectValidationCache gr) Hobjs) as Hfresh.
  pose proof (pending_subseteq objs (objectValidationCache gr)) as Hsub.
  pose proof (fun entry => pending_keepsEntry objs (objectValidationCache gr) k entry) as Hkept.
  destruct (pending objs _) as [l vc]. cbn [fst snd] in *. cbv zeta.
  assert (Hlive : is_Some (currentObjects gr !! k) ->
                  is_Some (storeAll objs "" (currentObjects gr) !! k))
    by (intros Hk; apply storeAll_lookup_is_Some; by left).
  destruct (decide (k ∈ newValidationKey <$> l)) as [Hin|Hnotin].
  - (* an object of identity [k] needs validation *)
    destruct Hgr as [Hn|(_ & Hentry & _)]; [| by destruct (Hfresh Hin)].
    destruct (convertObjects w l []) as [cli|err] eqn:Hcli; [| by left].
    apply convertObjects_Ok in Hcli as ->. cbn [app].
    destruct (proj2 valid l (resolveNamespaceUID gr namespace)) as [outcome ->].
    { apply list_elem_of_fmap in Hin as (obj & -> & Hobj). apply Exists_exists. by exists obj. }
    right. cbn [fst snd effects objectValidationCache currentObjects
                setObjectValidationCache addEffect].
    rewrite evaluations_snoc, Hn, evaluates_batch_true by done. split; [lia |]. split.
    + destruct (storeAll_lookup_last l outcome vc k Hin) as (obj & Hobj & Hkey & ->).
      eexists. split; [done |]. cbn. rewrite Forall_forall in Hobjs.
      apply (Hobjs obj); [by apply Hsub | done].
    + intros _. apply storeAll_lookup_is_Some. right.
      apply list_elem_of_fmap in Hin as (obj & -> & Hobj).
      apply list_elem_of_fmap_2. by apply Hsub.
  - (* no object of identity [k] needs validation *)
    assert (Hkeep : forall effs' vc',
      evaluations k effs' = evaluations k (effects gr) ->
      vc' !! k = vc !! k ->
      validatedOnce k rv strict n
        (mkGenericReconciler (listLimit gr) (watchNamespaces gr) vc'
           (storeAll objs "" (currentObjects gr)) effs')).
    { intros effs' vc' Heffs Hvc.
      destruct Hgr as [Hn|(Hn & (entry & Hentry & Hrv) & Hcur)]; [left; cbn; congruence |].
      right. cbn. rewrite Heffs, Hvc. split; [done |]. split; [| by auto].
      exists entry. split; [| done].
      by destruct (Hkept entry Hentry (atRevision_atRevisionOf entry objs Hrv Hobjs)). }
    destruct (convertObjects w l []) as [cli|err] eqn:Hcli; [| by apply Hkeep].
    apply convertObjects_Ok in Hcli as ->. cbn [app].
    assert (Hcount : evaluations k (effects gr ++ [RunValidationsForObjectsCall l
                                      (resolveNamespaceUID gr namespace)])
                     = evaluations k (effects gr)).
    { rewrite evaluations_snoc, evaluates_batch_false by done. lia. }
    destruct (RunValidationsForObjects w _ _); cbn; apply Hkeep; try done.
    by apply storeAll_lookup_other.
Qed.

Lemma keepsValidatedOnce_processAllResources strict n resources :
  respects (keepsValidatedOnce k rv strict n) (processAllResources w resources).
Proof.
  apply (respects_processAllResources w (keepsValidatedOnce k rv strict n) (atRevision k rv)).
  - apply served_atRevision.
  - intros obj Hobj. by apply keepsValidatedOnce_reconcile.
  - intros objs namespace Hobjs. apply keepsValidatedOnce_reconcileGroupOfObjects.
    eapply Forall_impl; [exact Hobjs | by intros obj [Hobj _]].
  - intros gvk listOptions gr [Hn|(Hn & Hentry & Hlive)]; [left | right]; cbn;
      rewrite evaluations_snoc; cbn; rewrite Nat.add_0_r; [done | by repeat split].
  - by intros namespaces gr H.
Qed.

Lemma validatedOnce_handleResourceDeletions n gr :
  validatedOnce k rv true n gr -> validatedOnce k rv false n (handleResourceDeletions w gr).2.
Proof.
  destruct (handleResourceDeletions_run w gr) as (_ & _ & _ & Heff & Hcache).
  cbv zeta in Heff, Hcache.
  assert (Hcount : evaluations k (effects (handleResourceDeletions w gr).2)
                   = evaluations k (effects gr)).
  { rewrite Heff, evaluations_app.
    assert (Hnone : forall entries, evaluations k (deletionSignal gr <$> entries) = 0)
      by (intros entries; induction entries; [done | by unfold evaluations in *]).
    rewrite Hnone. lia. }
  intros [Hn|(Hn & (entry & Hentry & Hrv) & Hlive)]; [left; congruence | right].
  rewrite Hcount, Hcache. split; [done |]. split; [| done].
  exists entry. split; [| done].
  rewrite map_lookup_filter, Hentry. cbn. rewrite option_guard_True; [done |]. by apply Hlive.
Qed.

Lemma evaluations_handleResourceDeletions gr :
  evaluations k (effects (handleResourceDeletions w gr).2) = evaluations k (effects gr).
Proof.
  destruct (handleResourceDeletions_run w gr) as (_ & _ & _ & Heff & _).
  cbv zeta in Heff. rewrite Heff, evaluations_app.
  assert (Hnone : forall entries, evaluations k (deletionSignal gr <$> entries) = 0)
    by (intros entries; induction entries; [done | by unfold evaluations in *]).
  rewrite Hnone. lia.
Qed.

(** A pass that begins with [n] validations of [k] ends with [n], or with
    one more and the entry in the cache. *)
Lemma validatedOnce_reconcileEverything n gr :
  evaluations k (effects gr) = n ->
  validatedOnce k rv false n (reconcileEverything w gr).2.
Proof.
  intros Hn. rewrite reconcileEverything_run.
  destruct (reconcileResourceList w) as [apiResources|err]; [| by left].
  cbv zeta.
  pose proof (keepsValidatedOnce_processAllResources true n apiResources
                (setWatchNamespacesOf None gr)) as Hrun.
  destruct (processAllResources w apiResources _) as [[err|] gr1]; cbn [fst snd] in *.
  - destruct Hrun as [Hrun|(Hrun & Hentry & _)]; [by left | by left | by right].
  - apply validatedOnce_handleResourceDeletions, Hrun. by left.
Qed.

(** A pass that begins with the entry in the cache validates [k] no more. *)
Lemma evaluations_reconcileEverything n gr :
  validatedOnce k rv false n gr ->
  evaluations k (effects (reconcileEverything w gr).2) <= S n.
Proof.
  intros Hgr. rewrite reconcileEverything_run.
  assert (Hbound : forall g, validatedOnce k rv false n g -> evaluations k (effects g) <= S n)
    by (intros g [Hg|[Hg _]]; lia).
  destruct (reconcileResourceList w) as [apiResources|err]; [| by apply Hbound].
  cbv zeta.
  pose proof (keepsValidatedOnce_processAllResources false n apiResources
                (setWatchNamespacesOf None gr) Hgr) as Hrun.
  destruct (processAllResources w apiResources _) as [[err|] gr1]; cbn [fst snd] in *.
  - by apply Hbound.
  - rewrite evaluations_handleResourceDeletions. by apply Hbound.
Qed.

End OncePerRevision.

Lemma Start_two (w1 w2 : World) (gr : GenericReconciler) :
  (Start [w1; w2] gr).2 = (reconcileEverything w2 (reconcileEverything w1 gr).2).2.
Proof.
  cbn [Start]. rewrite !bind_unfold. by destruct (reconcileEverything w2 _).
Qed.

(** Two consecutive passes hand an object of an identity that is served at
    one revision, and that the validation engine accepts, to the engine at
    most once. *)
Lemma two_passes_validate_at_most_once (w1 w2 : World) (k : validationKey)
    (rv : string) (gr : GenericReconciler) :
  servedAt w1 k rv -> servedAt w2 k rv ->
  validates w1 k -> validates w2 k ->
  evaluations k (effects (Start [w1; w2] gr).2) <= evaluations k (effects gr) + 1.
Proof.
  intros Hserved1 Hserved2 Hvalid1 Hvalid2. rewrite Start_two.
  pose proof (validatedOnce_reconcileEverything w1 k rv Hserved1 Hvalid1
                (evaluations k (effects gr)) gr eq_refl) as Hfirst.
  pose proof (evaluations_reconcileEverything w2 k rv Hserved2 Hvalid2 _ _ Hfirst) as Hsecond.
  lia.
Qed.

Lemma example_validates namespaces nodeList volumeList podList known k :
  validates (Example.clusterOf namespaces nodeList volumeList podList known Example.always) k.
Proof.
  split.
  - intros request obj _. by exists "valid"%string.
  - intros objs namespaceUID _. exists "valid"%string. cbn.
    assert (Hall : forallb Example.always objs = true) by (by induction objs).
    by rewrite Hall.
Qed.

(** C4 as the specification states it does not hold: the node [n1] is served
    at revision 1 in two consecutive passes, the validation engine returns an
    error for it, nothing is stored, and the second pass hands it to the
    engine again. *)
Lemma failed_validation_is_repeated :
  evaluations (newValidationKey (Example.node "n1" "1"))
    (effects (Start [Example.invalidNodes; Example.invalidNodes] Example.start).2) = 2.
Proof. vm_compute. reflexivity. Qed.

(** * Further properties of the validation cache *)

(** X1. What is stored for an object is what is retrieved for it: its
    revision, its owner identifier and the outcome; the cache has its
    identity; and what was stored for other identities is retrieved as
    before. *)
Theorem store_retrieve (vc : validationCache) (obj : Unstructured) (o : ValidationOutcome) :
  retrieve obj (store obj o vc)
  = Some (newValidationResource (GetResourceVersion obj) (GetUID obj) o) /\
  has (store obj o vc) (newValidationKey obj) = true /\
  forall obj', newValidationKey obj' <> newValidationKey obj ->
               retrieve obj' (store obj o vc) = retrieve obj' vc.
Proof.
  unfold retrieve, store. split; [by rewrite lookup_insert_eq | split].
  - apply has_true. rewrite lookup_insert_eq. eauto.
  - intros obj' Hne. by rewrite lookup_insert_ne.
Qed.

(** X2. Storing for an identity replaces what was stored for it: nothing of
    the entry before is kept, whatever its revision, owner and outcome. *)
Theorem store_overwrites (vc : validationCache) (obj obj' : Unstructured)
    (o o' : ValidationOutcome) :
  newValidationKey obj' = newValidationKey obj ->
  store obj' o' (store obj o vc) = store obj' o' vc.
Proof. intros Hkey. unfold store. rewrite Hkey. apply insert_insert_eq. Qed.

Lemma store_overwrites_witness :
  store (Example.node "n1" "2") "invalid" (store (Example.node "n1" "1") "valid" ∅)
  = store (Example.node "n1" "2") "invalid" ∅.
Proof. by apply store_overwrites. Defined.

(** X3. Removing an object goes by its identity alone: afterwards the cache
    has no entry for the identity, whatever revision was stored; the entries
    of the other identities stay; and for an identity without an entry the
    cache is left as it is. *)
Theorem remove_by_identity (vc : validationCache) (obj : Unstructured) :
  has (remove obj vc) (newValidationKey obj) = false /\
  (forall obj' o, newValidationKey obj' = newValidationKey obj ->
                  remove obj (store obj' o vc) = remove obj vc) /\
  (forall k, k <> newValidationKey obj -> remove obj vc !! k = vc !! k) /\
  (has vc (newValidationKey obj) = false -> remove obj vc = vc).
Proof.
  unfold remove, removeKey, store. split; [| split; [| split]].
  - apply has_false, lookup_delete_eq.
  - intros obj' o ->. apply delete_insert_eq.
  - intros k Hk. by rewrite lookup_delete_ne.
  - intros Hnone%has_false. by apply delete_id.
Qed.

Lemma remove_by_identity_witness :
  remove (Example.node "n1" "2") (store (Example.node "n1" "1") "valid" ∅) = remove (Example.node "n1" "2") ∅ /\
  remove (Example.node "n1" "2") ∅ = ∅.
Proof.
  destruct (remove_by_identity ∅ (Example.node "n1" "2")) as (_ & Hstored & _ & Hnone).
  split; [by apply Hstored | by apply Hnone].
Defined.

(** X4. The already-validated check can be repeated: the second check gives
    the answer of the first and changes nothing more.  And the check never
    adds an entry: what the cache has afterwards, it had before. *)
Theorem objectAlreadyValidated_idempotent (vc : validationCache) (obj : Unstructured) :
  objectAlreadyValidated obj (objectAlreadyValidated obj vc).2 = objectAlreadyValidated obj vc /\
  forall k entry, (objectAlreadyValidated obj vc).2 !! k = Some entry -> vc !! k = Some entry.
Proof.
  destruct (vc !! newValidationKey obj) as [entry|] eqn:Hentry.
  - rewrite (proj2 (objectAlreadyValidated_run obj vc) entry Hentry).
    destruct (String.eqb (rversion entry) (GetResourceVersion obj)) eqn:Hrv; cbn [snd].
    + split; [| done].
      rewrite (proj2 (objectAlreadyValidated_run obj vc) entry Hentry). by rewrite Hrv.
    + split.
      * apply (proj1 (objectAlreadyValidated_run obj _)), lookup_delete_eq.
      * intros k entry' Hk. apply lookup_delete_Some in Hk. tauto.
  - rewrite (proj1 (objectAlreadyValidated_run obj vc) Hentry). cbn [snd]. split; [| done].
    by apply (proj1 (objectAlreadyValidated_run obj vc)).
Qed.

(** X5. After an outcome is stored for an object, the check of an object of
    the same identity answers true, and keeps the entry, exactly when the
    revision of that object is the revision stored; at any other revision it
    answers false and the entry is gone. *)
Theorem store_then_check (vc : validationCache) (obj obj' : Unstructured)
    (o : ValidationOutcome) :
  newValidationKey obj' = newValidationKey obj ->
  objectAlreadyValidated obj' (store obj o vc) =
  if String.eqb (GetResourceVersion obj) (GetResourceVersion obj')
  then (true, store obj o vc)
  else (false, delete (newValidationKey obj) vc).
Proof.
  intros Hkey.
  rewrite (proj2 (objectAlreadyValidated_run obj' (store obj o vc))
             (newValidationResource (GetResourceVersion obj) (GetUID obj) o))
    by (unfold store; by rewrite Hkey, lookup_insert_eq).
  cbn [rversion newValidationResource].
  destruct (String.eqb _ _); [done |].
  unfold store. by rewrite Hkey, delete_insert_eq.
Qed.

Lemma store_then_check_witness :
  objectAlreadyValidated (Example.node "n1" "2") (store (Example.node "n1" "1") "valid" ∅)
  = (false, delete (newValidationKey (Example.node "n1" "1")) ∅).
Proof. by apply (store_then_check ∅ (Example.node "n1" "1") (Example.node "n1" "2")). Defined.

(** * Further properties of the app label and of the grouping *)

Lemma NestedString_stringAt fields obj :
  match NestedString (Object obj) fields with
  | (s, true, err) => err = None /\ stringAt fields obj = Some s
  | (s, false, _) => s = "" /\ stringAt fields obj = None
  end.
Proof.
  unfold stringAt, NestedString.
  destruct (NestedFieldNoCopy (Object obj) fields) as [[[]|]|]; by cbn.
Qed.

(** X6. The app label of an object is the string under its metadata labels,
    if there is one; otherwise, also when the metadata labels cannot be read
    as a map or the label is not a string, it is the string under the match
    labels of its selector.  When getAppLabel returns an error, it is not an
    error of the metadata path: it is that of the selector path, or the error
    that no label was found. *)
Theorem getAppLabel_paths (obj : Unstructured) :
  (forall appLabel,
     getAppLabel obj = Ok appLabel <->
     stringAt labelPath obj = Some appLabel \/
     (stringAt labelPath obj = None /\ stringAt selectorPath obj = Some appLabel)) /\
  (forall err,
     getAppLabel obj = Err err ->
     (NestedString (Object obj) selectorPath).2 = Some err \/
     err = ErrExternal ("can't find any 'app' label for " ++ GetName obj
                        ++ " resource from " ++ GetNamespace obj ++ " namespace")).
Proof.
  unfold getAppLabel. fold labelPath selectorPath.
  pose proof (NestedString_stringAt labelPath obj) as Hlabel.
  pose proof (NestedString_stringAt selectorPath obj) as Hselector.
  destruct (NestedString (Object obj) labelPath) as [[s found] err].
  destruct (NestedString (Object obj) selectorPath) as [[s' found'] err'].
  destruct found; cbn [negb].
  - destruct Hlabel as [-> Hlabel]. rewrite Hlabel. split.
    + intros appLabel. split; [intros [= ->]; by left |].
      intros [[= ->]|[[=] _]]. done.
    + by intros err [=].
  - destruct Hlabel as [_ Hlabel]. rewrite Hlabel.
    destruct err' as [e|].
    { destruct found'; [by destruct Hselector |]. destruct Hselector as [_ Hselector].
      rewrite Hselector. split.
      - intros appLabel. split; [done | by intros [[=]|[_ [=]]]].
      - intros err0 [= <-]. by left. }
    destruct found'; cbn [negb].
    + destruct Hselector as [_ Hselector]. rewrite Hselector. split.
      * intros appLabel. split; [intros [= ->]; by right |].
        by intros [[=]|[_ [= ->]]].
      * by intros err0 [=].
    + destruct Hselector as [_ Hselector]. rewrite Hselector. split.
      * intros appLabel. split; [done | by intros [[=]|[_ [=]]]].
      * intros err0 [= <-]. by right.
Qed.

Lemma getAppLabel_paths_witness :
  getAppLabel
    (Example.pod "p9" "1"
       (VMap [("metadata", VMap [("labels", VString "not a map")]);
              ("spec", VMap [("selector", VMap [("matchLabels",
                                                   VMap [("app", VString "a")])])])]))
  = Ok "a"%string.
Proof.
  apply (proj1 (getAppLabel_paths _)). right. split; reflexivity.
Defined.

Lemma hasLabel_true appLabel obj :
  hasLabel appLabel obj = true <-> getAppLabel obj = Ok appLabel.
Proof.
  unfold hasLabel. destruct (getAppLabel obj) as [l|err]; [| done].
  rewrite String.eqb_eq. split; congruence.
Qed.

Lemma groupItems_app items1 items2 (relatedObjects : gmap string (list Unstructured)) :
  groupItems (items1 ++ items2) relatedObjects
  = groupItems items2 (groupItems items1 relatedObjects).
Proof.
  revert relatedObjects. induction items1 as [|obj items1 IH]; intros relatedObjects;
    cbn [groupItems app]; [done |].
  by destruct (getAppLabel obj).
Qed.

Lemma groupItems_lookup items (relatedObjects : gmap string (list Unstructured)) appLabel :
  groupItems items relatedObjects !! appLabel =
  match List.filter (hasLabel appLabel) items with
  | [] => relatedObjects !! appLabel
  | objs => Some ((relatedObjects !!! appLabel) ++ objs)
  end.
Proof.
  revert relatedObjects. induction items as [|obj items IH]; intros relatedObjects;
    cbn [groupItems List.filter]; [done |].
  unfold hasLabel at 1.
  destruct (getAppLabel obj) as [l|err] eqn:Hobj; [| apply IH].
  rewrite IH. destruct (String.eqb l appLabel) eqn:Hl.
  - apply String.eqb_eq in Hl as ->.
    rewrite lookup_total_insert_eq, lookup_insert_eq.
    destruct (List.filter (hasLabel appLabel) items); [done |].
    by rewrite <- app_assoc.
  - apply String.eqb_neq in Hl.
    by rewrite lookup_total_insert_ne, lookup_insert_ne.
Qed.

(** X7. Grouping into an empty map: the group of an app label is made of the
    items that have this label, all of them, each once and in the order
    listed; there is no group for a label that no item has, so no group is
    empty; and the items without a label are in no group. *)
Theorem groupItems_by_label (items : list Unstructured) (appLabel : string) :
  groupItems items ∅ !! appLabel =
  match List.filter (hasLabel appLabel) items with
  | [] => None
  | objs => Some objs
  end.
Proof.
  rewrite groupItems_lookup, lookup_empty.
  destruct (List.filter (hasLabel appLabel) items); [done |].
  by rewrite lookup_total_empty.
Qed.

Lemma groupPages_outcomeOf gvk listOptions pages relatedObjects gr :
  outcomeOf (groupPages gvk listOptions pages relatedObjects gr).2 = outcomeOf gr.
Proof.
  revert listOptions relatedObjects gr.
  induction pages as [err|items|items listContinue next IH];
    intros listOptions relatedObjects gr; cbn [groupPages]; rewrite bind_unfold.
  - unfold ret. cbn [snd]. apply outcomeOf_list_call.
  - unfold ret. cbn [snd]. apply outcomeOf_list_call.
  - destruct (String.eqb listContinue "").
    + unfold ret. cbn [snd]. apply outcomeOf_list_call.
    + rewrite IH. apply outcomeOf_list_call.
Qed.

Lemma groupPages_served gvk listOptions pages served relatedObjects gr :
  pagesOf pages = Some served ->
  (groupPages gvk listOptions pages relatedObjects gr).1
  = Ok (groupItems (concat served) relatedObjects).
Proof.
  revert listOptions served relatedObjects gr.
  induction pages as [err|items|items listContinue next IH];
    intros listOptions served relatedObjects gr Hserved; cbn [pagesOf] in Hserved; [done | |];
    cbn [groupPages]; rewrite bind_unfold.
  - injection Hserved as <-. cbn [concat]. by rewrite app_nil_r.
  - destruct (String.eqb listContinue "").
    + injection Hserved as <-. cbn [concat]. by rewrite app_nil_r.
    + destruct (pagesOf next) as [rest|]; [| done]. injection Hserved as <-.
      cbn [concat]. rewrite groupItems_app. by apply IH.
Qed.

Lemma groupKinds_outcomeOf (w : World) namespace gvks relatedObjects gr :
  outcomeOf (groupKinds w namespace gvks relatedObjects gr).2 = outcomeOf gr.
Proof.
  revert relatedObjects gr. induction gvks as [|gvk gvks IH]; intros relatedObjects gr;
    cbn [groupKinds]; [done |].
  rewrite bind_unfold. unfold gets. cbn [fst snd]. rewrite bind_unfold.
  match goal with |- context [groupPages gvk ?o ?p relatedObjects gr] =>
    pose proof (groupPages_outcomeOf gvk o p relatedObjects gr) as Hpages;
    destruct (groupPages gvk o p relatedObjects gr) as [[related|err] gr1]
  end; cbn [fst snd] in *; [| done].
  by rewrite IH.
Qed.

Lemma groupKinds_listed (w : World) namespace gvks items relatedObjects gr :
  listedIn w (listLimit gr) namespace gvks = Some items ->
  (groupKinds w namespace gvks relatedObjects gr).1 = Ok (groupItems items relatedObjects).
Proof.
  revert items relatedObjects gr. induction gvks as [|gvk gvks IH];
    intros items relatedObjects gr Hlisted; cbn [groupKinds listedIn] in *.
  - by injection Hlisted as <-.
  - rewrite bind_unfold. unfold gets. cbn [fst snd]. rewrite bind_unfold.
    destruct (pagesOf (clientList w gvk _)) as [served|] eqn:Hserved; [| done].
    cbn in Hlisted.
    destruct (listedIn w (listLimit gr) namespace gvks) as [rest|] eqn:Hrest; [| done].
    injection Hlisted as <-.
    match goal with |- context [groupPages gvk ?o ?p relatedObjects gr] =>
      pose proof (groupPages_served gvk o p served relatedObjects gr Hserved) as Hres;
      pose proof (groupPages_outcomeOf gvk o p relatedObjects gr) as Hout;
      destruct (groupPages gvk o p relatedObjects gr) as [r gr1]
    end. cbn [fst snd] in *. subst r.
    apply outcomeOf_eq in Hout as (Hlim & _).
    rewrite groupItems_app. apply IH. by rewrite Hlim.
Qed.

(** X8. Grouping the objects of a namespace makes list requests and nothing
    else: the caches, the watched namespaces and the calls of the validation
    engine are as before, also when a list request fails.  And when the list
    of every kind is served to its end, the groups are those of the items of
    all pages of all kinds taken as one list, in the order of the kinds and
    the pages, wherever the page boundaries fall. *)
Theorem groupAppObjects_groups_all_pages (w : World) (namespace : string)
    (gvks : list GroupVersionKind) (gr : GenericReconciler) :
  outcomeOf (groupAppObjects w namespace gvks gr).2 = outcomeOf gr /\
  forall items,
    listedIn w (listLimit gr) namespace gvks = Some items ->
    (groupAppObjects w namespace gvks gr).1 = Ok (groupItems items ∅).
Proof.
  unfold groupAppObjects. split; [apply groupKinds_outcomeOf |].
  intros items Hlisted. by apply groupKinds_listed.
Qed.

Lemma groupAppObjects_groups_all_pages_witness :
  (groupAppObjects Example.healthy "ns1" [Example.podGVK] Example.start).1
  = Ok (groupItems [Example.pod "p1" "1" (Example.withLabel "a");
                    Example.pod "p2" "1" (VMap []);
                    Example.pod "p3" "7" (Example.withSelector "a")] ∅).
Proof.
  apply (proj2 (groupAppObjects_groups_all_pages Example.healthy "ns1" [Example.podGVK]
                  Example.start)).
  reflexivity.
Defined.

(** * Further properties of the two reconcile paths *)

(** X9. Reconciling an object whose cache entry is at its revision records
    the object in the set of current objects and does nothing else: no error,
    no call of the validation engine, the cache as before. *)
Theorem reconcile_skips_validated (w : World) (obj : Unstructured) (gr : GenericReconciler)
    (entry : validationResource) :
  objectValidationCache gr !! newValidationKey obj = Some entry ->
  rversion entry = GetResourceVersion obj ->
  reconcile w obj gr = (None, setCurrentObjects (store obj "" (currentObjects gr)) gr).
Proof.
  intros Hentry Hrv. rewrite reconcile_run. cbv zeta.
  rewrite (objectAlreadyValidated_valid obj _ entry Hentry Hrv). by destruct gr.
Qed.

Lemma reconcile_skips_validated_witness :
  reconcile Example.healthy (Example.node "n1" "1")
    (setObjectValidationCache (store (Example.node "n1" "1") "valid" ∅) Example.start)
  = (None,
     setCurrentObjects (store (Example.node "n1" "1") "" ∅)
       (setObjectValidationCache (store (Example.node "n1" "1") "valid" ∅) Example.start)).
Proof.
  exact (reconcile_skips_validated Example.healthy (Example.node "n1" "1")
           (setObjectValidationCache (store (Example.node "n1" "1") "valid" ∅)
              Example.start)
           (newValidationResource "1" "uid-n1" "valid") eq_refl eq_refl).
Defined.

Lemma objectAlreadyValidated_stale obj (vc : validationCache) entry :
  vc !! newValidationKey obj = Some entry -> rversion entry <> GetResourceVersion obj ->
  objectAlreadyValidated obj vc = (false, delete (newValidationKey obj) vc).
Proof.
  intros Hentry Hrv. rewrite (proj2 (objectAlreadyValidated_run obj vc) entry Hentry).
  apply String.eqb_neq in Hrv. by rewrite Hrv.
Qed.

(** X10. Reconciling an object whose cache entry is at another revision: the
    entry is removed by the check; when the object converts and the
    validation returns an outcome, there is one call of the validation engine
    and the cache has a new entry for the object, with its revision, its
    owner identifier and the outcome; when the reconcile returns an error,
    the identity is left without an entry.  The entries of the other
    identities are as before. *)
Theorem reconcile_revalidates_stale (w : World) (obj : Unstructured) (gr : GenericReconciler)
    (entry : validationResource) :
  objectValidationCache gr !! newValidationKey obj = Some entry ->
  rversion entry <> GetResourceVersion obj ->
  let run := reconcile w obj gr in
  (forall outcome,
     (exists typedClientObject, unstructuredToTyped w obj = Ok typedClientObject) ->
     RunValidations w (requestFor gr obj) obj = Ok outcome ->
     run.1 = None /\
     effects run.2 = effects gr ++ [RunValidationsCall (requestFor gr obj) obj] /\
     objectValidationCache run.2 !! newValidationKey obj
     = Some (newValidationResource (GetResourceVersion obj) (GetUID obj) outcome)) /\
  (is_Some run.1 -> objectValidationCache run.2 !! newValidationKey obj = None) /\
  (forall k, k <> newValidationKey obj ->
             objectValidationCache run.2 !! k = objectValidationCache gr !! k).
Proof.
  intros Hentry Hrv. cbv zeta. rewrite reconcile_run. cbv zeta.
  rewrite (objectAlreadyValidated_stale obj _ entry Hentry Hrv).
  split; [| split].
  - intros outcome [typed Htyped] Hrun. rewrite Htyped.
    apply unstructuredToTyped_Ok in Htyped as ->. rewrite Hrun. cbn.
    split; [done |]. split; [done |]. unfold store. by rewrite lookup_insert_eq.
  - destruct (unstructuredToTyped w obj) as [typed|err]; cbn.
    + destruct (RunValidations w _ _); cbn; [by intros [? ?] |].
      intros _. apply lookup_delete_eq.
    + intros _. apply lookup_delete_eq.
  - intros k Hk.
    destruct (unstructuredToTyped w obj) as [typed|err]; cbn.
    + destruct (RunValidations w _ _); cbn; unfold store;
        rewrite ?lookup_insert_ne by done; by rewrite lookup_delete_ne.
    + by rewrite lookup_delete_ne.
Qed.

Lemma reconcile_revalidates_stale_witness :
  (reconcile Example.healthy (Example.node "n1" "2")
     (setObjectValidationCache (store (Example.node "n1" "1") "stale" ∅) Example.start)).1
  = None /\
  objectValidationCache
    (reconcile Example.healthy (Example.node "n1" "2")
       (setObjectValidationCache (store (Example.node "n1" "1") "stale" ∅) Example.start)).2
    !! newValidationKey (Example.node "n1" "2")
  = Some (newValidationResource "2" "uid-n1" "valid").
Proof.
  destruct (reconcile_revalidates_stale Example.healthy (Example.node "n1" "2")
              (setObjectValidationCache (store (Example.node "n1" "1") "stale" ∅)
                 Example.start)
              (newValidationResource "1" "uid-n1" "stale")) as (Hvalid & _ & _).
  - reflexivity.
  - cbn. discriminate.
  - destruct (Hvalid "valid"%string) as (Hnone & _ & Hentry).
    + eexists. vm_compute. reflexivity.
    + reflexivity.
    + split; [exact Hnone | exact Hentry].
Defined.

Lemma reconcile_None_cached (w : World) obj gr :
  (reconcile w obj gr).1 = None ->
  exists entry,
    objectValidationCache (reconcile w obj gr).2 !! newValidationKey obj = Some entry /\
    rversion entry = GetResourceVersion obj.
Proof.
  rewrite reconcile_run. cbv zeta.
  destruct (objectValidationCache gr !! newValidationKey obj) as [entry|] eqn:Hentry.
  - rewrite (proj2 (objectAlreadyValidated_run obj _) entry Hentry).
    destruct (String.eqb (rversion entry) (GetResourceVersion obj)) eqn:Hrv.
    + intros _. exists entry. cbn. split; [done | by apply String.eqb_eq].
    + destruct (unstructuredToTyped w obj) as [typed|err]; [| done].
      destruct (RunValidations w _ _); [| done].
      intros _. eexists. cbn. unfold store. by rewrite lookup_insert_eq.
  - rewrite (proj1 (objectAlreadyValidated_run obj _) Hentry).
    destruct (unstructuredToTyped w obj) as [typed|err]; [| done].
    destruct (RunValidations w _ _); [| done].
    intros _. eexists. cbn. unfold store. by rewrite lookup_insert_eq.
Qed.

(** X11. A reconcile that returned no error can be repeated at once: the
    second reconcile of the object returns no error either and leaves the
    reconciler exactly as the first left it, without a call of the validation
    engine. *)
Theorem reconcile_again_changes_nothing (w : World) (obj : Unstructured)
    (gr : GenericReconciler) :
  (reconcile w obj gr).1 = None ->
  reconcile w obj (reconcile w obj gr).2 = (None, (reconcile w obj gr).2).
Proof.
  intros Hnone.
  destruct (reconcile_None_cached w obj gr Hnone) as (entry & Hentry & Hrv).
  rewrite (reconcile_skips_validated w obj _ entry Hentry Hrv).
  rewrite currentObjects_reconcile. f_equal.
  pose proof (currentObjects_reconcile w obj gr) as Hlive.
  destruct (reconcile w obj gr) as [r [lim ns vc live effs]]. cbn in *. subst live.
  unfold setCurrentObjects, store. cbn. by rewrite insert_insert_eq.
Qed.

Lemma reconcile_again_changes_nothing_witness :
  reconcile Example.healthy (Example.node "n1" "1")
    (reconcile Example.healthy (Example.node "n1" "1") Example.start).2
  = (None, (reconcile Example.healthy (Example.node "n1" "1") Example.start).2).
Proof.
  apply reconcile_again_changes_nothing. vm_compute. reflexivity.
Defined.

Lemma pending_all_validated objs (vc : validationCache) :
  Forall (fun obj => exists entry, vc !! newValidationKey obj = Some entry /\
                                   rversion entry = GetResourceVersion obj) objs ->
  pending objs vc = ([], vc).
Proof.
  induction 1 as [|obj objs (entry & Hentry & Hrv) _ IH]; cbn [pending]; [done |].
  by rewrite (objectAlreadyValidated_valid obj vc entry Hentry Hrv), IH.
Qed.

(** X12. A group all of whose objects have a cache entry at their revision
    (a group without objects among them) still calls the batch validation,
    once and with no object at all; the cache is as before, and an error of
    that call is the error of the group. *)
Theorem group_of_validated_objects_validates_nothing (w : World)
    (objs : list Unstructured) (namespace : string) (gr : GenericReconciler) :
  Forall (fun obj => exists entry,
            objectValidationCache gr !! newValidationKey obj = Some entry /\
            rversion entry = GetResourceVersion obj) objs ->
  reconcileGroupOfObjects w objs namespace gr =
  (match RunValidationsForObjects w [] (resolveNamespaceUID gr namespace) with
   | Ok _ => None
   | Err err => Some (ErrWrap "running validations" err)
   end,
   addEffect (RunValidationsForObjectsCall [] (resolveNamespaceUID gr namespace))
     (setCurrentObjects (storeAll objs "" (currentObjects gr)) gr)).
Proof.
  intros Hobjs. rewrite reconcileGroupOfObjects_run, pending_all_validated by done.
  cbv zeta. cbn [convertObjects].
  destruct (RunValidationsForObjects w [] _); by destruct gr.
Qed.

Lemma group_of_validated_objects_validates_nothing_witness :
  effects (reconcileGroupOfObjects Example.healthy Example.appA "ns1"
             (reconcileGroupOfObjects Example.healthy Example.appA "ns1"
                Example.watching).2).2
  = effects (reconcileGroupOfObjects Example.healthy Example.appA "ns1" Example.watching).2
    ++ [RunValidationsForObjectsCall [] "nsuid1"].
Proof.
  rewrite (group_of_validated_objects_validates_nothing Example.healthy Example.appA "ns1"
             (reconcileGroupOfObjects Example.healthy Example.appA "ns1"
                Example.watching).2).
  - reflexivity.
  - repeat apply Forall_cons_2; try apply Forall_nil_2; eexists; split; vm_compute;
      reflexivity.
Defined.

(** * The kinds of a pass, by scope *)

Lemma clusterScoped_app pre post :
  clusterScoped (pre ++ post) = clusterScoped pre ++ clusterScoped post.
Proof. apply List.filter_app. Qed.

Lemma namespaced_app pre post : namespaced (pre ++ post) = namespaced pre ++ namespaced post.
Proof. apply List.filter_app. Qed.

Lemma clusterScoped_clusterScoped resources :
  clusterScoped (clusterScoped resources) = clusterScoped resources.
Proof.
  unfold clusterScoped.
  induction resources as [|resource rest IH]; [done |]. cbn [List.filter].
  destruct (Namespaced resource) eqn:Hscope; cbn [negb List.filter]; [done |].
  by rewrite Hscope, IH.
Qed.

Lemma namespaced_namespaced resources : namespaced (namespaced resources) = namespaced resources.
Proof.
  unfold namespaced.
  induction resources as [|resource rest IH]; [done |]. cbn [List.filter].
  destruct (Namespaced resource) eqn:Hscope; cbn [List.filter]; [| done].
  by rewrite Hscope, IH.
Qed.

Lemma clusterScoped_namespaced resources : clusterScoped (namespaced resources) = [].
Proof.
  unfold clusterScoped, namespaced.
  induction resources as [|resource rest IH]; [done |]. cbn [List.filter].
  destruct (Namespaced resource) eqn:Hscope; cbn [List.filter]; [| done].
  by rewrite Hscope.
Qed.

Lemma namespaced_clusterScoped resources : namespaced (clusterScoped resources) = [].
Proof.
  unfold clusterScoped, namespaced.
  induction resources as [|resource rest IH]; [done |]. cbn [List.filter].
  destruct (Namespaced resource) eqn:Hscope; cbn [negb List.filter]; [done |].
  by rewrite Hscope.
Qed.

Lemma processResources_by_scope (w : World) resources finalErr namespacedResources gr :
  processResources w resources finalErr namespacedResources gr =
  ((processResources w (clusterScoped resources) finalErr [] gr).1.1,
   namespacedResources ++ (gvkFromMetav1APIResource <$> namespaced resources),
   (processResources w (clusterScoped resources) finalErr [] gr).2).
Proof.
  revert finalErr namespacedResources gr.
  induction resources as [|resource rest IH]; intros finalErr namespacedResources gr.
  - cbn. by rewrite app_nil_r.
  - cbn [processResources clusterScoped namespaced List.filter].
    destruct (Namespaced resource) eqn:Hscope; cbn [negb].
    + rewrite IH. fold (clusterScoped rest) (namespaced rest).
      by rewrite fmap_cons, <- app_assoc.
    + fold (clusterScoped rest) (namespaced rest).
      cbn [processResources]. rewrite Hscope, !bind_unfold.
      destruct (processClusterscopedResources w _ gr) as [[err|] gr1]; cbn [fst snd];
        by rewrite IH.
Qed.

(** X13. The order in which the discovery answer mixes cluster-scoped and
    namespaced kinds has no bearing on a pass: the cluster-scoped kinds are
    processed first, in their order, and the namespaced kinds are then
    processed together, in theirs, as if the answer had listed all the
    cluster-scoped kinds before all the namespaced ones. *)
Theorem processAllResources_by_scope (w : World) (resources : list APIResource)
    (gr : GenericReconciler) :
  (processResources w resources None [] gr).1.2
  = gvkFromMetav1APIResource <$> namespaced resources /\
  processAllResources w resources gr
  = processAllResources w (clusterScoped resources ++ namespaced resources) gr.
Proof.
  split; [by rewrite processResources_by_scope |].
  unfold processAllResources. rewrite !bind_unfold.
  rewrite (processResources_by_scope w resources),
    (processResources_by_scope w (_ ++ _)).
  by rewrite clusterScoped_app, namespaced_app, clusterScoped_clusterScoped,
    clusterScoped_namespaced, namespaced_clusterScoped, namespaced_namespaced, app_nil_r.
Qed.

(** * What the processing of a pass does to the cache *)

Lemma objectAlreadyValidated_lookup_Some obj (vc : validationCache) k entry :
  (objectAlreadyValidated obj vc).2 !! k = Some entry -> vc !! k = Some entry.
Proof.
  destruct (vc !! newValidationKey obj) as [e|] eqn:He.
  - rewrite (proj2 (objectAlreadyValidated_run obj vc) e He).
    destruct (String.eqb _ _); cbn [snd]; [done |].
    intros Hk. by apply lookup_delete_Some in Hk as [_ Hk].
  - by rewrite (proj1 (objectAlreadyValidated_run obj vc) He).
Qed.

Lemma objectAlreadyValidated_lookup_own obj (vc : validationCache) entry :
  (objectAlreadyValidated obj vc).2 !! newValidationKey obj = Some entry ->
  rversion entry = GetResourceVersion obj.
Proof.
  destruct (vc !! newValidationKey obj) as [e|] eqn:He.
  - rewrite (proj2 (objectAlreadyValidated_run obj vc) e He).
    destruct (String.eqb _ _) eqn:Hrv; cbn [snd].
    + rewrite He. intros [= <-]. by apply String.eqb_eq.
    + by rewrite lookup_delete_eq.
  - rewrite (proj1 (objectAlreadyValidated_run obj vc) He). cbn [snd]. by rewrite He.
Qed.

Lemma reconcile_lookup_other (w : World) obj gr k :
  k <> newValidationKey obj ->
  objectValidationCache (reconcile w obj gr).2 !! k = objectValidationCache gr !! k.
Proof.
  intros Hk. rewrite reconcile_run. cbv zeta.
  pose proof (objectAlreadyValidated_other obj (objectValidationCache gr) k Hk) as Hother.
  destruct (objectAlreadyValidated obj _) as [[] vc]; cbn [snd] in Hother; [done |].
  destruct (unstructuredToTyped w obj); [| done].
  destruct (RunValidations w _ _); [| done].
  cbn. unfold store. by rewrite lookup_insert_ne.
Qed.

Lemma reconcile_lookup_own (w : World) obj gr entry :
  objectValidationCache (reconcile w obj gr).2 !! newValidationKey obj = Some entry ->
  rversion entry = GetResourceVersion obj.
Proof.
  rewrite reconcile_run. cbv zeta.
  pose proof (objectAlreadyValidated_lookup_own obj (objectValidationCache gr) entry) as Hown.
  destruct (objectAlreadyValidated obj _) as [[] vc]; cbn [snd] in Hown; [done |].
  destruct (unstructuredToTyped w obj); [| done].
  destruct (RunValidations w _ _); [| done].
  cbn. unfold store. rewrite lookup_insert_eq. by intros [= <-].
Qed.

Lemma pending_lookup_other objs (vc : validationCache) k :
  k ∉ newValidationKey <$> objs -> (pending objs vc).2 !! k = vc !! k.
Proof.
  revert vc. induction objs as [|obj objs IH]; intros vc Hk; cbn [pending]; [done |].
  rewrite fmap_cons in Hk. apply not_elem_of_cons in Hk as [Hne Hk].
  pose proof (objectAlreadyValidated_other obj vc k Hne) as Hother.
  destruct (objectAlreadyValidated obj vc) as [validated vc1]. cbn [snd] in Hother.
  specialize (IH vc1 Hk). destruct (pending objs vc1) as [l vc2]. cbn [snd] in *.
  congruence.
Qed.

Lemma pending_lookup_Some objs (vc : validationCache) k entry :
  (pending objs vc).2 !! k = Some entry -> vc !! k = Some entry.
Proof.
  revert vc. induction objs as [|obj objs IH]; intros vc; cbn [pending]; [done |].
  pose proof (objectAlreadyValidated_lookup_Some obj vc k entry) as Hsome.
  destruct (objectAlreadyValidated obj vc) as [validated vc1]. cbn [snd] in Hsome.
  specialize (IH vc1). destruct (pending objs vc1) as [l vc2]. cbn [snd] in *. auto.
Qed.

Lemma pending_lookup_own objs (vc : validationCache) obj entry :
  obj ∈ objs -> (pending objs vc).2 !! newValidationKey obj = Some entry ->
  rversion entry = GetResourceVersion obj.
Proof.
  revert vc. induction objs as [|o objs IH]; intros vc Hobj; cbn [pending].
  { by apply elem_of_nil in Hobj. }
  pose proof (objectAlreadyValidated_lookup_own o vc entry) as Hown.
  destruct (objectAlreadyValidated o vc) as [validated vc1]. cbn [snd] in Hown.
  specialize (IH vc1).
  pose proof (pending_lookup_Some objs vc1 (newValidationKey obj) entry) as Hsome.
  destruct (pending objs vc1) as [l vc2]. cbn [snd] in *.
  apply elem_of_cons in Hobj as [->|Hobj]; [auto | by apply IH].
Qed.

Lemma reconcileGroupOfObjects_lookup_other (w : World) objs namespace gr k :
  k ∉ newValidationKey <$> objs ->
  objectValidationCache (reconcileGroupOfObjects w objs namespace gr).2 !! k
  = objectValidationCache gr !! k.
Proof.
  intros Hk. rewrite reconcileGroupOfObjects_run.
  pose proof (pending_lookup_other objs (objectValidationCache gr) k Hk) as Hother.
  pose proof (pending_subseteq objs (objectValidationCache gr)) as Hsub.
  destruct (pending objs _) as [l vc]. cbn [fst snd] in *. cbv zeta.
  destruct (convertObjects w l []); [| done].
  destruct (RunValidationsForObjects w _ _); [| done].
  cbn. rewrite storeAll_lookup_other; [done |].
  intros Hin. apply Hk. apply list_elem_of_fmap in Hin as (o & -> & Ho).
  apply list_elem_of_fmap. exists o. split; [done | by apply Hsub].
Qed.

Lemma reconcileGroupOfObjects_lookup_own (w : World) objs namespace gr k entry :
  k ∈ newValidationKey <$> objs ->
  objectValidationCache (reconcileGroupOfObjects w objs namespace gr).2 !! k = Some entry ->
  exists obj, obj ∈ objs /\ newValidationKey obj = k /\
              rversion entry = GetResourceVersion obj.
Proof.
  intros Hk. rewrite reconcileGroupOfObjects_run.
  apply list_elem_of_fmap in Hk as (o & -> & Ho).
  pose proof (pending_lookup_own objs (objectValidationCache gr) o entry Ho) as Hown.
  pose proof (pending_subseteq objs (objectValidationCache gr)) as Hsub.
  destruct (pending objs _) as [l vc]. cbn [fst snd] in *. cbv zeta.
  assert (vc !! newValidationKey o = Some entry ->
          exists obj, obj ∈ objs /\ newValidationKey obj = newValidationKey o /\
                      rversion entry = GetResourceVersion obj) as Hpending.
  { intros Hentry. exists o. auto. }
  destruct (convertObjects w l []); [| done].
  destruct (RunValidationsForObjects w _ _) as [outcome|]; [| done].
  cbn. destruct (decide (newValidationKey o ∈ newValidationKey <$> l)) as [Hin|Hnotin].
  - destruct (storeAll_lookup_last l outcome vc _ Hin) as (obj & Hobj & Hkey & ->).
    intros [= <-]. exists obj. split; [by apply Hsub | done].
  - by rewrite storeAll_lookup_other.
Qed.

#[local] Instance touchesObserved_preorder : PreOrder touchesObserved.
Proof.
  split.
  - intros gr. split; [by intros k | done].
  - intros gr1 gr2 gr3 [Hlive12 Hvc12] [Hlive23 Hvc23]. split.
    + intros k Hk. auto.
    + intros k Hk. rewrite Hvc23 by done. apply Hvc12.
      destruct (currentObjects gr2 !! k) as [seen|] eqn:Hk2; [| done].
      destruct (Hlive23 k) as [seen' Hseen]; [by eauto | congruence].
Qed.

Lemma touchesObserved_processAllResources (w : World) resources :
  respects touchesObserved (processAllResources w resources).
Proof.
  apply (respects_processAllResources w touchesObserved (fun _ => True)).
  - intros gvk listOptions. by apply Forall_true.
  - intros obj _ gr. split.
    + intros k Hk. rewrite currentObjects_reconcile. apply (storeAll_lookup_is_Some [obj]).
      by left.
    + intros k. rewrite currentObjects_reconcile. intros Hk.
      apply reconcile_lookup_other. intros ->. unfold store in Hk.
      by rewrite lookup_insert_eq in Hk.
  - intros objs namespace _ gr. split.
    + intros k Hk. rewrite currentObjects_reconcileGroupOfObjects.
      apply storeAll_lookup_is_Some. by left.
    + intros k. rewrite currentObjects_reconcileGroupOfObjects. intros Hk.
      apply reconcileGroupOfObjects_lookup_other. intros Hin.
      destruct (storeAll_lookup_is_Some objs "" (currentObjects gr) k) as [seen Hseen];
        [by right | congruence].
  - intros gvk listOptions gr. split; [by intros k | done].
  - intros namespaces gr. split; [by intros k | done].
Qed.

#[local] Instance keepsObservedAsServed_preorder (w : World) :
  PreOrder (keepsObservedAsServed w).
Proof. split; [by intros gr H | intros gr1 gr2 gr3 H12 H23 H; auto]. Qed.

Lemma keepsObservedAsServed_reconcile (w : World) obj :
  servedBy w obj -> respects (keepsObservedAsServed w) (reconcile w obj).
Proof.
  intros Hobj gr Hgr k. rewrite currentObjects_reconcile. intros Hk.
  destruct (decide (k = newValidationKey obj)) as [->|Hne].
  - split; [by exists obj |]. intros entry Hentry. exists obj.
    split; [done |]. split; [done |]. by apply (reconcile_lookup_own w obj gr).
  - unfold store in Hk. rewrite lookup_insert_ne in Hk by done.
    rewrite reconcile_lookup_other by done. by apply Hgr.
Qed.

Lemma keepsObservedAsServed_reconcileGroupOfObjects (w : World) objs namespace :
  Forall (fun obj => servedBy w obj /\ labelled obj) objs ->
  respects (keepsObservedAsServed w) (reconcileGroupOfObjects w objs namespace).
Proof.
  intros Hobjs gr Hgr k. rewrite currentObjects_reconcileGroupOfObjects. intros Hk.
  rewrite Forall_forall in Hobjs.
  destruct (decide (k ∈ newValidationKey <$> objs)) as [Hin|Hnotin].
  - split.
    + apply list_elem_of_fmap in Hin as (o & -> & Ho). exists o.
      split; [by apply Hobjs | done].
    + intros entry Hentry.
      destruct (reconcileGroupOfObjects_lookup_own w objs namespace gr k entry Hin Hentry)
        as (o & Ho & Hkey & Hrv).
      exists o. split; [by apply Hobjs | done].
  - rewrite reconcileGroupOfObjects_lookup_other by done. apply Hgr.
    by apply storeAll_lookup_inv in Hk as [Hk|Hk].
Qed.

Lemma keepsObservedAsServed_processAllResources (w : World) resources :
  respects (keepsObservedAsServed w) (processAllResources w resources).
Proof.
  apply (respects_processAllResources w (keepsObservedAsServed w) (servedBy w)).
  - intros gvk listOptions. apply Forall_forall. intros o Ho. by exists gvk, listOptions.
  - intros obj. apply keepsObservedAsServed_reconcile.
  - intros objs namespace. apply keepsObservedAsServed_reconcileGroupOfObjects.
  - by intros gvk listOptions gr Hgr.
  - by intros namespaces gr Hgr.
Qed.

(** X14. While the kinds and the namespaces of a pass are processed, with or
    without an error, the cache changes at no identity but those recorded in
    the set of current objects: the entry of any other identity, or its
    absence, is as before. *)
Theorem processing_changes_observed_entries_only (w : World) (resources : list APIResource)
    (gr : GenericReconciler) (k : validationKey) :
  currentObjects (processAllResources w resources gr).2 !! k = None ->
  objectValidationCache (processAllResources w resources gr).2 !! k
  = objectValidationCache gr !! k.
Proof. apply touchesObserved_processAllResources. Qed.

Lemma processing_changes_observed_entries_only_witness :
  objectValidationCache
    (processAllResources Example.healthy Example.kinds
       (setObjectValidationCache (store (Example.node "n0" "1") "valid" ∅) Example.start)).2
    !! newValidationKey (Example.node "n0" "1")
  = Some (newValidationResource "1" "uid-n0" "valid").
Proof.
  rewrite (processing_changes_observed_entries_only Example.healthy Example.kinds
             (setObjectValidationCache (store (Example.node "n0" "1") "valid" ∅)
                Example.start)
             (newValidationKey (Example.node "n0" "1"))).
  - reflexivity.
  - vm_compute. reflexivity.
Defined.

(** X15. After a pass without error that began with an empty set of current
    objects, the cache holds nothing but entries of objects that the cluster
    of the pass serves: every entry is under the identity of an object that
    some list request is answered with, and at the revision of such an
    object of that identity. *)
Theorem pass_keeps_entries_of_served_objects_only (w : World) (gr : GenericReconciler)
    (k : validationKey) (entry : validationResource) :
  currentObjects gr = ∅ ->
  (reconcileEverything w gr).1 = None ->
  objectValidationCache (reconcileEverything w gr).2 !! k = Some entry ->
  exists obj, servedBy w obj /\ newValidationKey obj = k /\
              rversion entry = GetResourceVersion obj.
Proof.
  intros Hlive. rewrite reconcileEverything_run.
  destruct (reconcileResourceList w) as [apiResources|err]; [| done]. cbv zeta.
  pose proof (keepsObservedAsServed_processAllResources w apiResources
                (setWatchNamespacesOf None gr)) as Hserved.
  destruct (processAllResources w apiResources _) as [[err|] gr1]; cbn [fst snd] in *;
    [done |].
  intros _ Hentry.
  destruct (handleResourceDeletions_run w gr1) as (_ & _ & _ & _ & Hvc).
  rewrite Hvc in Hentry. apply map_lookup_filter_Some in Hentry as [Hentry Hk].
  cbn [fst] in Hk. apply (Hserved ltac:(by intros k'; cbn; rewrite Hlive, lookup_empty;
                                        intros [? ?]) k Hk).
  exact Hentry.
Qed.

Lemma pass_keeps_entries_of_served_objects_only_witness :
  exists obj, servedBy Example.healthy obj /\
              newValidationKey obj = newValidationKey (Example.node "n1" "1") /\
              rversion (newValidationResource "1" "uid-n1" "valid") = GetResourceVersion obj.
Proof.
  apply (pass_keeps_entries_of_served_objects_only Example.healthy
           (setObjectValidationCache (store (Example.node "n0" "1") "valid" ∅) Example.start)).
  - reflexivity.
  - vm_compute. reflexivity.
  - vm_compute. reflexivity.
Defined.

#[local] Instance sameNamespaces_preorder : PreOrder sameNamespaces.
Proof.
  split; [by intros gr | intros gr1 gr2 gr3 H12 H23].
  unfold sameNamespaces in *. congruence.
Qed.

Lemma sameNamespaces_reconcile (w : World) obj : respects sameNamespaces (reconcile w obj).
Proof.
  intros gr. unfold sameNamespaces. rewrite reconcile_run. cbv zeta.
  destruct (objectAlreadyValidated obj _) as [[] vc]; [done |].
  destruct (unstructuredToTyped w obj); [| done].
  by destruct (RunValidations w _ _).
Qed.

Lemma sameNamespaces_reconcileGroupOfObjects (w : World) objs namespace :
  respects sameNamespaces (reconcileGroupOfObjects w objs namespace).
Proof.
  intros gr. unfold sameNamespaces. rewrite reconcileGroupOfObjects_run. cbv zeta.
  destruct (pending objs _) as [l vc].
  destruct (convertObjects w l []); [| done].
  by destruct (RunValidationsForObjects w _ _).
Qed.

Lemma watchNamespaces_processNamespacedResources (w : World) gvks gr :
  watchNamespaces gr = None ->
  (processNamespacedResources w gvks gr).1 = None ->
  exists namespaces,
    queryNamespaces w = Ok namespaces /\
    watchNamespaces (processNamespacedResources w gvks gr).2 = Some namespaces.
Proof.
  intros Hnone. unfold processNamespacedResources, getWatchNamespaces.
  rewrite !bind_unfold. cbn [gets fst snd]. rewrite Hnone.
  destruct (queryNamespaces w) as [namespaces|err]; [| done].
  rewrite !bind_unfold. cbn [setWatchNamespaces ret fst snd].
  pose proof (respects_reconcileNamespaces w sameNamespaces (fun _ => True)
                ltac:(by intros; apply Forall_true)
                ltac:(by intros; apply sameNamespaces_reconcileGroupOfObjects)
                ltac:(by intros gvk listOptions gr0)
                namespaces gvks (setWatchNamespacesOf (Some namespaces) gr)) as Hkept.
  intros _. exists namespaces. split; [done | exact Hkept].
Qed.

Lemma watchNamespaces_processAllResources (w : World) resources gr :
  watchNamespaces gr = None ->
  (processAllResources w resources gr).1 = None ->
  exists namespaces,
    queryNamespaces w = Ok namespaces /\
    watchNamespaces (processAllResources w resources gr).2 = Some namespaces.
Proof.
  intros Hnone. unfold processAllResources. rewrite bind_unfold.
  pose proof (respects_processResources w sameNamespaces (fun _ => True)
                ltac:(by intros; apply Forall_true)
                ltac:(by intros; apply sameNamespaces_reconcile)
                ltac:(by intros gvk listOptions gr0)
                resources None [] gr) as Hsame.
  destruct (processResources w resources None [] gr) as [[finalErr gvks] gr1].
  cbn [fst snd] in *. unfold sameNamespaces in Hsame. rewrite Hnone in Hsame.
  rewrite bind_unfold.
  pose proof (watchNamespaces_processNamespacedResources w gvks gr1 Hsame) as Hwatch.
  destruct (processNamespacedResources w gvks gr1) as [[err|] gr2]; cbn [fst snd ret] in *.
  - by destruct finalErr.
  - intros _. by apply Hwatch.
Qed.

Lemma extends_processAllResources (w : World) resources :
  respects extends (processAllResources w resources).
Proof.
  apply (respects_processAllResources w extends (fun _ => True)).
  - intros gvk listOptions. by apply Forall_true.
  - intros obj _. apply extends_reconcile.
  - intros objs namespace _. apply extends_reconcileGroupOfObjects.
  - intros gvk listOptions. apply extends_call.
  - intros namespaces. apply extends_setWatchNamespaces.
Qed.

(** X16. In a pass without error that began with an empty set of current
    objects, a cache entry under an identity that no object has with which
    the cluster answers a list request is reclaimed: the entry is gone when
    the pass ends, and among the effects of the pass there is the deletion
    signal for the identity, with the cached owner identifier and the
    namespace identifier resolved among the namespaces that were queried in
    this pass. *)
Theorem unserved_entry_is_reclaimed (w : World) (gr : GenericReconciler)
    (k : validationKey) (entry : validationResource) :
  currentObjects gr = ∅ ->
  (reconcileEverything w gr).1 = None ->
  objectValidationCache gr !! k = Some entry ->
  notServed w k ->
  objectValidationCache (reconcileEverything w gr).2 !! k = None /\
  exists namespaces new,
    queryNamespaces w = Ok namespaces /\
    effects (reconcileEverything w gr).2 = effects gr ++ new /\
    DeleteMetricsCall
      {| Request.Kind := kind k;
         Request.Name := name k;
         Request.Namespace := namespace k;
         Request.NamespaceUID := lookupNamespaceUID namespaces (namespace k);
         Request.UID := uid entry |} ∈ new.
Proof.
  intros Hlive. rewrite reconcileEverything_run.
  destruct (reconcileResourceList w) as [apiResources|err]; [| done]. cbv zeta.
  pose proof (keepsObservedAsServed_processAllResources w apiResources
                (setWatchNamespacesOf None gr)) as Hserved.
  pose proof (touchesObserved_processAllResources w apiResources
                (setWatchNamespacesOf None gr)) as [_ Hframe].
  pose proof (extends_processAllResources w apiResources
                (setWatchNamespacesOf None gr)) as [_ [new1 Hnew1]].
  pose proof (watchNamespaces_processAllResources w apiResources
                (setWatchNamespacesOf None gr) eq_refl) as Hwatch.
  destruct (processAllResources w apiResources _) as [[err|] gr1]; cbn [fst snd] in *;
    [done |].
  intros _ Hentry Hunserved.
  destruct (Hwatch eq_refl) as (namespaces & Hquery & Hnamespaces).
  assert (currentObjects gr1 !! k = None) as Hgone.
  { destruct (currentObjects gr1 !! k) as [seen|] eqn:Hk; [| done].
    destruct (Hserved ltac:(by intros k'; cbn; rewrite Hlive, lookup_empty; intros [? ?])
                k ltac:(by eauto)) as [(obj & Hobj & Hkey) _].
    by destruct (Hunserved obj Hobj). }
  assert (objectValidationCache gr1 !! k = Some entry) as Hentry1.
  { by rewrite Hframe. }
  destruct (handleResourceDeletions_run w gr1) as (_ & _ & _ & Heffects & Hvc).
  split.
  - rewrite Hvc. apply map_lookup_filter_None. right. intros entry' _ [seen Hseen].
    cbn [fst] in Hseen. congruence.
  - exists namespaces. eexists. split; [done |]. split.
    + rewrite Heffects, Hnew1. cbn [effects setWatchNamespacesOf].
      rewrite <- app_assoc. reflexivity.
    + apply elem_of_app. right.
      apply list_elem_of_fmap. exists (k, entry). split.
      * unfold deletionSignal, resolveNamespaceUID. by rewrite Hnamespaces.
      * apply list_elem_of_filter. split; [exact Hgone |].
        rewrite (rangeOrder_perm w). by apply elem_of_map_to_list.
Qed.

Lemma unserved_entry_is_reclaimed_witness :
  objectValidationCache
    (reconcileEverything Example.healthy
       (setObjectValidationCache (store (Example.node "n0" "1") "valid" ∅) Example.start)).2
    !! newValidationKey (Example.node "n0" "1") = None /\
  exists namespaces new,
    queryNamespaces Example.healthy = Ok namespaces /\
    effects
      (reconcileEverything Example.healthy
         (setObjectValidationCache (store (Example.node "n0" "1") "valid" ∅)
            Example.start)).2
    = effects
        (setObjectValidationCache (store (Example.node "n0" "1") "valid" ∅) Example.start)
      ++ new /\
    DeleteMetricsCall
      {| Request.Kind := "Node";
         Request.Name := "n0";
         Request.Namespace := "";
         Request.NamespaceUID := lookupNamespaceUID namespaces "";
         Request.UID := "uid-n0" |} ∈ new.
Proof.
  apply (unserved_entry_is_reclaimed Example.healthy
           (setObjectValidationCache (store (Example.node "n0" "1") "valid" ∅) Example.start)
           (newValidationKey (Example.node "n0" "1"))
           (newValidationResource "1" "uid-n0" "valid")).
  - reflexivity.
  - vm_compute. reflexivity.
  - reflexivity.
  - intros obj (gvk & listOptions & Hobj) Hkey.
    unfold Example.healthy, Example.cluster, Example.clusterOf in Hobj. cbn in Hobj.
    repeat (destruct (String.eqb (Kind gvk) _); cbn in Hobj);
      repeat (apply elem_of_cons in Hobj as [->|Hobj]; [by vm_compute in Hkey |]);
      by apply elem_of_nil in Hobj.
Defined.

(** * The list requests of a pass *)

Section Scope.

Context (limit : Z) (ok : effect -> Prop).

Hypothesis ok_other : forall e, isListCall e = false -> ok e.

#[local] Instance staysInScope_preorder : PreOrder (staysInScope limit ok).
Proof.
  split.
  - intros gr Hlimit. split; [done |]. exists []. by rewrite app_nil_r.
  - intros gr1 gr2 gr3 H12 H23 Hlimit.
    destruct (H12 Hlimit) as (Hlimit2 & new1 & Hnew1 & Hok1).
    destruct (H23 Hlimit2) as (Hlimit3 & new2 & Hnew2 & Hok2).
    split; [done |]. exists (new1 ++ new2). split.
    + by rewrite Hnew2, Hnew1, app_assoc.
    + by apply Forall_app.
Qed.

Lemma staysInScope_same gr gr' :
  listLimit gr' = listLimit gr -> effects gr' = effects gr -> staysInScope limit ok gr gr'.
Proof.
  intros Hlimit Heffects Hgr. split; [congruence |]. exists []. by rewrite app_nil_r.
Qed.

Lemma staysInScope_one gr gr' e :
  listLimit gr' = listLimit gr -> effects gr' = effects gr ++ [e] -> ok e ->
  staysInScope limit ok gr gr'.
Proof.
  intros Hlimit Heffects He Hgr. split; [congruence |]. exists [e].
  split; [done | by apply Forall_singleton].
Qed.

Lemma staysInScope_reconcile (w : World) obj :
  respects (staysInScope limit ok) (reconcile w obj).
Proof.
  intros gr. rewrite reconcile_run. cbv zeta.
  destruct (objectAlreadyValidated obj _) as [[] vc]; [by apply staysInScope_same |].
  destruct (unstructuredToTyped w obj); [| by apply staysInScope_same].
  destruct (RunValidations w _ _); by eapply staysInScope_one; [| | apply ok_other].
Qed.

Lemma staysInScope_reconcileGroupOfObjects (w : World) objs namespace :
  respects (staysInScope limit ok) (reconcileGroupOfObjects w objs namespace).
Proof.
  intros gr. rewrite reconcileGroupOfObjects_run. cbv zeta.
  destruct (pending objs _) as [l vc].
  destruct (convertObjects w l []); [| by apply staysInScope_same].
  destruct (RunValidationsForObjects w _ _);
    by eapply staysInScope_one; [| | apply ok_other].
Qed.

Lemma staysInScope_call gvk listOptions :
  ok (ListCall gvk listOptions) ->
  respects (staysInScope limit ok) (call (ListCall gvk listOptions)).
Proof. intros Hok gr. by eapply staysInScope_one. Qed.

Lemma listsOk_setContinue gvk listOptions listContinue :
  listsOk limit ok gvk (Namespace listOptions) -> Limit listOptions = limit ->
  ok (ListCall gvk (setContinue listContinue listOptions)).
Proof. intros Hok Hlimit. by apply Hok. Qed.

Lemma staysInScope_paginatedListLoop (w : World) gvk listOptions pages :
  listsOk limit ok gvk (Namespace listOptions) -> Limit listOptions = limit ->
  respects (staysInScope limit ok) (paginatedListLoop w gvk listOptions pages).
Proof.
  revert listOptions.
  induction pages as [err|items|items listContinue next IH]; intros listOptions Hok Hlimit;
    cbn [paginatedListLoop];
    (apply respects_bind; [apply _ | by apply staysInScope_call, Hok | intros _]).
  - apply respects_ret, _.
  - apply (respects_reconcileItems w _ (fun _ => True)); [| by apply Forall_true].
    intros obj _. apply staysInScope_reconcile.
  - apply respects_bind; [apply _ | |].
    + apply (respects_reconcileItems w _ (fun _ => True)); [| by apply Forall_true].
      intros obj _. apply staysInScope_reconcile.
    + intros [err|]; [apply respects_ret, _ |].
      destruct (String.eqb listContinue ""); [apply respects_ret, _ |].
      by apply IH.
Qed.

Lemma staysInScope_processClusterscopedResources (w : World) gvk :
  listsOk limit ok (listKindOf gvk) "" ->
  respects (staysInScope limit ok) (processClusterscopedResources w gvk).
Proof.
  intros Hok gr Hlimit.
  unfold processClusterscopedResources, processObjectInstances, paginatedList.
  rewrite !bind_unfold. cbn [gets fst snd].
  pose proof (staysInScope_paginatedListLoop w (listKindOf gvk)
                {| Limit := listLimit gr; Namespace := ""; Continue := "" |}
                (clientList w (listKindOf gvk)
                   {| Limit := listLimit gr; Namespace := ""; Continue := "" |})
                Hok Hlimit gr Hlimit) as Hloop.
  fold (listKindOf gvk).
  by destruct (paginatedListLoop w (listKindOf gvk) _ _ gr) as [[err|] gr1].
Qed.

Lemma staysInScope_groupPages gvk listOptions pages relatedObjects :
  listsOk limit ok gvk (Namespace listOptions) -> Limit listOptions = limit ->
  respects (staysInScope limit ok) (groupPages gvk listOptions pages relatedObjects).
Proof.
  revert listOptions relatedObjects.
  induction pages as [err|items|items listContinue next IH];
    intros listOptions relatedObjects Hok Hlimit; cbn [groupPages];
    (apply respects_bind; [apply _ | by apply staysInScope_call, Hok | intros _]).
  - apply respects_ret, _.
  - apply respects_ret, _.
  - destruct (String.eqb listContinue ""); [apply respects_ret, _ |]. by apply IH.
Qed.

Lemma staysInScope_groupKinds (w : World) namespace gvks relatedObjects :
  Forall (fun gvk => listsOk limit ok gvk namespace) gvks ->
  respects (staysInScope limit ok) (groupKinds w namespace gvks relatedObjects).
Proof.
  intros Hgvks. revert relatedObjects.
  induction Hgvks as [|gvk gvks Hgvk _ IH]; intros relatedObjects; cbn [groupKinds].
  { apply respects_ret, _. }
  intros gr Hlimit.
  cut (staysInScope limit ok gr (groupKinds w namespace (gvk :: gvks) relatedObjects gr).2);
    [by intros Hcut; apply Hcut |].
  cbn [groupKinds]. rewrite bind_unfold. cbn [gets fst snd]. rewrite bind_unfold.
  pose proof (staysInScope_groupPages gvk
                {| Limit := listLimit gr; Namespace := namespace; Continue := "" |}
                (clientList w gvk
                   {| Limit := listLimit gr; Namespace := namespace; Continue := "" |})
                relatedObjects Hgvk Hlimit gr) as Hpages.
  destruct (groupPages gvk _ _ relatedObjects gr) as [[related|err] gr1];
    cbn [fst snd ret] in *; [| done].
  by transitivity gr1; [| apply IH].
Qed.

Lemma staysInScope_reconcileGroups (w : World) groups namespace :
  respects (staysInScope limit ok) (reconcileGroups w groups namespace).
Proof.
  induction groups as [|[label objs] rest IH]; cbn [reconcileGroups].
  { apply respects_ret, _. }
  apply respects_bind; [apply _ | apply staysInScope_reconcileGroupOfObjects |].
  intros [err|]; [apply respects_ret, _ | done].
Qed.

Lemma staysInScope_reconcileNamespaces (w : World) namespaces gvks :
  Forall (fun ns => Forall (fun gvk => listsOk limit ok gvk (nsName ns)) gvks) namespaces ->
  respects (staysInScope limit ok) (reconcileNamespaces w namespaces gvks).
Proof.
  induction 1 as [|ns namespaces Hns _ IH]; cbn [reconcileNamespaces].
  { apply respects_ret, _. }
  apply respects_bind; [apply _ | by apply staysInScope_groupKinds |].
  intros [relatedObjects|err]; [| apply respects_ret, _].
  apply respects_bind; [apply _ | apply staysInScope_reconcileGroups |].
  intros [err|]; [apply respects_ret, _ | done].
Qed.

Lemma staysInScope_processResources (w : World) resources finalErr namespacedResources :
  Forall (fun resource => Namespaced resource = false ->
            listsOk limit ok (listKindOf (gvkFromMetav1APIResource resource)) "")
    resources ->
  respects (staysInScope limit ok)
    (processResources w resources finalErr namespacedResources).
Proof.
  intros Hresources. revert finalErr namespacedResources.
  induction Hresources as [|resource rest Hresource _ IH];
    intros finalErr namespacedResources; cbn [processResources].
  { apply respects_ret, _. }
  destruct (Namespaced resource); [done |].
  apply respects_bind; [apply _ | by apply staysInScope_processClusterscopedResources, Hresource |].
  by intros [err|].
Qed.

End Scope.

Lemma staysInScope_processAllResources (w : World) resources gr :
  watchNamespaces gr = None ->
  staysInScope (listLimit gr) (inScope (listLimit gr) resources (queried w))
    gr (processAllResources w resources gr).2.
Proof.
  intros Hnone.
  set (ok := inScope (listLimit gr) resources (queried w)).
  assert (forall e, isListCall e = false -> ok e) as ok_other by (by intros []).
  pose proof (staysInScope_preorder (listLimit gr) ok) as Hpreorder.
  unfold processAllResources. rewrite bind_unfold.
  pose proof (respects_processResources w sameNamespaces (fun _ => True)
                ltac:(by intros; apply Forall_true)
                ltac:(by intros; apply sameNamespaces_reconcile)
                ltac:(by intros gvk listOptions gr0)
                resources None [] gr) as Hsame.
  pose proof (staysInScope_processResources (listLimit gr) ok ok_other w
                (clusterScoped resources) None []) as Hcluster.
  rewrite processResources_by_scope in *. cbn [fst snd app] in *.
  set (gr1 := (processResources w (clusterScoped resources) None [] gr).2) in *.
  set (finalErr := (processResources w (clusterScoped resources) None [] gr).1.1) in *.
  unfold sameNamespaces in Hsame. rewrite Hnone in Hsame.
  transitivity gr1.
  { apply Hcluster. apply Forall_forall. intros resource Hresource Hscope listOptions Hl Hn.
    apply list_elem_of_In, List.filter_In in Hresource as [Hresource _].
    split; [done |]. left. split; [done |]. exists resource.
    split; [by apply list_elem_of_In | done]. }
  rewrite bind_unfold.
  cut (staysInScope (listLimit gr) ok gr1
         (processNamespacedResources w (gvkFromMetav1APIResource <$> namespaced resources)
            gr1).2).
  { by destruct (processNamespacedResources w _ gr1) as [[err|] gr2]. }
  unfold processNamespacedResources, getWatchNamespaces.
  rewrite !bind_unfold. cbn [gets fst snd]. rewrite Hsame.
  destruct (queryNamespaces w) as [namespaces|err] eqn:Hquery; [| reflexivity].
  rewrite !bind_unfold. cbn [setWatchNamespaces ret fst snd].
  transitivity (setWatchNamespacesOf (Some namespaces) gr1).
  { by apply staysInScope_same. }
  apply staysInScope_reconcileNamespaces; [done |].
  apply Forall_forall. intros ns Hns. apply Forall_forall. intros gvk Hgvk.
  apply list_elem_of_fmap in Hgvk as (resource & -> & Hresource).
  apply list_elem_of_In, List.filter_In in Hresource as [Hresource Hscope].
  intros listOptions Hl Hn. split; [done |]. right. split.
  - unfold queried. rewrite Hquery, Hn. apply list_elem_of_fmap. by exists ns.
  - exists resource. split; [by apply list_elem_of_In | done].
Qed.

(** X17. The list requests of a pass stay within its scope, whether the pass
    returns an error or not: each has the page size of the reconciler, and
    is either a request without a namespace for the list kind of a
    cluster-scoped kind that the discovery answered with, or a request for a
    namespaced kind of that answer in one of the namespaces that the query
    for the watched namespaces answered with.  So no namespace outside the
    watched ones is listed, and nothing is listed when the discovery fails. *)
Theorem pass_lists_within_scope (w : World) (gr : GenericReconciler) :
  exists new,
    effects (reconcileEverything w gr).2 = effects gr ++ new /\
    Forall (inScope (listLimit gr) (discovered w) (queried w)) new.
Proof.
  rewrite reconcileEverything_run. unfold discovered.
  destruct (reconcileResourceList w) as [apiResources|err].
  2:{ exists []. by rewrite app_nil_r. }
  cbv zeta.
  destruct (staysInScope_processAllResources w apiResources (setWatchNamespacesOf None gr)
              eq_refl eq_refl) as (_ & new1 & Hnew1 & Hok1).
  cbn [listLimit effects setWatchNamespacesOf] in *.
  destruct (processAllResources w apiResources _) as [[err|] gr1]; cbn [fst snd] in *.
  - by exists new1.
  - destruct (handleResourceDeletions_run w gr1) as (_ & _ & _ & Heffects & _).
    eexists. split.
    + rewrite Heffects, Hnew1, <- app_assoc. reflexivity.
    + apply Forall_app. split; [done |]. apply Forall_forall. intros e He.
      by apply list_elem_of_fmap in He as (entry & -> & _).
Qed.

(** * The page size from the environment *)

(** X18. The reconciler is made with the page size from the environment: when
    the variable is not set, or set to the empty string, with the default
    page size; when it is set to anything else, with the number it is read
    as, and when it cannot be read as a number the error of the reading is
    returned as it is and no reconciler is made, the default not being
    used.  A reconciler that is made has empty caches and no watched
    namespaces resolved. *)
Theorem NewGenericReconciler_page_size (EnvResorucesPerListQuery : string)
    (defaultListLimit : Z) (Atoi : string -> result Z) (env : gmap string string) :
  let new := NewGenericReconcilerIn EnvResorucesPerListQuery defaultListLimit Atoi env in
  (env !! EnvResorucesPerListQuery = None \/ env !! EnvResorucesPerListQuery = Some "" ->
   new = Ok (NewGenericReconciler defaultListLimit)) /\
  (forall strVal, env !! EnvResorucesPerListQuery = Some strVal -> strVal <> "" ->
     (forall intVal, Atoi strVal = Ok intVal -> new = Ok (NewGenericReconciler intVal)) /\
     (forall err, Atoi strVal = Err err -> new = Err err)) /\
  (forall gr, new = Ok gr ->
     getListLimit EnvResorucesPerListQuery defaultListLimit Atoi env = Ok (listLimit gr) /\
     objectValidationCache gr = ∅ /\ currentObjects gr = ∅ /\
     watchNamespaces gr = None /\ effects gr = []).
Proof.
  cbv zeta. unfold NewGenericReconcilerIn, getListLimit, defaultOrEnv, intFromEnv.
  split; [| split].
  - by intros [->| ->].
  - intros strVal -> Hne. apply String.eqb_neq in Hne. rewrite Hne.
    split; [by intros intVal -> | by intros err ->].
  - intros gr. destruct (env !! EnvResorucesPerListQuery) as [strVal|].
    + destruct (String.eqb strVal ""); [by intros [= <-] |].
      destruct (Atoi strVal); [by intros [= <-] | done].
    + by intros [= <-].
Qed.

Lemma NewGenericReconciler_page_size_witness :
  NewGenericReconcilerIn "RESOURCES_PER_LIST_QUERY" 5 (fun _ => Ok 7%Z)
    (<["RESOURCES_PER_LIST_QUERY" := ""]> ∅)
  = Ok (NewGenericReconciler 5) /\
  NewGenericReconcilerIn "RESOURCES_PER_LIST_QUERY" 5 (fun _ => Ok 7%Z)
    (<["RESOURCES_PER_LIST_QUERY" := "7"]> ∅)
  = Ok (NewGenericReconciler 7).
Proof.
  split.
  - apply (NewGenericReconciler_page_size "RESOURCES_PER_LIST_QUERY" 5 (fun _ => Ok 7%Z)
             (<["RESOURCES_PER_LIST_QUERY" := ""]> ∅)).
    right. reflexivity.
  - apply (proj1 (proj2 (NewGenericReconciler_page_size "RESOURCES_PER_LIST_QUERY" 5
                           (fun _ => Ok 7%Z) (<["RESOURCES_PER_LIST_QUERY" := "7"]> ∅)))
           "7"%string).
    + reflexivity.
    + discriminate.
    + reflexivity.
Defined.

(** * A pass without kinds *)

Lemma reconcileNamespaces_no_kinds (w : World) namespaces gr :
  reconcileNamespaces w namespaces [] gr = (None, gr).
Proof.
  induction namespaces as [|ns namespaces IH]; [done |].
  cbn [reconcileNamespaces]. rewrite bind_unfold. cbn [groupAppObjects groupKinds ret fst snd].
  rewrite map_to_list_empty.
  pose proof (rangeOrder_perm w _ (@nil (string * list Unstructured))) as Hperm.
  apply Permutation_nil_r in Hperm. rewrite Hperm. by rewrite bind_unfold.
Qed.

Lemma filter_all {A} (P : A -> Prop) `{!forall x, Decision (P x)} (l : list A) :
  Forall P l -> filter P l = l.
Proof.
  induction 1 as [|x l Hx _ IH]; [done |]. by rewrite filter_cons_True, IH.
Qed.

(** X19. A pass whose discovery answers without an error and without a
    kind, whose watched namespaces are resolved, and that began with an empty
    set of current objects, returns no error and reclaims the whole cache:
    the cache is empty afterwards, and the effects of the pass are the
    deletion signals of all the entries the cache had, one for each, in the
    order the range visits them, and nothing else: no list request and no
    call of the validation engine. *)
Theorem pass_without_kinds_reclaims_the_cache (w : World) (gr : GenericReconciler)
    (namespaces : list watchedNamespace) :
  reconcileResourceList w = Ok [] ->
  queryNamespaces w = Ok namespaces ->
  currentObjects gr = ∅ ->
  (reconcileEverything w gr).1 = None /\
  objectValidationCache (reconcileEverything w gr).2 = ∅ /\
  exists entries,
    entries ≡ₚ map_to_list (objectValidationCache gr) /\
    effects (reconcileEverything w gr).2
    = effects gr
      ++ (deletionSignal (setWatchNamespacesOf (Some namespaces) gr) <$> entries).
Proof.
  intros Hkinds Hquery Hlive. rewrite reconcileEverything_run, Hkinds. cbv zeta.
  assert (processAllResources w [] (setWatchNamespacesOf None gr)
          = (None, setWatchNamespacesOf (Some namespaces) gr)) as ->.
  { unfold processAllResources. cbn [processResources]. rewrite !bind_unfold.
    cbn [ret fst snd]. unfold processNamespacedResources, getWatchNamespaces.
    rewrite !bind_unfold. cbn [gets fst snd watchNamespaces setWatchNamespacesOf].
    rewrite Hquery, !bind_unfold. cbn [setWatchNamespaces ret fst snd].
    by rewrite reconcileNamespaces_no_kinds. }
  cbn [fst snd]. split; [done |].
  destruct (handleResourceDeletions_run w (setWatchNamespacesOf (Some namespaces) gr))
    as (_ & _ & _ & Heffects & Hvc).
  cbn [objectValidationCache currentObjects effects setWatchNamespacesOf] in *. split.
  - rewrite Hvc, Hlive. apply map_empty. intros k. apply map_lookup_filter_None. right.
    intros entry _ [seen Hseen]. by rewrite lookup_empty in Hseen.
  - exists (rangeOrder w _ (map_to_list (objectValidationCache gr))).
    split; [apply rangeOrder_perm |].
    rewrite Heffects. do 2 f_equal. rewrite Hlive.
    apply filter_all, Forall_forall. by intros entry _.
Qed.

Lemma pass_without_kinds_reclaims_the_cache_witness :
  objectValidationCache
    (reconcileEverything
       (mkWorld (Ok []) (Ok []) (clientList Example.healthy) (schemeNew Example.healthy)
          (FromUnstructured Example.healthy) (RunValidations Example.healthy)
          (RunValidationsForObjects Example.healthy) Example.inOrder
          (fun A l => Permutation_refl l))
       (setObjectValidationCache (store (Example.node "n1" "1") "valid" ∅) Example.start)).2
  = ∅.
Proof.
  apply (pass_without_kinds_reclaims_the_cache _ _ []); reflexivity.
Defined.

(** * A pass that fails keeps the set of current objects *)

#[local] Instance sendsNoDeletion_preorder : PreOrder sendsNoDeletion.
Proof.
  split.
  - intros gr. exists []. by rewrite app_nil_r.
  - intros gr1 gr2 gr3 (new1 & Hnew1 & Hok1) (new2 & Hnew2 & Hok2).
    exists (new1 ++ new2). split; [by rewrite Hnew2, Hnew1, app_assoc | by apply Forall_app].
Qed.

Lemma sendsNoDeletion_same gr gr' : effects gr' = effects gr -> sendsNoDeletion gr gr'.
Proof. intros Heffects. exists []. by rewrite app_nil_r. Qed.

Lemma sendsNoDeletion_one gr gr' e :
  effects gr' = effects gr ++ [e] -> isDeleteMetricsCall e = false -> sendsNoDeletion gr gr'.
Proof. intros Heffects He. exists [e]. split; [done | by apply Forall_singleton]. Qed.

Lemma sendsNoDeletion_processAllResources (w : World) resources :
  respects sendsNoDeletion (processAllResources w resources).
Proof.
  apply (respects_processAllResources w sendsNoDeletion (fun _ => True)).
  - intros gvk listOptions. by apply Forall_true.
  - intros obj _ gr. rewrite reconcile_run. cbv zeta.
    destruct (objectAlreadyValidated obj _) as [[] vc]; [by apply sendsNoDeletion_same |].
    destruct (unstructuredToTyped w obj); [| by apply sendsNoDeletion_same].
    destruct (RunValidations w _ _); by eapply sendsNoDeletion_one.
  - intros objs namespace _ gr. rewrite reconcileGroupOfObjects_run. cbv zeta.
    destruct (pending objs _) as [l vc].
    destruct (convertObjects w l []); [| by apply sendsNoDeletion_same].
    destruct (RunValidationsForObjects w _ _); by eapply sendsNoDeletion_one.
  - intros gvk listOptions gr. by eapply sendsNoDeletion_one.
  - intros namespaces gr. by apply sendsNoDeletion_same.
Qed.

Lemma keepsCurrent_reconcile (w : World) obj : respects keepsCurrent (reconcile w obj).
Proof.
  intros gr k Hk. rewrite currentObjects_reconcile.
  apply (storeAll_lookup_is_Some [obj]). by left.
Qed.

Lemma keepsCurrent_reconcileGroupOfObjects (w : World) objs namespace :
  respects keepsCurrent (reconcileGroupOfObjects w objs namespace).
Proof.
  intros gr k Hk. rewrite currentObjects_reconcileGroupOfObjects.
  apply storeAll_lookup_is_Some. by left.
Qed.

Lemma keepsCurrent_processResources (w : World) resources finalErr namespacedResources :
  respects keepsCurrent (processResources w resources finalErr namespacedResources).
Proof.
  apply (respects_processResources w keepsCurrent (fun _ => True)).
  - intros gvk listOptions. by apply Forall_true.
  - intros obj _. apply keepsCurrent_reconcile.
  - by intros gvk listOptions gr k Hk.
Qed.

Lemma keepsCurrent_reconcileNamespaces (w : World) namespaces gvks :
  respects keepsCurrent (reconcileNamespaces w namespaces gvks).
Proof.
  apply (respects_reconcileNamespaces w keepsCurrent (fun _ => True)).
  - intros gvk listOptions. by apply Forall_true.
  - intros objs namespace _. apply keepsCurrent_reconcileGroupOfObjects.
  - by intros gvk listOptions gr k Hk.
Qed.

Lemma keepsCurrent_processNamespacedResources (w : World) gvks :
  respects keepsCurrent (processNamespacedResources w gvks).
Proof.
  apply (respects_processNamespacedResources w keepsCurrent (fun _ => True)).
  - intros gvk listOptions. by apply Forall_true.
  - intros objs namespace _. apply keepsCurrent_reconcileGroupOfObjects.
  - by intros gvk listOptions gr k Hk.
  - by intros namespaces gr k Hk.
Qed.

Lemma keepsCurrent_processClusterscopedResources (w : World) gvk :
  respects keepsCurrent (processClusterscopedResources w gvk).
Proof.
  apply (respects_processClusterscopedResources w keepsCurrent (fun _ => True)).
  - intros gvk' listOptions. by apply Forall_true.
  - intros obj _. apply keepsCurrent_reconcile.
  - by intros gvk' listOptions gr k Hk.
Qed.

Lemma currentObjects_records (w : World) obj gr :
  is_Some (currentObjects (reconcile w obj gr).2 !! newValidationKey obj).
Proof.
  rewrite currentObjects_reconcile. apply (storeAll_lookup_is_Some [obj]). right.
  apply list_elem_of_here.
Qed.

Lemma currentObjects_records_group (w : World) objs namespace obj gr :
  obj ∈ objs ->
  is_Some (currentObjects (reconcileGroupOfObjects w objs namespace gr).2
             !! newValidationKey obj).
Proof.
  intros Hobj. rewrite currentObjects_reconcileGroupOfObjects.
  apply storeAll_lookup_is_Some. right. by apply list_elem_of_fmap_2.
Qed.

(** What the set of current objects has once some of the kinds are
    processed, it has when the processing of all of them returns. *)
Lemma keepsCurrent_after_kinds (w : World) pre post gr :
  keepsCurrent (processResources w pre None [] gr).2
    (processAllResources w (pre ++ post) gr).2.
Proof.
  unfold processAllResources. rewrite bind_unfold, processResources_app.
  set (kinds := processResources w pre None [] gr).
  pose proof (keepsCurrent_processResources w post kinds.1.1 kinds.1.2 kinds.2) as Hpost.
  destruct (processResources w post _ _ kinds.2) as [[finalErr gvks] gr1].
  cbn [fst snd] in *. rewrite bind_unfold.
  pose proof (keepsCurrent_processNamespacedResources w gvks gr1) as Hnamespaced.
  destruct (processNamespacedResources w gvks gr1) as [[err|] gr2]; cbn [fst snd ret] in *;
    by transitivity gr1.
Qed.

(** And what it has once the cluster-scoped kinds and some of the watched
    namespaces are processed, it has when the processing returns. *)
Lemma keepsCurrent_after_namespaces (w : World) resources pre post gr :
  let kinds := processResources w resources None [] gr in
  (getWatchNamespaces w kinds.2).1 = Ok (pre ++ post) ->
  keepsCurrent
    (reconcileNamespaces w pre kinds.1.2 (getWatchNamespaces w kinds.2).2).2
    (processAllResources w resources gr).2.
Proof.
  cbv zeta. unfold processAllResources. rewrite bind_unfold.
  destruct (processResources w resources None [] gr) as [[finalErr gvks] gr1].
  cbn [fst snd]. rewrite bind_unfold. unfold processNamespacedResources at 1 2.
  rewrite !bind_unfold.
  destruct (getWatchNamespaces w gr1) as [[namespaces|err] gr2]; cbn [fst snd]; [| done].
  intros [= ->]. rewrite reconcileNamespaces_app.
  pose proof (keepsCurrent_reconcileNamespaces w post gvks
                (reconcileNamespaces w pre gvks gr2).2) as Hpost.
  destruct (reconcileNamespaces w pre gvks gr2) as [[err|] gr3]; cbn [fst snd ret] in *;
    [reflexivity |].
  by destruct (reconcileNamespaces w post gvks gr3) as [[err|] gr4].
Qed.

(** C2, amended to what the code does. A pass that returns no error ends with
    the set of current objects drained to empty. A pass that returns an error
    (the discovery of the kinds failed, or the processing of a kind or of the
    namespaces did) returns before the deletion-reclaim phase: it ends in
    the very state in which the processing returned, no deletion signal is
    sent, and nothing is drained: every identity that the set of current
    objects had when the pass began, or had once any of the kinds or, after
    them, any of the watched namespaces were processed, is in the set when
    the pass ends.  So is every identity recorded during the pass: each
    reconcile, of one object or of a group, records its objects, and no part
    of the processing, from whatever state it runs, takes an identity out of
    the set.  The next pass begins in the state in which the pass ended. *)
Theorem pass_drains_current_objects_unless_it_fails (w : World) (gr : GenericReconciler) :
  let run := reconcileEverything w gr in
  let gr0 := setWatchNamespacesOf None gr in
  (run.1 = None -> currentObjects run.2 = ∅) /\
  (is_Some run.1 ->
     run.2 = processed w gr /\
     sendsNoDeletion gr run.2 /\
     keepsCurrent gr run.2 /\
     forall resources,
       reconcileResourceList w = Ok resources ->
       let kinds := processResources w resources None [] gr0 in
       (forall pre post,
          resources = pre ++ post ->
          keepsCurrent (processResources w pre None [] gr0).2 run.2) /\
       (forall pre post,
          (getWatchNamespaces w kinds.2).1 = Ok (pre ++ post) ->
          keepsCurrent
            (reconcileNamespaces w pre kinds.1.2 (getWatchNamespaces w kinds.2).2).2
            run.2)) /\
  (forall during : GenericReconciler,
     (forall obj,
        keepsCurrent during (reconcile w obj during).2 /\
        is_Some (currentObjects (reconcile w obj during).2 !! newValidationKey obj)) /\
     (forall objs namespace,
        keepsCurrent during (reconcileGroupOfObjects w objs namespace during).2 /\
        forall obj, obj ∈ objs ->
          is_Some (currentObjects (reconcileGroupOfObjects w objs namespace during).2
                     !! newValidationKey obj)) /\
     (forall gvk, keepsCurrent during (processClusterscopedResources w gvk during).2) /\
     (forall gvks, keepsCurrent during (processNamespacedResources w gvks during).2) /\
     (forall resources, keepsCurrent during (processAllResources w resources during).2)) /\
  (forall rest, Start (w :: rest) gr = Start rest run.2).
Proof.
  cbv zeta. split; [| split; [| split]].
  - rewrite reconcileEverything_run.
    destruct (reconcileResourceList w) as [apiResources|err]; [| done]. cbv zeta.
    destruct (processAllResources w apiResources _) as [[err|] gr1]; cbn [fst snd]; [done |].
    intros _. by destruct (handleResourceDeletions_run w gr1) as (_ & _ & -> & _).
  - rewrite reconcileEverything_run. unfold processed.
    destruct (reconcileResourceList w) as [apiResources|err]; cbn [fst snd].
    + cbv zeta.
      pose proof (keepsCurrent_processAllResources w apiResources
                    (setWatchNamespacesOf None gr)) as Hkeep.
      pose proof (sendsNoDeletion_processAllResources w apiResources
                    (setWatchNamespacesOf None gr)) as Hsent.
      pose proof (fun pre post =>
                    keepsCurrent_after_kinds w pre post (setWatchNamespacesOf None gr))
        as Hkinds.
      pose proof (fun pre post =>
                    keepsCurrent_after_namespaces w apiResources pre post
                      (setWatchNamespacesOf None gr)) as Hnamespaces.
      destruct (processAllResources w apiResources _) as [[err|] gr1] eqn:Hrun;
        cbn [fst snd] in *; [| by intros [? ?]].
      intros _. split; [done |]. split; [done |]. split; [done |].
      intros resources [= <-]. split.
      * intros pre post ->. specialize (Hkinds pre post). by rewrite Hrun in Hkinds.
      * intros pre post Hquery. by apply (Hnamespaces pre post).
    + intros _. split; [done |]. split; [reflexivity |]. split; [reflexivity | done].
  - intros during. split; [| split; [| split; [| split]]].
    + intros obj. split; [apply keepsCurrent_reconcile | apply currentObjects_records].
    + intros objs namespace.
      split; [apply keepsCurrent_reconcileGroupOfObjects |].
      intros obj. apply currentObjects_records_group.
    + intros gvk. apply keepsCurrent_processClusterscopedResources.
    + intros gvks. apply keepsCurrent_processNamespacedResources.
    + intros resources. apply keepsCurrent_processAllResources.
  - intros rest. cbn [Start]. by rewrite bind_unfold.
Qed.

Lemma pass_drains_current_objects_unless_it_fails_witness :
  currentObjects (reconcileEverything Example.healthy Example.start).2 = ∅ /\
  (reconcileEverything Example.volumesDown
     (setCurrentObjects (store (Example.node "n9" "1") "" ∅) Example.start)).2
  = processed Example.volumesDown
      (setCurrentObjects (store (Example.node "n9" "1") "" ∅) Example.start) /\
  is_Some (currentObjects
             (reconcileEverything Example.volumesDown
                (setCurrentObjects (store (Example.node "n9" "1") "" ∅) Example.start)).2
             !! newValidationKey (Example.node "n9" "1")) /\
  is_Some (currentObjects
             (reconcileEverything Example.volumesDown
                (setCurrentObjects (store (Example.node "n9" "1") "" ∅) Example.start)).2
             !! newValidationKey (Example.node "n1" "1")).
Proof.
  split.
  - apply (proj1 (pass_drains_current_objects_unless_it_fails Example.healthy Example.start)).
    vm_compute. reflexivity.
  - destruct (pass_drains_current_objects_unless_it_fails Example.volumesDown
                (setCurrentObjects (store (Example.node "n9" "1") "" ∅) Example.start))
      as (_ & Hfails & _).
    destruct Hfails as (Hstate & _ & Hstart & Hduring); [vm_compute; eauto |].
    destruct (Hduring Example.kinds eq_refl) as [Hkinds _].
    split; [exact Hstate |]. split.
    + apply Hstart. vm_compute. eauto.
    + apply (Hkinds [Example.nodes] [Example.namespacedPods; Example.volumes] eq_refl).
      vm_compute. eauto.
Defined.

(** * A validation that fails stores nothing *)

#[local] Instance storesNothingAt_preorder k : PreOrder (storesNothingAt k).
Proof. split; [by intros gr entry | intros gr1 gr2 gr3 H12 H23 entry Hentry; auto]. Qed.

Lemma storesNothingAt_reconcile (w : World) k obj :
  rejects w k -> respects (storesNothingAt k) (reconcile w obj).
Proof.
  intros [Hrejects _] gr entry.
  destruct (decide (k = newValidationKey obj)) as [->|Hne];
    [| by rewrite reconcile_lookup_other].
  rewrite reconcile_run. cbv zeta.
  pose proof (objectAlreadyValidated_lookup_Some obj (objectValidationCache gr)
                (newValidationKey obj) entry) as Hcheck.
  destruct (objectAlreadyValidated obj _) as [[] vc]; cbn [snd] in Hcheck; [done |].
  destruct (unstructuredToTyped w obj) as [typed|err] eqn:Htyped; [| done].
  apply unstructuredToTyped_Ok in Htyped as ->.
  by destruct (Hrejects (requestFor gr obj) obj eq_refl) as [err ->].
Qed.

Lemma storesNothingAt_reconcileGroupOfObjects (w : World) k objs namespace :
  rejects w k -> respects (storesNothingAt k) (reconcileGroupOfObjects w objs namespace).
Proof.
  intros [_ Hrejects] gr entry. rewrite reconcileGroupOfObjects_run.
  pose proof (pending_lookup_Some objs (objectValidationCache gr) k entry) as Hcheck.
  destruct (pending objs _) as [l vc]. cbn [snd] in Hcheck. cbv zeta.
  destruct (convertObjects w l []) as [cli|err] eqn:Hcli; [| done].
  apply convertObjects_Ok in Hcli as ->. cbn [app].
  destruct (decide (k ∈ newValidationKey <$> l)) as [Hin|Hnotin].
  - destruct (Hrejects l (resolveNamespaceUID gr namespace)) as [err ->]; [| done].
    apply list_elem_of_fmap in Hin as (obj & -> & Hobj). apply Exists_exists. by exists obj.
  - destruct (RunValidationsForObjects w _ _); [| done].
    cbn. by rewrite storeAll_lookup_other.
Qed.

Lemma storesNothingAt_reconcileEverything (w : World) k gr :
  rejects w k -> storesNothingAt k gr (reconcileEverything w gr).2.
Proof.
  intros Hrejects. rewrite reconcileEverything_run.
  destruct (reconcileResourceList w) as [apiResources|err]; [| reflexivity]. cbv zeta.
  assert (storesNothingAt k gr
            (processAllResources w apiResources (setWatchNamespacesOf None gr)).2) as Hrun.
  { apply (respects_processAllResources w (storesNothingAt k) (fun _ => True)
             ltac:(by intros; apply Forall_true)
             ltac:(by intros; apply storesNothingAt_reconcile)
             ltac:(by intros; apply storesNothingAt_reconcileGroupOfObjects)
             ltac:(by intros gvk listOptions gr0 entry)
             ltac:(by intros namespaces gr0 entry)
             apiResources (setWatchNamespacesOf None gr)). }
  destruct (processAllResources w apiResources _) as [[err|] gr1]; cbn [fst snd] in *;
    [done |].
  intros entry Hentry. apply Hrun.
  destruct (handleResourceDeletions_run w gr1) as (_ & _ & _ & _ & Hvc).
  rewrite Hvc in Hentry. by apply map_lookup_filter_Some in Hentry as [Hentry _].
Qed.

(** * An object without a cache entry is handed to the validation engine *)

Lemma pending_uncached_elem_of objs (vc : validationCache) obj :
  obj ∈ objs -> vc !! newValidationKey obj = None -> obj ∈ (pending objs vc).1.
Proof.
  revert vc. induction objs as [|o objs IH]; intros vc Hobj Hnone; cbn [pending].
  { by apply elem_of_nil in Hobj. }
  pose proof (objectAlreadyValidated_lookup_Some o vc (newValidationKey obj)) as Hcheck.
  pose proof (objectAlreadyValidated_run o vc) as [Hfresh _].
  destruct (objectAlreadyValidated o vc) as [validated vc1] eqn:Ho. cbn [snd] in Hcheck.
  assert (vc1 !! newValidationKey obj = None) as Hnone1.
  { destruct (vc1 !! newValidationKey obj) as [entry|] eqn:Hentry; [| done].
    specialize (Hcheck entry eq_refl). congruence. }
  specialize (IH vc1). destruct (pending objs vc1) as [l vc2]. cbn [fst] in *.
  apply elem_of_cons in Hobj as [->|Hobj].
  - specialize (Hfresh Hnone). injection Hfresh as -> _. apply list_elem_of_here.
  - destruct validated; [by apply IH |]. apply list_elem_of_further. by apply IH.
Qed.

Lemma reconcile_uncached (w : World) obj gr :
  objectValidationCache gr !! newValidationKey obj = None -> converts w obj ->
  effects (reconcile w obj gr).2 = effects gr ++ [RunValidationsCall (requestFor gr obj) obj].
Proof.
  intros Hnone [typed Htyped]. rewrite reconcile_run. cbv zeta.
  rewrite (proj1 (objectAlreadyValidated_run obj _) Hnone), Htyped.
  apply unstructuredToTyped_Ok in Htyped as ->.
  by destruct (RunValidations w _ _).
Qed.

Lemma reconcileGroupOfObjects_uncached (w : World) objs namespace obj gr :
  obj ∈ objs -> objectValidationCache gr !! newValidationKey obj = None ->
  Forall (converts w) objs ->
  exists nonValidatedObj,
    obj ∈ nonValidatedObj /\
    effects (reconcileGroupOfObjects w objs namespace gr).2
    = effects gr ++ [RunValidationsForObjectsCall nonValidatedObj
                       (resolveNamespaceUID gr namespace)].
Proof.
  intros Hobj Hnone Hobjs. rewrite reconcileGroupOfObjects_run.
  pose proof (pending_uncached_elem_of objs (objectValidationCache gr) obj Hobj Hnone) as Hin.
  pose proof (pending_subseteq objs (objectValidationCache gr)) as Hsub.
  destruct (pending objs _) as [l vc]. cbn [fst] in *. cbv zeta.
  rewrite convertObjects_all.
  2:{ rewrite Forall_forall in Hobjs. apply Forall_forall. intros o Ho. by apply Hobjs, Hsub. }
  cbn [app]. exists l. split; [done |].
  by destruct (RunValidationsForObjects w l _).
Qed.

(** C4, amended to what the code does. For an identity that is served at one
    and the same revision throughout two consecutive passes, and for whose
    objects the validation engine returns no error, the two passes together
    hand an object of that identity to the validation engine at most once:
    once it is validated, the entry stored at the revision makes every later
    check skip it.  When the validation engine returns an error for the
    objects of the identity, nothing is stored for it: after a pass, and
    after two, the cache has no entry for the identity but the one it had
    before.  And an object of an identity without an entry is never skipped:
    whenever it is reconciled again, in whatever state that has no entry for
    it, alone (if it converts to its typed form) or in a group (if the
    objects of the group all convert), it is handed to the validation engine
    again. *)
Theorem same_revision_is_validated_at_most_once (w1 w2 : World) (k : validationKey)
    (rv : string) (gr : GenericReconciler) :
  (servedAt w1 k rv -> servedAt w2 k rv -> validates w1 k -> validates w2 k ->
   evaluations k (effects (Start [w1; w2] gr).2) <= evaluations k (effects gr) + 1) /\
  (rejects w1 k ->
   storesNothingAt k gr (reconcileEverything w1 gr).2 /\
   (rejects w2 k -> storesNothingAt k gr (Start [w1; w2] gr).2)) /\
  (forall (w : World) (later : GenericReconciler) (obj : Unstructured),
     newValidationKey obj = k ->
     objectValidationCache later !! k = None ->
     (converts w obj ->
      effects (reconcile w obj later).2
      = effects later ++ [RunValidationsCall (requestFor later obj) obj] /\
      evaluations k (effects (reconcile w obj later).2)
      = S (evaluations k (effects later))) /\
     (forall objs namespace,
        obj ∈ objs -> Forall (converts w) objs ->
        (exists nonValidatedObj,
           obj ∈ nonValidatedObj /\
           effects (reconcileGroupOfObjects w objs namespace later).2
           = effects later ++ [RunValidationsForObjectsCall nonValidatedObj
                                 (resolveNamespaceUID later namespace)]) /\
        evaluations k (effects (reconcileGroupOfObjects w objs namespace later).2)
        = S (evaluations k (effects later)))).
Proof.
  split; [| split].
  - apply two_passes_validate_at_most_once.
  - intros Hrejects1. split; [by apply storesNothingAt_reconcileEverything |].
    intros Hrejects2. rewrite Start_two.
    transitivity (reconcileEverything w1 gr).2; by apply storesNothingAt_reconcileEverything.
  - intros w later obj <- Hnone. split.
    + intros Hobj. rewrite (reconcile_uncached w obj later Hnone Hobj).
      split; [done |]. rewrite evaluations_snoc. cbn [evaluates].
      rewrite bool_decide_eq_true_2 by done. lia.
    + intros objs namespace Hin Hobjs.
      destruct (reconcileGroupOfObjects_uncached w objs namespace obj later Hin Hnone Hobjs)
        as (l & Hl & Heffects).
      split; [by exists l |]. rewrite Heffects, evaluations_snoc.
      rewrite evaluates_batch_true by (by apply list_elem_of_fmap_2). lia.
Qed.

Lemma example_rejects :
  rejects Example.invalidNodes (newValidationKey (Example.node "n1" "1")).
Proof.
  assert (forall obj, newValidationKey obj = newValidationKey (Example.node "n1" "1") ->
                      Example.isNode obj = true) as Hnode.
  { intros obj Hkey. apply (f_equal kind) in Hkey. unfold Example.isNode.
    unfold newValidationKey in Hkey. cbn in Hkey. by rewrite Hkey. }
  split.
  - intros request obj Hkey. cbn. rewrite (Hnode obj Hkey). cbn. eauto.
  - intros objs namespaceUID Hobjs. cbn.
    assert (forallb (fun obj => negb (Example.isNode obj)) objs = false) as ->; [| eauto].
    induction Hobjs as [obj objs Hkey|obj objs _ IH]; cbn.
    + by rewrite (Hnode obj Hkey).
    + rewrite IH. apply andb_false_r.
Qed.

Lemma same_revision_is_validated_at_most_once_witness :
  evaluations (newValidationKey (Example.node "n1" "1"))
    (effects (Start [Example.healthy; Example.healthy] Example.start).2)
  <= evaluations (newValidationKey (Example.node "n1" "1")) (effects Example.start) + 1 /\
  storesNothingAt (newValidationKey (Example.node "n1" "1")) Example.start
    (Start [Example.invalidNodes; Example.invalidNodes] Example.start).2 /\
  evaluations (newValidationKey (Example.node "n1" "1"))
    (effects (reconcile Example.invalidNodes (Example.node "n1" "1")
                (reconcileEverything Example.invalidNodes Example.start).2).2)
  = S (evaluations (newValidationKey (Example.node "n1" "1"))
         (effects (reconcileEverything Example.invalidNodes Example.start).2)).
Proof.
  split; [| split].
  - apply (same_revision_is_validated_at_most_once Example.healthy Example.healthy
             (newValidationKey (Example.node "n1" "1")) "1" Example.start).
    + by apply example_node_servedAt.
    + by apply example_node_servedAt.
    + apply example_validates.
    + apply example_validates.
  - apply (same_revision_is_validated_at_most_once Example.invalidNodes Example.invalidNodes
             (newValidationKey (Example.node "n1" "1")) "1" Example.start).
    + apply example_rejects.
    + apply example_rejects.
  - apply (same_revision_is_validated_at_most_once Example.invalidNodes Example.invalidNodes
             (newValidationKey (Example.node "n1" "1")) "1" Example.start).
    + reflexivity.
    + vm_compute. reflexivity.
    + eexists. vm_compute. reflexivity.
Defined.
